(* ===== verification/_CoqProject ===== *)
-Q . S2P
Prelude.v
Schedule.v
Shuffle.v
Escape.v
Api.v
Render.v
Markup.v
App.v
Rest.v
Server.v
Panels.v
Protocol.v
Notify.v
Sync.v
