(* ===== verification/Prelude.v ===== *)
(** * FlashLearn: a verification development of [src/web/js/script.js]

    The program is a browser-side flash-card client, one file,
    [src/web/js/script.js].  It keeps module-level mutable state
    ([currentDeckId], [decks], [cards], [reviewCards], [currentReviewIndex],
    [isCardFlipped], lines 11-16), renders it into the DOM, and talks to a
    REST backend through [fetch].  Its parts, and how they interact:

    - API client ([apiCreateDeck], [apiCreateCard], [apiUpdateCard],
      [apiDeleteDeck], [apiDeleteCard], and the inline fetches of
      [loadDecks] and [loadCards]): builds a request, awaits one response,
      turns a non-2xx response into a thrown [Error].
    - Deck and card handlers ([createDeck], [loadDecks], [selectDeck],
      [deleteDeck], [createCard], [loadCards], [deleteCard]): validate the
      form, await the API client, then mutate the state and re-render.
    - Review session ([startReview], [showNextReviewCard], [flipCard],
      [rateCard], [exitReview], [endReview]): the due-card filter, the
      shuffle, the index that walks the queue.
    - Helpers and renderers ([escapeHtml], [shuffleArray],
      [getDeckCardCount], [formatNextReviewDate], [showNotification],
      [updateDecksList], [updateCardsList]).
    Handlers call the API client, the renderers and the notifications;
    the renderers call the helpers.  All of it shares the module state.

    ** Files (each opens with its own summary)

    - [Prelude.v] (this file): JavaScript conventions shared by the model
      (string truthiness and [||], [trim], thrown errors as the sum type
      [completion], [Math.ceil] of an integer quotient), string and list
      lemmas, the hint databases [flashlearn] and [flashlearn_rw].
    - [Schedule.v], Module [Schedule]: [nextReviewDate] as [review_date],
      the due filter of [startReview] ([is_due]) and
      [formatNextReviewDate].
    - [Shuffle.v], Module [Shuffle]: [shuffleArray] as [fy_loop] over the
      indices [draw_index] computes from the [Math.random()] values.
    - [Escape.v], Module [Escape]: [escapeHtml] as five [replace_char]
      passes, the one-pass reference [escape_ref], the grammar [escaped]
      of well-formed escaped text, and [html_decode], the browser's
      decoding of the five character references.
    - [Api.v], Module [Api]: decks, cards, identifiers ([js_id]: the
      backend may send numbers or strings, compared with [===]), requests
      and responses, each [api*] function as its request and
      [api_result].
    - [Render.v], Module [Render]: [updateDecksList] and [updateCardsList]
      as view models (one row per entity with every substituted value),
      including the [TypeError] a [null] description raises mid-list.
    - [Markup.v], Module [Markup]: the markup the two renderers write,
      the template literals copied character for character
      ([deck_item_html], [card_item_html], the placeholders), and
      [skeleton], the markup characters of a text.
    - [App.v], Module [App]: the state record [app] (globals and DOM
      elements), every handler split at its [await] into a synchronous
      part returning the requests it starts and a continuation [cont] run
      by [resume] when the response arrives; the event loop [step], in
      which a user event whose control is visible ([enabled]) or the
      response to any pending request may come next; [boot]; [reachable];
      and [run_trace], an executable scheduler whose runs are [step]
      sequences ([run_trace_reachable]).
    - [Panels.v], Module [Panels]: invariants of the page over the
      event loop ([reachable_app_invariant]: a property kept by every
      handler and continuation holds in every reachable world).
    - [Rest.v], Module [Rest]: the backend's routing contract (spec
      section 6, the backend is not under [src/]): [route_of] reads a
      request as a server following the table routes it (base URL, path
      segments split at [/], method, body), and [route_of_inv] reads the
      route back: method and path are the table's [route_method] and
      [route_path] of the route.
    - [Server.v], Module [Server], Section [Serve]: an abstract backend
      from the spec (sections 3 and 6, not under [src/]): its state
      [server], [serve] answering one request, and [system], the client
      of [App] running against it, where the server processes requests in
      flight in any order, the answers reach the client in any order, and
      a request can fail in the network before the server sees it or
      after the server processed it, its answer lost ([sys_step]);
      [run_sys] is its executable scheduler.  The id
      generator [mk_id], the review [schedule] and the error texts are
      section parameters.
    - [Notify.v], Module [Notify]: the toasts on the page.  [page] holds
      the toasts attached to [document.body], the armed timers, the clock
      and the next element identity; [showNotification_dom] appends the
      element of [notification_of] (shared with [App.showNotification])
      and arms the 3000 ms timer; [run_callback] runs the two closures of
      lines 441-448 (the [slideOut] animation and a 300 ms timer, then the
      removal behind the [parentNode] guard).  [page_step] lets the
      browser run any due timer, late and in any order; [advance] and
      [wait] run timers on time, in deadline order ([insert_timer]).
    - [Protocol.v], Module [Protocol]: the protocol between the two.
      [wt_pending] pairs each continuation with the request that started
      it, [route_shape] is the Response column of the table, and
      [sys_auto] is the part of [sys_step] that needs no user: the server
      answers and the client takes the answer.  [settle_measure] counts
      the work left in flight.
    - [Sync.v], Module [Sync]: the client's view as a refinement of the
      server.  [calm_step] is the part of [sys_step] where the user acts
      only with nothing in flight and the network loses nothing;
      [synced] says the client's [decks] are the server's and its [cards]
      carry the identifiers of the server's cards of the selected deck;
      [calm_ok] is the invariant of calm runs (one request in flight at
      most, described by [pending_ok]); [run_calm] is an executable calm
      scheduler.

    ** Theorems (claim ids of the manifest)

    - Review session (App): [startReview_starts] (C1: the queue is a
      permutation of the due cards, index 0, first question shown);
      [rateCard_finds_card] (C2: in every reachable world, whatever the
      interleaving, the review panel on a non-empty queue always has a
      current card; proved from the invariant [review_index_ok] by rule
      induction on [reachable]); [rateCard_k_last_ends_session] (C3);
      [startReview_without_due_cards] (C4); [exitReview_keeps_queue]
      (C28: leaving a review keeps the queue and the index and shows no
      notification, against spec section 4.3).
    - Error paths (App, Api): [failed_response_commits_nothing] (C5: a
      failed request only adds an error notification, for every
      continuation); [createCard_validation] (C9);
      [deleteDeck_k_null_description_keeps_selection] (C11).
    - Interleavings the code gets wrong, as concrete reachable runs (App):
      [review_panel_with_empty_queue] (C6), [double_rating_skips_a_card]
      (C7), [created_card_lands_in_other_deck] (C8).
    - Deck handlers and ids: [deleteDeck_k_clears_selection] (C10),
      [selectDeck_numeric_ids] (C14), [createDeck_k_success] (C15:
      the toast reads [[object Object]]).
    - Shuffle: [shuffleArray_permutation] (C16: swap indices within
      bounds, result a permutation) and [fy_loop_bijection] (C17: choice
      sequences correspond one to one with permutations, the uniformity
      argument); [shuffleArray_uniform] (C33: every permutation is
      returned exactly when each [Math.random()] value falls in an
      interval of width [1/(i+1)], intervals of volume [1/n!], so each
      permutation has probability [1/n!]; from [draw_index_interval] and
      the bijection of C17).
    - Escaping and rendering: [escapeHtml_equiv_ref] (C18),
      [escapeHtml_safe] (C19), [rendered_markup_is_template] (Markup,
      C20: with ids free of markup characters, the markup characters of
      both lists are those of their templates, once per row, whatever
      names, descriptions, questions and answers hold; an id with a quote
      breaks it, [quoted_id_adds_markup]),
      [render_deck_description] (C21: the placeholder is never shown);
      [escapeHtml_roundtrip] (C32: the browser's decoding of the
      character references gives the original text back, so [escapeHtml]
      is injective).
    - Dates: [startReview_queue_is_due_subset] (App, C22: the queue holds
      exactly the due cards), [formatNextReviewDate_agrees_with_is_due]
      (C23).
    - The page (Panels): [flip_matches_answer_side] (C35: the flag
      [isCardFlipped] always matches the answer side on screen);
      [toasts_share_one_class] (every toast has the same class
      name); [reachable_panels] (C37: the three panels as a state
      machine: never none and never all three on screen, and each of the
      six other combinations reached by a run, three of them mixing
      views); [review_progress_shown] (C38: the
      progress line reads [index+1/length] of the queue and the card
      shows the current card's question and answer);
      [lists_render_current_arrays] (the two lists are always
      renderings of the current [decks] and [cards]).
    - End to end: [spec_section_8_scenario] (C26: the example session of
      spec section 8 run on [run_trace], with the deck row still counting 0
      cards after the card is added).
    - Refinement of the REST contract (Rest):
      [client_requests_follow_rest_table] (C27: every request builder
      reaches the route the table names, with the identifier as its path
      segment, for identifiers without [/]; [apiDeleteDeck]'s request
      reaches none).
    - The client against the contract server (Server):
      the lemmas [sys_reachable_world] (every run of the system is a run
      of the event loop, so the theorems on [reachable] hold against the
      server) and [sys_server_ok] (the server model keeps the invariants
      of spec section 3); [deck_count_ignores_server_cards] (C29: after
      the page loads and a deck is opened, the deck's row counts 0 cards
      while the card list shows its card);
      [sys_decks_never_deleted] (C30: no deck is ever deleted on the
      server); [stale_card_list] (C31: a stale card list brings a deleted
      card back on screen); [sys_no_ghost_decks] (C34: every deck the
      client holds is stored on the server); [lost_answer_duplicates_deck]
      (C36: an answer lost after the server stored a deck leaves the
      client reporting a failure, and the retry stores a second deck of
      the same name).
    - The protocol (Protocol): [sys_answers_fit] (C12, typing: in every
      run against the server, each request in flight is the one its
      continuation awaits, and every answer the server gave parses for that
      continuation); [sys_settles] (C40, liveness: from every reachable
      system a run without user input answers and delivers everything in
      flight, the card reloads it starts included, and ends with nothing
      in flight; by strong induction on [settle_measure]).
    - Refinement of the server by the client (Sync):
      [calm_client_synced] (C39: against a server making unique
      identifiers of one path segment, in every calm run, whenever nothing
      is in flight the client's decks are the server's and its cards are
      the server's cards of the selected deck, by identifier and in the
      server's order; the runs of [stale_card_list] and
      [lost_answer_duplicates_deck] show that neither half of calmness
      can be dropped).  Each event, answer and delivery keeps [calm_ok]
      ([handle_post], [calm_preserved], the [deliver_*] lemmas).
    - The toasts (Notify): [toasts_on_screen] (C13: with timers on time,
      after any session the page shows exactly the toasts of the last
      3300 ms, in order, sliding out in their last 300 ms);
      [toast_timers_correspond] (C24: under any timer scheduling, each
      toast on the page has exactly one armed timer and each armed
      timer's toast is attached, so the [parentNode] guard always holds);
      [toasts_leave_page] (without new toasts, the timers empty the page).
    - Termination: [responses_bounded] (C25: without user input the page
      settles after at most [pending_weight] responses, at most twice the
      number of requests in flight).

    ** Modelling choices and bounds

    - Asynchrony: a handler runs to its first [await] atomically, as in the
      browser; the two awaits of an [api*] function are merged because no
      state is read between them.  Responses are inputs of the event loop
      ([response]: network failure, non-2xx with its text, 2xx with its
      parsed body).  Every recursion is structural, and the quiescence
      of the loop is the measure [pending_weight].  The one fuel is that
      of [Notify.advance], the timers run on time: [wait] gives it
      [timer_weight] (two per [SlideOut], one per [RemoveToast]), which
      each run lowers, so it never runs out ([on_time_advance]).
    - [Math.random()] values are rationals in [[0, 1)] supplied by [env];
      [Date] values are integers of epoch milliseconds; the day difference
      is the exact ceiling, which is what the double division gives for
      differences below 2^20 days.  Strings are byte strings (UTF-8); the
      characters [escapeHtml] and [trim] handle are ASCII.
    - Row clicks: the browser HTML-decodes an [onclick] attribute and
      reads the quoted id as a JavaScript string literal.  This is the
      identity on printable ASCII without [&], a backslash and quotes
      ([App.onclick_plain]); on other ids a click may hand the handler any
      string ([App.onclick_arg]), an over-approximation, so the theorems
      about every reachable world cover the browser's actual argument.
    - The page layout is not in [src/]: which panel holds each control
      ([enabled]) and the initial visibility of the panels ([initial_doc])
      are taken from the spec and the handlers (the deck list lies outside
      the three panels).

    ** Not modelled

    The backend's persistence, id generation and scheduling: the spec
    fixes none of them, so they are parameters of [Server] ([mk_id],
    [schedule], the error texts), constrained only by the hypotheses a
    theorem needs (unique ids for [sys_server_ok] and C39, ids of one
    path segment that an [onclick] attribute hands back unchanged for C39);
    in [App] every response is an input;
    [initializeTheme] and [handleKeyboardShortcuts]: [src/] has no code
    for them (only the call of line 20 and the listener of line 46), and
    the spec names no behaviour for them beyond "external collaborator",
    so there is nothing to translate; [boot] covers the [ReferenceError]
    of line 46 when no other script declares the second; the CSS text
    and animation of the toasts; the DOM's parsing of the markup;
    [toLocaleDateString] (a browser function given by [env]);
    parse failures of 2xx bodies; Unicode white space in [trim].

    ** Plan for later work

    1. The routing table (C27), the contract server (C29-C31), the
       protocol typing and liveness (C12, C40), lost answers (C36) and
       the calm sync refinement (C39) are done; next a sync theorem for
       runs with several requests in flight answered in order.
    2. The section 8 scenario (C26), the page invariants (C35, C38) and
       the panels as a state machine (C37) are done.
    3. The escaping round trip (C32) and the uniformity of the shuffle
       (C33) are done; next a model of the DOM's parsing of the markup,
       to state injection safety on the parsed tree.
    4. [getDeckCardCount] counting only the loaded cards (C29) and
       [exitReview] keeping the queue (C28) are done; next the browser's
       full decoding of an [onclick] attribute (all character references
       and JavaScript escapes), so that row clicks on any identifier are
       computed rather than left free.
*)

From stdpp Require Export base list sets strings.
From Stdlib Require Export ZArith Ascii.

Local Open Scope string_scope.

Declare Scope fl_scope.
Delimit Scope fl_scope with fl.

(** ** JavaScript conventions *)

(** A string is falsy exactly when it is empty ([if (!name)], [e || d]). *)
Definition js_truthy (s : string) : bool :=
  negb (String.eqb s "").

(** [a || b] on strings: [a] when it is non-empty, otherwise [b]. *)
Definition js_or_str (a b : string) : string :=
  if js_truthy a then a else b.

Notation "a ?|| b" := (js_or_str a b) (at level 40, left associativity) : fl_scope.
Open Scope fl_scope.

(** A thrown JavaScript error: the [message] of an [Error] object, the
    [TypeError] a property read on [undefined] or [null] raises, or the
    [ReferenceError] of a call to an undeclared function. *)
Inductive js_error :=
  | Error (message : string)
  | TypeError (message : string)
  | ReferenceError (message : string).

(** Completion of a JavaScript computation: a value or a thrown error. *)
Inductive completion (A : Type) :=
  | Normal (a : A)
  | Throw (e : js_error).
Arguments Normal {A} a.
Arguments Throw {A} e.

(** [Math.ceil(a / b)] for integers [a] and a positive divisor [b]. *)
Definition ceil_div (a b : Z) : Z := - ((- a) / b).

(** [String.prototype.trim] on the ASCII white space it removes (tab, line
    feed, vertical tab, form feed, carriage return, space). *)
Definition js_space (c : ascii) : bool :=
  match nat_of_ascii c with
  | 9 | 10 | 11 | 12 | 13 | 32 => true
  | _ => false
  end.

Fixpoint drop_spaces (l : list ascii) : list ascii :=
  match l with
  | c :: l' => if js_space c then drop_spaces l' else l
  | [] => []
  end.

Definition js_trim (s : string) : string :=
  String.string_of_list_ascii
    (rev (drop_spaces (rev (drop_spaces (String.list_ascii_of_string s))))).

(** ** Lemmas on the conventions *)

Lemma js_truthy_false s : js_truthy s = false <-> s = "".
Proof.
  unfold js_truthy. destruct (String.eqb_spec s ""); simpl; split; congruence.
Qed.

Lemma js_truthy_true s : js_truthy s = true <-> s <> "".
Proof.
  unfold js_truthy. destruct (String.eqb_spec s ""); simpl; split; congruence.
Qed.

Lemma js_or_str_empty b : "" ?|| b = b.
Proof. reflexivity. Qed.

Lemma js_or_str_nonempty a b : a <> "" -> a ?|| b = a.
Proof.
  intros Ha. unfold js_or_str, js_truthy.
  destruct (String.eqb_spec a ""); [contradiction | reflexivity].
Qed.

Lemma js_or_str_nonempty_result a b : b <> "" -> a ?|| b <> "".
Proof.
  intros Hb. unfold js_or_str, js_truthy.
  destruct (String.eqb_spec a ""); simpl; congruence.
Qed.

(** [ceil_div] is the least integer not below the quotient. *)
Lemma ceil_div_spec a b :
  (0 < b -> (ceil_div a b - 1) * b < a <= ceil_div a b * b)%Z.
Proof.
  intros Hb. unfold ceil_div.
  pose proof (Z.div_mod (- a) b ltac:(lia)).
  pose proof (Z.mod_pos_bound (- a) b Hb). nia.
Qed.

Lemma ceil_div_le_0 a b : (0 < b -> ceil_div a b <= 0 <-> a <= 0)%Z.
Proof. intros Hb. pose proof (ceil_div_spec a b Hb). nia. Qed.

(** ** Strings *)

(** stdpp makes [String.append] [simpl never]; these equations replace
    its reduction. *)
Lemma string_app_cons x (a b : string) : String x a +:+ b = String x (a +:+ b).
Proof. reflexivity. Qed.

Lemma string_app_nil_l (b : string) : EmptyString +:+ b = b.
Proof. reflexivity. Qed.

Lemma string_app_assoc (a b c : string) : (a +:+ b) +:+ c = a +:+ (b +:+ c).
Proof. induction a as [|x a IH]; [done|]. rewrite !string_app_cons. by f_equal. Qed.

Lemma string_app_nil_r (a : string) : a +:+ EmptyString = a.
Proof. induction a as [|x a IH]; [done|]. rewrite !string_app_cons. by f_equal. Qed.

Lemma list_ascii_of_string_app (a b : string) :
  String.list_ascii_of_string (a +:+ b) =
  (String.list_ascii_of_string a ++ String.list_ascii_of_string b)%list.
Proof. induction a as [|x a IH]; [done|]. rewrite string_app_cons. simpl. by rewrite IH. Qed.

(** ** Lists *)

Lemma list_delete_insert_same {A} (l : list A) i a :
  delete i (<[i:=a]> l) = delete i l.
Proof. revert i. induction l; intros [|i]; simpl; f_equal; auto. Qed.

(** Writing [a] at the position of [z] and putting [z] in front permutes
    [a :: l]. *)
Lemma Permutation_insert_front {A} (l : list A) k a z :
  l !! k = Some z -> z :: <[k:=a]> l ≡ₚ a :: l.
Proof.
  intros Hk.
  assert (Hk' : <[k:=a]> l !! k = Some a)
    by (apply list_lookup_insert_eq; eapply lookup_lt_Some; eauto).
  rewrite (delete_Permutation _ _ _ Hk'), list_delete_insert_same.
  rewrite (delete_Permutation _ _ _ Hk) at 2. apply Permutation_swap.
Qed.

(** Swapping two in-range positions of a list permutes it (the
    destructuring swap [[a[i], a[j]] = [a[j], a[i]]]). *)
Lemma Permutation_insert_swap {A} (l : list A) i j x y :
  l !! i = Some x -> l !! j = Some y ->
  <[j:=x]> (<[i:=y]> l) ≡ₚ l.
Proof.
  revert i j. induction l as [|a l IH]; intros i j Hi Hj; [done|].
  destruct i as [|i], j as [|j]; simplify_eq/=; [done| | |].
  - by apply Permutation_insert_front.
  - by apply Permutation_insert_front.
  - by rewrite IH.
Qed.

(** The weight of a list is the weight of a removed element plus the
    weight of the rest. *)
Lemma list_sum_map_delete {A} (f : A -> nat) (l : list A) n x :
  l !! n = Some x -> list_sum (map f l) = f x + list_sum (map f (delete n l)).
Proof.
  revert n. induction l as [|y l IH]; intros [|n] Hn; simplify_eq/=; [done|].
  rewrite (IH n Hn). lia.
Qed.

(** Filtering keeps a property of every element. *)
Lemma Forall_filter_weaken {A} (P : A -> Prop) (Q : A -> Prop) `{!forall x, Decision (Q x)}
    (l : list A) :
  Forall P l -> Forall P (filter Q l).
Proof.
  rewrite !Forall_forall. intros HP x Hx.
  apply list_elem_of_filter in Hx as [_ Hx]. by apply HP.
Qed.

Create HintDb flashlearn.
Create Rewrite HintDb flashlearn_rw.
#[export] Hint Resolve js_or_str_nonempty_result Forall_filter_weaken : flashlearn.
#[export] Hint Rewrite js_or_str_empty string_app_cons string_app_nil_l string_app_assoc string_app_nil_r
  list_ascii_of_string_app : flashlearn_rw.
