(* ===== verification/Schedule.v ===== *)
(** * Schedule: due cards and the next-review label

    Models the two places of [src/web/js/script.js] that read a card's
    [nextReviewDate]: the filter of [startReview] (lines 262-264), which
    decides whether a card is due, and [formatNextReviewDate]
    (lines 477-491), which renders the label of the card list.

    Dates are JavaScript time values, integers of epoch milliseconds;
    [now] is the value of [new Date()] when the handler runs.  A
    [nextReviewDate] is either falsy ([null], [undefined], [""]), a string
    that [new Date] cannot parse (time value [NaN]) or a parsable date. *)

From S2P Require Import Prelude.
From stdpp Require Import pretty.
Local Open Scope string_scope.

Module Schedule.

(** The value of [card.nextReviewDate] as the code distinguishes it. *)
Inductive review_date :=
  | NoDate
  | BadDate
  | AtTime (ms : Z).

#[export] Instance review_date_eq_dec : EqDecision review_date.
Proof. solve_decision. Defined.

(** Milliseconds in a day, [1000 * 60 * 60 * 24]. *)
Definition ms_per_day : Z := 1000 * 60 * 60 * 24.

(** [!card.nextReviewDate || new Date(card.nextReviewDate) <= new Date()].
    A [NaN] time value compares false with everything. *)
Definition is_due (now : Z) (d : review_date) : bool :=
  match d with
  | NoDate => true
  | BadDate => false
  | AtTime t => (t <=? now)%Z
  end.

(** The label for a parsable date's day difference, lines 485-490. *)
Definition label_of_days (n : Z) : string :=
  if (n =? 0)%Z then "сегодня"
  else if (n =? 1)%Z then "завтра"
  else if (n =? -1)%Z then "вчера"
  else if (n <? 0)%Z then "просрочено"
  else "через " +:+ pretty n +:+ " дн.".

(** [formatNextReviewDate(dateString)], lines 477-491.  A falsy argument
    returns early; a [NaN] difference fails every comparison and reaches
    the template, which prints [NaN]. *)
Definition formatNextReviewDate (now : Z) (d : review_date) : string :=
  match d with
  | NoDate => "сегодня"
  | BadDate => "через NaN дн."
  | AtTime t => label_of_days (ceil_div (t - now) ms_per_day)
  end.

(** The labels that mean the card is due. *)
Definition due_label (s : string) : bool :=
  bool_decide (s = "сегодня" \/ s = "вчера" \/ s = "просрочено").

(** ** Properties *)

Lemma ms_per_day_pos : (0 < ms_per_day)%Z.
Proof. unfold ms_per_day. lia. Qed.

Lemma label_of_days_due n : due_label (label_of_days n) = (n <=? 0)%Z.
Proof.
  unfold label_of_days, due_label.
  destruct (Z.eqb_spec n 0); [subst; reflexivity|].
  destruct (Z.eqb_spec n 1); [subst; reflexivity|].
  destruct (Z.eqb_spec n (-1)); [subst; reflexivity|].
  destruct (Z.ltb_spec n 0).
  - rewrite bool_decide_true by tauto. symmetry. apply Z.leb_le. lia.
  - rewrite bool_decide_false; [symmetry; apply Z.leb_gt; lia|].
    intros [E|[E|E]]; discriminate.
Qed.

Lemma ceil_div_day_one d :
  (0 < d <= ms_per_day)%Z -> ceil_div d ms_per_day = 1%Z.
Proof.
  intros Hd. pose proof (ceil_div_spec d ms_per_day ms_per_day_pos). nia.
Qed.

(** The filter of [startReview] keeps a card exactly when its
    [nextReviewDate] is absent or a parsable date not after [now]; a date
    that does not parse is never due. *)
Lemma is_due_spec now d :
  is_due now d = true <->
  d = NoDate \/ exists t, d = AtTime t /\ (t <= now)%Z.
Proof.
  destruct d as [| |t]; simpl; split.
  - by left.
  - done.
  - done.
  - by intros [?|[? [? _]]].
  - intros H%Z.leb_le. right. by exists t.
  - intros [?|[t' [[= <-] H]]]; [done|]. by apply Z.leb_le.
Qed.

(** C23: for a parsable date, the card list labels a card
    "сегодня", "вчера" or "просрочено" exactly when [startReview] treats
    it as due. *)
Theorem formatNextReviewDate_agrees_with_is_due now t :
  due_label (formatNextReviewDate now (AtTime t)) = is_due now (AtTime t).
Proof.
  simpl. rewrite label_of_days_due.
  destruct (Z.leb_spec (ceil_div (t - now) ms_per_day) 0) as [H|H];
    destruct (Z.leb_spec t now); try reflexivity;
    pose proof (ceil_div_le_0 (t - now) ms_per_day ms_per_day_pos); lia.
Qed.

(** A card whose next review falls later today, within one
    day of [now], is labelled "завтра" (tomorrow). *)
Theorem formatNextReviewDate_later_today now t :
  (now < t <= now + ms_per_day)%Z ->
  formatNextReviewDate now (AtTime t) = "завтра".
Proof.
  intros H. simpl. rewrite ceil_div_day_one by lia. reflexivity.
Qed.

End Schedule.
