(* ===== verification/Shuffle.v ===== *)
(** * Shuffle: [shuffleArray]

    Models [shuffleArray] of [src/web/js/script.js] (lines 462-469), the
    Fisher–Yates loop [startReview] uses to order the review queue.

    [Math.random()] is an input: [rnd i] is the value the call returns in
    the iteration whose loop variable is [i] (each iteration calls it once),
    a rational in [[0, 1)].  [draw_index] is
    [Math.floor(Math.random() * (i + 1))].  The loop is also stated over
    the drawn indices directly ([fy_loop] with a choice function [c]), which
    is what the uniformity argument counts: every permutation of a list
    without duplicates comes from exactly one choice function with
    [c i <= i]. *)

From S2P Require Import Prelude.
From Stdlib Require Import QArith Qround.
Local Open Scope nat_scope.

Module Shuffle.

(** [Math.floor(r * (i + 1))]. *)
Definition draw_index (r : Q) (i : nat) : nat :=
  Z.to_nat (Qfloor (r * inject_Z (Z.of_nat (S i)))).

(** [[newArray[i], newArray[j]] = [newArray[j], newArray[i]]]: the right
    side is read first, then [newArray[i]] and [newArray[j]] are written in
    that order.  Both indices are in range whenever the loop reaches the
    swap ([draw_index_le] and [i < length]); the fall-through branch is
    unreachable from [shuffleArray]. *)
Definition swap {A} (a : list A) (i j : nat) : list A :=
  match a !! i, a !! j with
  | Some x, Some y => <[j:=x]> (<[i:=y]> a)
  | _, _ => a
  end.

(** [for (let i = n - 1; i > 0; i--)], the index of iteration [i] given by
    the choice function [c]. *)
Fixpoint fy_loop {A} (c : nat -> nat) (i : nat) (a : list A) : list A :=
  match i with
  | 0 => a
  | S i' => fy_loop c i' (swap a i (c i))
  end.

(** [shuffleArray(array)]: the copy [[...array]] is the list itself. *)
Definition shuffleArray {A} (rnd : nat -> Q) (array : list A) : list A :=
  fy_loop (fun i => draw_index (rnd i) i) (length array - 1) array.

(** A value [Math.random()] can return. *)
Definition unit_interval (r : Q) : Prop := (0 <= r /\ r < 1)%Q.

(** A choice function drawing, at every iteration [i <= n], an index in
    [[0, i]]. *)
Definition valid_choice (n : nat) (c : nat -> nat) : Prop :=
  forall i, i <= n -> c i <= i.

(** The width [1/(i+1)] of the interval of [Math.random()] values that
    draws one given index at iteration [i]. *)
Definition box_width (i : nat) : Q := 1 / inject_Z (Z.of_nat (S i)).

(** ** Lemmas *)

Lemma length_swap {A} (a : list A) i j : length (swap a i j) = length a.
Proof.
  unfold swap. destruct (a !! i), (a !! j); rewrite ?length_insert; done.
Qed.

Lemma swap_perm {A} (a : list A) i j : swap a i j ≡ₚ a.
Proof.
  unfold swap. destruct (a !! i) eqn:Hi, (a !! j) eqn:Hj; try done.
  by apply Permutation_insert_swap.
Qed.

Lemma fy_loop_perm {A} c i (a : list A) : fy_loop c i a ≡ₚ a.
Proof.
  revert a. induction i as [|i IH]; intros a; [done|].
  simpl. by rewrite IH, swap_perm.
Qed.

Lemma length_fy_loop {A} c i (a : list A) : length (fy_loop c i a) = length a.
Proof. apply Permutation_length, fy_loop_perm. Qed.

(** [Math.floor(r * (i + 1))] lies in [[0, i]] for [r] in [[0, 1)]. *)
Lemma draw_index_le r i : unit_interval r -> draw_index r i <= i.
Proof.
  intros [H0 H1]. unfold draw_index.
  pose proof (Qfloor_le (r * inject_Z (Z.of_nat (S i)))) as Hle.
  assert (Hlt : (r * inject_Z (Z.of_nat (S i)) < inject_Z (Z.of_nat (S i)))%Q).
  { rewrite <- (Qmult_1_l (inject_Z (Z.of_nat (S i)))) at 2.
    apply Qmult_lt_compat_r; [|done].
    unfold Qlt. simpl. lia. }
  assert (Hf : (inject_Z (Qfloor (r * inject_Z (Z.of_nat (S i)))) <
                inject_Z (Z.of_nat (S i)))%Q) by (eapply Qle_lt_trans; eauto).
  rewrite <- Zlt_Qlt in Hf. lia.
Qed.

(** [Math.floor] on rationals: [Qfloor x = z] exactly when
    [z <= x < z + 1]. *)
Lemma Qfloor_spec x z : Qfloor x = z <-> (inject_Z z <= x /\ x < inject_Z (z + 1))%Q.
Proof.
  split.
  - intros <-. split; [apply Qfloor_le|apply Qlt_floor].
  - intros [Hl Hu]. apply Qfloor_resp_le in Hl. rewrite Qfloor_Z in Hl.
    assert (Hf : (inject_Z (Qfloor x) < inject_Z (z + 1))%Q)
      by (eapply Qle_lt_trans; [apply Qfloor_le|exact Hu]).
    rewrite <- Zlt_Qlt in Hf. lia.
Qed.

Lemma Qfloor_nonneg x : (0 <= x)%Q -> (0 <= Qfloor x)%Z.
Proof. intros H. apply Qfloor_resp_le in H. exact H. Qed.

Lemma swap_app_l {A} (l r : list A) i j :
  i < length l -> j < length l -> swap (l ++ r) i j = swap l i j ++ r.
Proof.
  intros Hi Hj. unfold swap. rewrite !lookup_app_l by done.
  destruct (l !! i), (l !! j); try done.
  rewrite insert_app_l by done. rewrite insert_app_l; [done|].
  by rewrite length_insert.
Qed.

(** Iterations [i, i-1, ..., 1] only touch positions [<= i]. *)
Lemma fy_loop_app {A} c i (l r : list A) :
  i < length l -> (forall k, k <= i -> c k <= k) ->
  fy_loop c i (l ++ r) = fy_loop c i l ++ r.
Proof.
  revert l. induction i as [|i IH]; intros l Hi Hc; [done|].
  simpl. rewrite swap_app_l by (specialize (Hc (S i)); lia).
  apply IH; [rewrite length_swap; lia | intros k Hk; apply Hc; lia].
Qed.

(** The loop reads the choice function only at [1 .. i]. *)
Lemma fy_loop_ext {A} c1 c2 i (a : list A) :
  (forall k, 1 <= k <= i -> c1 k = c2 k) -> fy_loop c1 i a = fy_loop c2 i a.
Proof.
  revert a. induction i as [|i IH]; intros a H; [done|].
  simpl. rewrite H by lia. apply IH. intros k Hk. apply H. lia.
Qed.

(** The first iteration on [l ++ [x]] moves the chosen element [z] to the
    end and [x] to the chosen position. *)
Lemma swap_last {A} (l : list A) x j z :
  (l ++ [x]) !! j = Some z ->
  swap (l ++ [x]) (length l) j = <[j:=x]> l ++ [z].
Proof.
  intros Hj. unfold swap.
  rewrite lookup_app_r, Nat.sub_diag by lia. simpl. rewrite Hj.
  rewrite insert_app_r_alt, Nat.sub_diag by lia. simpl.
  destruct (decide (j < length l)) as [Hlt|Hge]; [by rewrite insert_app_l|].
  pose proof (lookup_lt_Some _ _ _ Hj) as Hlen.
  rewrite length_app in Hlen. simpl in Hlen.
  assert (j = length l) as -> by lia.
  rewrite lookup_app_r, Nat.sub_diag in Hj by lia. simplify_eq/=.
  rewrite (list_insert_ge l) by lia.
  rewrite insert_app_r_alt by lia. rewrite Nat.sub_diag. done.
Qed.

Lemma swap_last_perm {A} (l : list A) x j z :
  (l ++ [x]) !! j = Some z -> <[j:=x]> l ++ [z] ≡ₚ l ++ [x].
Proof. intros Hj. rewrite <- (swap_last _ _ _ _ Hj). apply swap_perm. Qed.

Lemma swap_last_NoDup {A} (l : list A) x j z :
  NoDup (l ++ [x]) -> (l ++ [x]) !! j = Some z -> NoDup (<[j:=x]> l).
Proof.
  intros Hnd Hj. rewrite <- (swap_last_perm _ _ _ _ Hj) in Hnd.
  by apply NoDup_app in Hnd as [? _].
Qed.

Lemma valid_choice_lookup {A} (l : list A) x c :
  valid_choice (length l) c ->
  exists z, (l ++ [x]) !! c (length l) = Some z.
Proof.
  intros Hc. apply lookup_lt_is_Some_2.
  rewrite length_app. simpl. specialize (Hc (length l)). lia.
Qed.

Lemma fy_loop_surjective_aux {A} m : forall (a b : list A),
  length a = S m -> NoDup a -> b ≡ₚ a ->
  exists c, valid_choice m c /\ fy_loop c m a = b.
Proof.
  induction m as [|m IH]; intros a b Hlen Hnd Hp.
  - exists (fun _ => 0). split; [intros i Hi; lia|].
    destruct a as [|x [|]]; simplify_eq/=. symmetry. by apply Permutation_singleton_r.
  - destruct (exists_last (l:=a)) as (l & x & ->); [by intros ->|].
    destruct (exists_last (l:=b)) as (b' & z & ->).
    { intros ->. apply Permutation_length in Hp. rewrite length_app in Hp.
      simpl in Hp. lia. }
    rewrite length_app in Hlen. simpl in Hlen.
    assert (Hl : length l = S m) by lia. clear Hlen.
    assert (Hz : z ∈ l ++ [x]) by (rewrite <- Hp; set_solver).
    apply list_elem_of_lookup in Hz as [j Hj].
    pose proof (swap_last_perm _ _ _ _ Hj) as Hperm.
    destruct (IH (<[j:=x]> l) b') as (c' & Hc' & Hrun).
    + rewrite length_insert. lia.
    + by eapply swap_last_NoDup.
    + apply (Permutation_app_inv_r [z]). by rewrite Hp, Hperm.
    + exists (fun k => if decide (k = S m) then j else c' k). split.
      * intros k Hk. case_decide; [|apply Hc'; lia].
        pose proof (lookup_lt_Some _ _ _ Hj). rewrite length_app in *.
        simpl in *. lia.
      * cbn [fy_loop]. rewrite decide_True by done.
        rewrite <- Hl at 1. rewrite (swap_last _ _ _ _ Hj). rewrite fy_loop_app.
        -- f_equal. rewrite <- Hrun. apply fy_loop_ext.
           intros k Hk. rewrite decide_False by lia. done.
        -- rewrite length_insert. lia.
        -- intros k Hk. rewrite decide_False by lia. apply Hc'. lia.
Qed.

Lemma fy_loop_injective_aux {A} m : forall (a : list A) c1 c2,
  length a = S m -> NoDup a -> valid_choice m c1 -> valid_choice m c2 ->
  fy_loop c1 m a = fy_loop c2 m a -> forall k, 1 <= k <= m -> c1 k = c2 k.
Proof.
  induction m as [|m IH]; intros a c1 c2 Hlen Hnd Hc1 Hc2 Heq k Hk; [lia|].
  destruct (exists_last (l:=a)) as (l & x & ->); [by intros ->|].
  rewrite length_app in Hlen. simpl in Hlen.
  assert (Hl : length l = S m) by lia. clear Hlen.
  rewrite <- Hl in Hc1, Hc2.
  destruct (valid_choice_lookup l x c1 Hc1) as [z1 Hj1].
  destruct (valid_choice_lookup l x c2 Hc2) as [z2 Hj2].
  rewrite Hl in Hc1, Hc2.
  cbn [fy_loop] in Heq. rewrite <- Hl in Heq.
  rewrite (swap_last _ _ _ _ Hj1), (swap_last _ _ _ _ Hj2) in Heq.
  rewrite !fy_loop_app in Heq;
    try (rewrite length_insert; lia); try (intros; apply Hc1 || apply Hc2; lia).
  apply app_inj_tail in Heq as [Heq ->].
  assert (Hj : c1 (length l) = c2 (length l)) by (eapply NoDup_lookup; eauto).
  rewrite Hl in Hj.
  destruct (decide (k = S m)) as [->|Hne]; [done|].
  apply (IH (<[c1 (S m):=x]> l)).
  - rewrite length_insert. lia.
  - rewrite <- Hl. by eapply swap_last_NoDup.
  - intros i Hi. apply Hc1. lia.
  - intros i Hi. apply Hc2. lia.
  - rewrite Hj at 2. by rewrite <- Hl.
  - lia.
Qed.

(** C16: when every [Math.random()] value lies in [[0, 1)], every
    swap of [shuffleArray] uses an index in [[0, i]] and the result is a
    permutation of the input. *)
Theorem shuffleArray_permutation {A} (rnd : nat -> Q) (a : list A) :
  (forall i, unit_interval (rnd i)) ->
  valid_choice (length a - 1) (fun i => draw_index (rnd i) i) /\
  shuffleArray rnd a ≡ₚ a.
Proof.
  intros Hr. split; [intros i _; by apply draw_index_le|].
  apply fy_loop_perm.
Qed.

Lemma shuffleArray_permutation_witness :
  (forall i : nat, unit_interval (1 # 2)) /\
  shuffleArray (fun _ => 1 # 2) [1; 2; 3] ≡ₚ [1; 2; 3].
Proof.
  assert (H : forall i : nat, unit_interval (1 # 2))
    by (intros _; split; [vm_compute; intros E; discriminate E | reflexivity]).
  split; [exact H|].
  apply (shuffleArray_permutation (fun _ => 1 # 2) [1; 2; 3]). exact H.
Defined.

(** C17: on a list without duplicates, the map from choice
    functions with [c i <= i] to results of the loop is a bijection onto
    the permutations of the list: every permutation is produced, and two
    choice functions that produce the same result agree at every
    iteration.  With independent uniform draws every permutation thus has
    probability [1 / n!]. *)
Theorem fy_loop_bijection {A} (a : list A) :
  NoDup a ->
  (forall b, b ≡ₚ a ->
     exists c, valid_choice (length a - 1) c /\ fy_loop c (length a - 1) a = b) /\
  (forall c1 c2, valid_choice (length a - 1) c1 -> valid_choice (length a - 1) c2 ->
     fy_loop c1 (length a - 1) a = fy_loop c2 (length a - 1) a ->
     forall k, 1 <= k <= length a - 1 -> c1 k = c2 k).
Proof.
  intros Hnd. destruct a as [|x a'].
  - split.
    + intros b Hb%Permutation_nil_r. exists (fun _ => 0).
      split; [intros i Hi; simpl in *; lia | done].
    + intros c1 c2 _ _ _ k Hk. simpl in Hk. lia.
  - simpl length. rewrite Nat.sub_1_r. simpl Nat.pred. split.
    + intros b Hb. by apply fy_loop_surjective_aux.
    + intros c1 c2 Hc1 Hc2 Heq k Hk.
      by apply (fy_loop_injective_aux (length a') (x :: a') c1 c2).
Qed.

Lemma fy_loop_bijection_witness :
  NoDup [1; 2; 3] /\
  exists c, valid_choice 2 c /\ fy_loop c 2 [1; 2; 3] = [3; 1; 2].
Proof.
  assert (Hnd : NoDup [1; 2; 3])
    by (apply (bool_decide_eq_true (NoDup [1; 2; 3])); vm_compute; reflexivity).
  split; [exact Hnd|].
  apply (proj1 (fy_loop_bijection [1; 2; 3] Hnd)).
  exact (Permutation_cons_append [1; 2] 3).
Defined.

(** [Math.floor(Math.random() * (i + 1))] is [j] exactly when the
    random value lies in [[j/(i+1), (j+1)/(i+1))]: every index of
    [[0, i]] is drawn on an interval of width [1/(i+1)]. *)
Theorem draw_index_interval r i j :
  unit_interval r ->
  draw_index r i = j <->
  (inject_Z (Z.of_nat j) <= r * inject_Z (Z.of_nat (S i)) /\
   r * inject_Z (Z.of_nat (S i)) < inject_Z (Z.of_nat (S j)))%Q.
Proof.
  intros [H0 H1]. unfold draw_index.
  assert (Hx : (0 <= r * inject_Z (Z.of_nat (S i)))%Q).
  { apply Qmult_le_0_compat; [done|]. unfold Qle. simpl. lia. }
  pose proof (Qfloor_nonneg _ Hx) as Hnn.
  transitivity (Qfloor (r * inject_Z (Z.of_nat (S i))) = Z.of_nat j); [lia|].
  by rewrite Qfloor_spec, (Nat2Z.inj_succ j), <- Z.add_1_r.
Qed.

Lemma S_pos_Q i : (0 < inject_Z (Z.of_nat (S i)))%Q.
Proof. unfold Qlt. simpl. lia. Qed.

(** The same interval, scaled: [j/(i+1) <= r < (j+1)/(i+1)]. *)
Lemma draw_index_box r i j :
  unit_interval r ->
  draw_index r i = j <->
  (inject_Z (Z.of_nat j) * box_width i <= r < inject_Z (Z.of_nat j) * box_width i + box_width i)%Q.
Proof.
  intros Hr. rewrite (draw_index_interval r i j Hr).
  pose proof (S_pos_Q i) as Hd. unfold box_width.
  set (d := inject_Z (Z.of_nat (S i))) in *.
  assert (Hd0 : ~ (d == 0)%Q) by (intros E; rewrite E in Hd; discriminate).
  rewrite <-(Qmult_le_r _ r d Hd), <-(Qmult_lt_r r _ d Hd).
  setoid_replace (inject_Z (Z.of_nat j) * (1 / d) * d)%Q with (inject_Z (Z.of_nat j))
    using relation Qeq by (field; exact Hd0).
  setoid_replace ((inject_Z (Z.of_nat j) * (1 / d) + 1 / d) * d)%Q
    with (inject_Z (Z.of_nat (S j))) using relation Qeq by (rewrite Nat2Z.inj_succ, <-Z.add_1_r, inject_Z_plus; field; exact Hd0).
  done.
Qed.

Lemma fold_Qmult_snoc l x :
  (fold_right Qmult 1 (l ++ [x]) == fold_right Qmult 1 l * x)%Q.
Proof.
  induction l as [|y l IH]; simpl; [ring|]. setoid_rewrite IH. ring.
Qed.

(** The intervals of iterations [1 .. m] have the volume [1/(m+1)!]. *)
Lemma box_volume m :
  (fold_right Qmult 1 (map box_width (seq 1 m)) == 1 / inject_Z (Z.of_nat (fact (S m))))%Q.
Proof.
  induction m as [|m IH]; [reflexivity|].
  rewrite seq_S, map_app. setoid_rewrite fold_Qmult_snoc. setoid_rewrite IH.
  simpl map. unfold box_width.
  assert (Hf : (0 < inject_Z (Z.of_nat (fact (S m))))%Q)
    by (change 0%Q with (inject_Z 0); rewrite <-Zlt_Qlt; pose proof (lt_O_fact (S m)); lia).
  replace (fact (S (S m))) with (S (S m) * fact (S m)) by reflexivity.
  rewrite Nat2Z.inj_mul, inject_Z_mult. replace (1 + m) with (S m) by lia.
  pose proof (S_pos_Q (S m)) as Hs.
  field. split; [intros E; rewrite E in Hf | intros E; rewrite E in Hs]; discriminate.
Qed.

(** C33: uniformity of [shuffleArray].  On a list of [n] distinct
    elements, for every permutation [b] there are intervals, one per
    iteration [i] of the loop, of width [1/(i+1)] inside [[0, 1)], such
    that [shuffleArray] returns [b] exactly when each [Math.random()]
    value falls in its interval; the intervals have the volume [1/n!],
    so with independent uniform draws every permutation has probability
    [1/n!]. *)
Theorem shuffleArray_uniform {A} (a b : list A) :
  NoDup a -> b ≡ₚ a ->
  exists lo : nat -> Q,
    (forall i, 1 <= i <= length a - 1 -> (0 <= lo i /\ lo i + box_width i <= 1)%Q) /\
    (forall rnd, (forall i, unit_interval (rnd i)) ->
       shuffleArray rnd a = b <->
       forall i, 1 <= i <= length a - 1 -> (lo i <= rnd i < lo i + box_width i)%Q) /\
    (fold_right Qmult 1 (map box_width (seq 1 (length a - 1))) ==
       1 / inject_Z (Z.of_nat (fact (length a))))%Q.
Proof.
  intros Hnd Hb. destruct a as [|x a'].
  - apply Permutation_nil_r in Hb as ->. exists (fun _ => 0%Q).
    split_and!; [intros i Hi; simpl in Hi; lia | | reflexivity].
    intros rnd _. split; [intros _ i Hi; simpl in Hi; lia | done].
  - set (m := length a'). assert (Hm : length (x :: a') - 1 = m) by (simpl; lia).
    rewrite Hm. destruct (fy_loop_surjective_aux m (x :: a') b) as (c & Hc & Hrun); [done|done|done|].
    exists (fun i => inject_Z (Z.of_nat (c i)) * box_width i)%Q. split_and!.
    + intros i Hi. specialize (Hc i ltac:(lia)). unfold box_width.
      pose proof (S_pos_Q i) as Hd. set (d := inject_Z (Z.of_nat (S i))) in *.
      split.
      * apply Qmult_le_0_compat; [unfold Qle; simpl; lia|].
        apply Qle_shift_div_l; [done|]. rewrite Qmult_0_l. discriminate.
      * setoid_replace (inject_Z (Z.of_nat (c i)) * (1 / d) + 1 / d)%Q
          with (inject_Z (Z.of_nat (S (c i))) / d)%Q using relation Qeq
          by (rewrite Nat2Z.inj_succ, <-Z.add_1_r, inject_Z_plus; field;
              intros E; rewrite E in Hd; discriminate).
        apply Qle_shift_div_r; [done|]. rewrite Qmult_1_l.
        unfold Qle; simpl; lia.
    + intros rnd Hr. unfold shuffleArray. rewrite Hm. split.
      * intros Heq i Hi. apply draw_index_box; [apply Hr|].
        apply (fy_loop_injective_aux m (x :: a') (fun i => draw_index (rnd i) i) c);
          [done|done| |done| |lia].
        -- intros k _. by apply draw_index_le.
        -- by rewrite Heq.
      * intros Hbox. rewrite <-Hrun. apply fy_loop_ext.
        intros k Hk. apply draw_index_box; [apply Hr | by apply Hbox].
    + simpl length. replace (S m - 1) with m by lia. apply box_volume.
Qed.

(** The permutation [[3; 1; 2]] of [[1; 2; 3]] has its box of
    [Math.random()] values. *)
Lemma shuffleArray_uniform_witness :
  NoDup [1; 2; 3] /\ [3; 1; 2] ≡ₚ [1; 2; 3] /\
  exists lo : nat -> Q,
    (forall i, 1 <= i <= 2 -> (0 <= lo i /\ lo i + box_width i <= 1)%Q) /\
    (forall rnd, (forall i, unit_interval (rnd i)) ->
       shuffleArray rnd [1; 2; 3] = [3; 1; 2] <->
       forall i, 1 <= i <= 2 -> (lo i <= rnd i < lo i + box_width i)%Q) /\
    (fold_right Qmult 1 (map box_width (seq 1 2)) == 1 / inject_Z (Z.of_nat (fact 3)))%Q.
Proof.
  assert (Hnd : NoDup [1; 2; 3])
    by (apply (bool_decide_eq_true (NoDup [1; 2; 3])); vm_compute; reflexivity).
  assert (Hp : [3; 1; 2] ≡ₚ [1; 2; 3]) by exact (Permutation_cons_append [1; 2] 3).
  split; [exact Hnd|]. split; [exact Hp|].
  exact (shuffleArray_uniform [1; 2; 3] [3; 1; 2] Hnd Hp).
Defined.

End Shuffle.
