(* ===== verification/Escape.v ===== *)
(** * Escape: [escapeHtml]

    Models [escapeHtml] of [src/web/js/script.js] (lines 452-459): five
    calls of [String.prototype.replace] with a global one-character regular
    expression, in the order ampersand, less-than, greater-than, double
    quote, single quote.  [replace_char] is one
    such call.  The theorems relate the chain to the single-pass escape
    [escape_ref] (one entity per special character), show that the result
    holds none of the four raw markup characters, and that every [&] of the
    result starts an entity.

    Strings are byte strings.  The five characters are ASCII and the UTF-8
    encoding of any other character contains no ASCII byte, so replacing
    bytes does what the source's replacement of UTF-16 code units does. *)

From S2P Require Import Prelude.
Local Open Scope string_scope.

Module Escape.

Definition amp : ascii := "&".
Definition lt : ascii := "<".
Definition gt : ascii := ">".
Definition quot : ascii := "034".
Definition apos : ascii := "'".

(** [s.replace(/c/g, rep)]. *)
Fixpoint replace_char (c : ascii) (rep : string) (s : string) : string :=
  match s with
  | EmptyString => EmptyString
  | String x s' =>
      if Ascii.eqb x c then rep +:+ replace_char c rep s'
      else String x (replace_char c rep s')
  end.

(** [escapeHtml(unsafe)], lines 452-459. *)
Definition escapeHtml (unsafe : string) : string :=
  replace_char apos "&#039;"
    (replace_char quot "&quot;"
      (replace_char gt "&gt;"
        (replace_char lt "&lt;"
          (replace_char amp "&amp;" unsafe)))).

(** The entity a single character becomes. *)
Definition escape_char (c : ascii) : string :=
  if Ascii.eqb c amp then "&amp;"
  else if Ascii.eqb c lt then "&lt;"
  else if Ascii.eqb c gt then "&gt;"
  else if Ascii.eqb c quot then "&quot;"
  else if Ascii.eqb c apos then "&#039;"
  else String c EmptyString.

(** Reference: escape each character on its own, in one pass. *)
Fixpoint escape_ref (s : string) : string :=
  match s with
  | EmptyString => EmptyString
  | String c s' => escape_char c +:+ escape_ref s'
  end.

(** The characters an escaped text must not contain raw. *)
Definition markup_chars : list ascii := [lt; gt; quot; apos].

(** The entities [escapeHtml] produces. *)
Definition entities : list string := ["&amp;"; "&lt;"; "&gt;"; "&quot;"; "&#039;"].

(** Whether [escapeHtml] rewrites a character. *)
Definition special (c : ascii) : bool :=
  Ascii.eqb c amp || Ascii.eqb c lt || Ascii.eqb c gt || Ascii.eqb c quot
  || Ascii.eqb c apos.

(** Well-formed escaped text: plain characters and whole entities. *)
Inductive escaped : string -> Prop :=
  | esc_nil : escaped EmptyString
  | esc_char c s : special c = false -> escaped s -> escaped (String c s)
  | esc_entity e s : e ∈ entities -> escaped s -> escaped (e +:+ s).

(** What the browser displays for markup text: the HTML parser replaces
    each character reference by its character.  Only the five references
    [escapeHtml] produces are decoded; any other [&] stays as it is. *)
Fixpoint html_decode (s : string) : string :=
  match s with
  | String "&" (String "a" (String "m" (String "p" (String ";" rest)))) =>
      String "&" (html_decode rest)
  | String "&" (String "l" (String "t" (String ";" rest))) => String "<" (html_decode rest)
  | String "&" (String "g" (String "t" (String ";" rest))) => String ">" (html_decode rest)
  | String "&" (String "q" (String "u" (String "o" (String "t" (String ";" rest))))) =>
      String quot (html_decode rest)
  | String "&" (String "#" (String "0" (String "3" (String "9" (String ";" rest))))) =>
      String "'" (html_decode rest)
  | String c rest => String c (html_decode rest)
  | EmptyString => EmptyString
  end.

(** ** Lemmas *)

Lemma replace_char_app c rep s t :
  replace_char c rep (s +:+ t) = replace_char c rep s +:+ replace_char c rep t.
Proof.
  induction s as [|x s IH]; simpl; [done|].
  destruct (Ascii.eqb x c); simpl; rewrite IH; [|done].
  by rewrite string_app_assoc.
Qed.

Lemma escapeHtml_app s t : escapeHtml (s +:+ t) = escapeHtml s +:+ escapeHtml t.
Proof. unfold escapeHtml. by rewrite !replace_char_app. Qed.

Lemma escapeHtml_char c : escapeHtml (String c EmptyString) = escape_char c.
Proof.
  unfold escapeHtml, escape_char. simpl.
  destruct (Ascii.eqb_spec c amp) as [->|]; [reflexivity|].
  destruct (Ascii.eqb_spec c lt) as [->|]; [reflexivity|].
  destruct (Ascii.eqb_spec c gt) as [->|]; [reflexivity|].
  destruct (Ascii.eqb_spec c quot) as [->|]; [reflexivity|].
  destruct (Ascii.eqb_spec c apos) as [->|]; [reflexivity|].
  repeat (simpl; match goal with
                 | |- context [Ascii.eqb c ?d] =>
                     destruct (Ascii.eqb_spec c d); [congruence|]
                 end).
  reflexivity.
Qed.

Lemma escapeHtml_cons c u : escapeHtml (String c u) = escape_char c +:+ escapeHtml u.
Proof.
  replace (String c u) with (String c EmptyString +:+ u) by reflexivity.
  by rewrite escapeHtml_app, escapeHtml_char.
Qed.

Lemma escape_char_cases c :
  (special c = false /\ escape_char c = String c EmptyString) \/
  escape_char c ∈ entities.
Proof.
  unfold escape_char, special, entities.
  destruct (Ascii.eqb_spec c amp); [right; set_solver|].
  destruct (Ascii.eqb_spec c lt); [right; set_solver|].
  destruct (Ascii.eqb_spec c gt); [right; set_solver|].
  destruct (Ascii.eqb_spec c quot); [right; set_solver|].
  destruct (Ascii.eqb_spec c apos); [right; set_solver|].
  left. split; reflexivity.
Qed.

Lemma markup_chars_special : Forall (fun c => special c = true) markup_chars.
Proof. repeat constructor. Qed.

Lemma entities_no_markup :
  Forall (fun e => Forall (fun c => c ∉ String.list_ascii_of_string e) markup_chars)
    entities.
Proof. apply (bool_decide_eq_true _). vm_compute. reflexivity. Qed.

Lemma escaped_no_markup t :
  escaped t -> forall c, c ∈ markup_chars -> c ∉ String.list_ascii_of_string t.
Proof.
  pose proof markup_chars_special as Hsp. pose proof entities_no_markup as Hent.
  rewrite Forall_forall in Hsp. rewrite Forall_forall in Hent.
  induction 1 as [|c' s Hc' _ IH|e s He _ IH]; intros c Hc.
  - by apply not_elem_of_nil.
  - simpl. apply not_elem_of_cons. split; [|by apply IH].
    intros ->. specialize (Hsp _ Hc). congruence.
  - rewrite list_ascii_of_string_app, elem_of_app. intros [Hin|Hin]; [|by eapply IH].
    specialize (Hent e He). rewrite Forall_forall in Hent. by eapply Hent.
Qed.

Lemma html_decode_plain c rest :
  special c = false -> html_decode (String c rest) = String c (html_decode rest).
Proof. intros H. destruct c as [[] [] [] [] [] [] [] []]; try discriminate H; reflexivity. Qed.

Lemma html_decode_escape_char c t :
  html_decode (escape_char c +:+ t) = String c (html_decode t).
Proof.
  unfold escape_char.
  destruct (Ascii.eqb_spec c amp) as [->|]; [reflexivity|].
  destruct (Ascii.eqb_spec c lt) as [->|]; [reflexivity|].
  destruct (Ascii.eqb_spec c gt) as [->|]; [reflexivity|].
  destruct (Ascii.eqb_spec c quot) as [->|]; [reflexivity|].
  destruct (Ascii.eqb_spec c apos) as [->|]; [reflexivity|].
  rewrite string_app_cons, string_app_nil_l. apply html_decode_plain.
  unfold special. repeat (apply orb_false_intro; [|apply Ascii.eqb_neq; done]).
  by apply Ascii.eqb_neq.
Qed.

(** The output of [escapeHtml] is well-formed escaped text. *)
Lemma escapeHtml_escaped s : escaped (escapeHtml s).
Proof.
  induction s as [|c s IH]; [constructor|]. rewrite escapeHtml_cons.
  destruct (escape_char_cases c) as [[Hsp ->]|He].
  - rewrite string_app_cons, string_app_nil_l. by constructor.
  - by constructor.
Qed.

(** C18: the chain of five global replaces equals escaping
    every character on its own, in one pass. *)
Theorem escapeHtml_equiv_ref s : escapeHtml s = escape_ref s.
Proof.
  induction s as [|c s IH]; [done|]. by rewrite escapeHtml_cons, IH.
Qed.

(** C19: the output of [escapeHtml] is well-formed escaped text
    (plain characters other than the five special ones, and whole
    entities), so it holds no raw [<], [>], double or single quote, and
    every ampersand of it starts an entity. *)
Theorem escapeHtml_safe s :
  escaped (escapeHtml s) /\
  forall c, c ∈ markup_chars -> c ∉ String.list_ascii_of_string (escapeHtml s).
Proof. split; [|apply escaped_no_markup]; apply escapeHtml_escaped. Qed.

(** C32: escaping round-trips: the text the browser displays for
    [escapeHtml s] is [s] itself, so [escapeHtml] is injective and the
    rendered lists show exactly the texts the user entered. *)
Theorem escapeHtml_roundtrip s :
  html_decode (escapeHtml s) = s /\ forall t, escapeHtml s = escapeHtml t -> s = t.
Proof.
  assert (Hrt : forall u, html_decode (escapeHtml u) = u).
  { induction u as [|c u IH]; [done|].
    by rewrite escapeHtml_cons, html_decode_escape_char, IH. }
  split; [apply Hrt|]. intros t Ht. by rewrite <- (Hrt s), Ht, Hrt.
Qed.

End Escape.
