(* ===== verification/Api.v ===== *)
(** * Api: the data model and the API client

    Models the entities the client receives from the backend (decks and
    cards, as parsed from JSON) and the API functions of
    [src/web/js/script.js]: [apiCreateDeck] (lines 339-352),
    [apiCreateCard] (354-371), [apiUpdateCard] (373-386), [apiDeleteDeck]
    (388-397), [apiDeleteCard] (399-408), and the inline fetches of
    [loadDecks] (line 80) and [loadCards] (line 197).

    Each API function is split in two, as its [await] splits it: the
    request it sends ([*_request]) and what it makes of the response
    ([api_result]: the parsed body, or a thrown [Error] carrying the body
    text or the fallback message).  The [Content-Type] header is the same
    constant on every POST and is not modelled.  A response is one value:
    the client reads no state between [await fetch] and
    [await response.json()], so merging the two awaits changes nothing. *)

From S2P Require Import Prelude Schedule.
From stdpp Require Import pretty.
Local Open Scope string_scope.

Module Api.
Import Schedule.

(** An identifier as JavaScript holds it: the backend may send a number
    or a string.  [===] on identifiers is equality of this type (a number
    is never strictly equal to a string). *)
Inductive js_id :=
  | IdNum (n : Z)
  | IdStr (s : string).

#[export] Instance js_id_eq_dec : EqDecision js_id.
Proof. solve_decision. Defined.

(** [String(id)], what a template literal substitutes. *)
Definition id_text (i : js_id) : string :=
  match i with
  | IdNum n => pretty n
  | IdStr s => s
  end.

(** Truthiness of an identifier ([if (!currentDeckId)]). *)
Definition id_truthy (i : js_id) : bool :=
  match i with
  | IdNum n => negb (Z.eqb n 0)
  | IdStr s => js_truthy s
  end.

(** A deck as [response.json()] returns it.  [description] is [None] when
    the backend sends [null] or omits it. *)
Record deck := mkDeck {
  deck_id : js_id;
  name : string;
  description : option string;
  createdAt : Z
}.

(** A card as [response.json()] returns it; the counters are [None] when
    the backend sends [null] or omits them. *)
Record card := mkCard {
  card_id : js_id;
  deckId : js_id;
  question : string;
  answer : string;
  repetitionCount : option Z;
  interval : option Z;
  nextReviewDate : review_date
}.

#[local] Set Warnings "-register-all".

(** JSON bodies the client sends ([JSON.stringify]). *)
Inductive json :=
  | JNum (n : Z)
  | JStr (s : string)
  | JObj (fields : list (string * json)).

Definition json_of_id (i : js_id) : json :=
  match i with
  | IdNum n => JNum n
  | IdStr s => JStr s
  end.

Inductive http_method := GET | POST | DELETE.

Record request := mkRequest {
  method : http_method;
  url : string;
  body : option json
}.

(** [API_CONFIG], lines 2-8. *)
Definition baseUrl : string := "http://localhost:8000".
Definition decks_endpoint : string := "/decks".
Definition cards_endpoint : string := "/cards".

(** What [fetch] delivers for an endpoint whose body parses to [A]: a
    rejected fetch (network failure, a [TypeError]), a non-2xx response
    with its body text, or a 2xx response with its parsed body. *)
Inductive response (A : Type) :=
  | NetworkError (message : string)
  | HttpError (text : string)
  | HttpOk (payload : A).
Arguments NetworkError {A} message.
Arguments HttpError {A} text.
Arguments HttpOk {A} payload.

(** [fetch(API_CONFIG.baseUrl + API_CONFIG.endpoints.decks)], line 80. *)
Definition loadDecks_request : request :=
  mkRequest GET (baseUrl +:+ decks_endpoint) None.

(** The fetch of [loadCards(deckId)], line 197. *)
Definition loadCards_request (deckId : js_id) : request :=
  mkRequest GET (baseUrl +:+ decks_endpoint +:+ "/" +:+ id_text deckId +:+ "/cards")
    None.

(** [apiCreateDeck(name, description)], lines 340-344. *)
Definition apiCreateDeck_request (name description : string) : request :=
  mkRequest POST (baseUrl +:+ decks_endpoint)
    (Some (JObj [("name", JStr name); ("description", JStr description)])).

(** [apiCreateCard(deckId, question, answer)], lines 355-363. *)
Definition apiCreateCard_request (deckId : js_id) (question answer : string) : request :=
  mkRequest POST (baseUrl +:+ cards_endpoint)
    (Some (JObj [("deckId", json_of_id deckId); ("question", JStr question);
                 ("answer", JStr answer)])).

(** [apiUpdateCard(cardId, quality)], lines 374-378. *)
Definition apiUpdateCard_request (cardId : js_id) (quality : Z) : request :=
  mkRequest POST (baseUrl +:+ cards_endpoint +:+ "/" +:+ id_text cardId +:+ "/review")
    (Some (JObj [("quality", JNum quality)])).

(** [apiDeleteDeck(_deckId)], lines 389-391.  The URL is a single-quoted
    string, not a template literal: its text is sent as written, and the
    parameter is not used. *)
Definition apiDeleteDeck_request (_deckId : js_id) : request :=
  mkRequest DELETE "${API_CONFIG.baseUrl}${API_CONFIG.endpoints.decks}/${deckId}" None.

(** [apiDeleteCard(cardId)], lines 400-402. *)
Definition apiDeleteCard_request (cardId : js_id) : request :=
  mkRequest DELETE (baseUrl +:+ cards_endpoint +:+ "/" +:+ id_text cardId) None.

(** The message of a thrown error ([error.message]). *)
Definition err_message (e : js_error) : string :=
  match e with
  | Error m => m
  | TypeError m => m
  | ReferenceError m => m
  end.

(** The common tail of every [api*] function: a rejected fetch propagates,
    [if (!response.ok) throw new Error(error || 'Ошибка сервера')], else
    the parsed body. *)
Definition api_result {A} (r : response A) : completion A :=
  match r with
  | NetworkError m => Throw (TypeError m)
  | HttpError text => Throw (Error (text ?|| "Ошибка сервера"))
  | HttpOk v => Normal v
  end.

(** [loadDecks] and [loadCards] throw their own message on a non-2xx
    response and ignore the body text. *)
Definition load_result {A} (msg : string) (r : response A) : completion A :=
  match r with
  | NetworkError m => Throw (TypeError m)
  | HttpError _ => Throw (Error msg)
  | HttpOk v => Normal v
  end.

(** ** Properties *)

(** [apiDeleteDeck] sends the same request whatever deck it is asked
    to delete, and its URL is never the deck's [/decks/{id}] resource. *)
Lemma apiDeleteDeck_request_ignores_id (i j : js_id) :
  apiDeleteDeck_request i = apiDeleteDeck_request j /\
  url (apiDeleteDeck_request i) <> baseUrl +:+ decks_endpoint +:+ "/" +:+ id_text i.
Proof.
  split; [reflexivity|]. simpl. unfold baseUrl.
  rewrite !string_app_cons. discriminate.
Qed.

(** An API call completes normally exactly on a 2xx
    response, with its body; a non-2xx response always throws an [Error]
    whose message is the body text when that is non-empty and is never
    empty. *)
Theorem api_result_spec {A} (r : response A) :
  (forall v, api_result r = Normal v <-> r = HttpOk v) /\
  (forall text, r = HttpError text ->
     exists m, api_result r = Throw (Error m) /\ m <> "" /\ (text <> "" -> m = text)).
Proof.
  split.
  - intros v. destruct r; simpl; split; congruence.
  - intros text ->. eexists. split; [reflexivity|]. split.
    + apply js_or_str_nonempty_result. discriminate.
    + apply js_or_str_nonempty.
Qed.

End Api.
