(* ===== verification/Render.v ===== *)
(** * Render: the deck list and the card list

    Models [updateDecksList] (lines 93-126), [updateCardsList]
    (lines 210-236) and [getDeckCardCount] (lines 472-474) of
    [src/web/js/script.js].  A rendered list is a view model: the
    placeholder the code writes for an empty list, or one row per entity
    with every value the template substitutes (the escaped texts, the
    argument of each [onclick] handler, the statistics); [Markup] writes
    the markup around them.

    [updateDecksList] calls [escapeHtml(deck.description, ...)] on the raw
    description: a [null] description makes [unsafe.replace] throw a
    [TypeError] in the middle of the [forEach], after the rows of the
    earlier decks were appended.  [render_rows] returns those rows and the
    error.  The second argument ['Нет описания'] is ignored by
    [escapeHtml]. *)

From S2P Require Import Prelude Schedule Escape Api.
Local Open Scope string_scope.

Module Render.
Import Schedule Escape Api.

(** One [.deck-item] of [updateDecksList], lines 110-123. *)
Record deck_row := mkDeckRow {
  row_name : string;
  row_select_arg : string;
  row_delete_arg : string;
  row_description : string;
  row_created : string;
  row_count : nat
}.

(** One [.card-item] of [updateCardsList], lines 222-233. *)
Record card_row := mkCardRow {
  row_question : string;
  row_answer : string;
  row_repetitions : Z;
  row_interval : Z;
  row_next_review : string;
  row_delete_card_arg : string
}.

(** The content of [#decksList] and [#cardsList]. *)
Inductive list_view (R : Type) :=
  | EmptyPlaceholder
  | Rows (rows : list R).
Arguments EmptyPlaceholder {R}.
Arguments Rows {R} rows.

(** The message of the [TypeError] [null.replace(...)] raises. *)
Definition null_replace_message : string :=
  "Cannot read properties of null (reading 'replace')".

(** [escapeHtml] on a value that may be [null]. *)
Definition escapeHtml_nullable (v : option string) : completion string :=
  match v with
  | Some s => Normal (escapeHtml s)
  | None => Throw (TypeError null_replace_message)
  end.

(** [getDeckCardCount(deckId)]: counts the loaded [cards] (those of the
    selected deck only) whose [deckId] is strictly equal to the argument. *)
Definition getDeckCardCount (cards : list card) (id : js_id) : nat :=
  length (filter (fun c => deckId c = id) cards).

(** [value || 0] on a counter that may be [null] or missing. *)
Definition or_zero (n : option Z) : Z :=
  match n with
  | Some k => k
  | None => 0
  end.

(** The row of one deck; [localeDate] is
    [new Date(t).toLocaleDateString()] of the browser. *)
Definition render_deck (localeDate : Z -> string) (cards : list card) (d : deck)
    : completion deck_row :=
  match escapeHtml_nullable (description d) with
  | Throw e => Throw e
  | Normal desc =>
      Normal (mkDeckRow (escapeHtml (name d)) (id_text (deck_id d)) (id_text (deck_id d))
                desc (localeDate (createdAt d)) (getDeckCardCount cards (deck_id d)))
  end.

(** The row of one card. *)
Definition render_card (now : Z) (c : card) : card_row :=
  mkCardRow (escapeHtml (question c)) (escapeHtml (answer c))
    (or_zero (repetitionCount c)) (or_zero (interval c))
    (formatNextReviewDate now (nextReviewDate c)) (id_text (card_id c)).

(** [forEach] appending one row per element; a throw stops the loop and
    keeps the rows already appended. *)
Fixpoint render_rows {A R} (f : A -> completion R) (l : list A)
    : list R * option js_error :=
  match l with
  | [] => ([], None)
  | x :: l' =>
      match f x with
      | Throw e => ([], Some e)
      | Normal r => let '(rs, err) := render_rows f l' in (r :: rs, err)
      end
  end.

(** [updateDecksList()]: the new content of [#decksList], and the error it
    throws, if any. *)
Definition updateDecksList (localeDate : Z -> string) (decks : list deck)
    (cards : list card) : list_view deck_row * option js_error :=
  match decks with
  | [] => (EmptyPlaceholder, None)
  | _ =>
      let '(rows, err) := render_rows (render_deck localeDate cards) decks in
      (Rows rows, err)
  end.

(** The rows of a rendered card list. *)
Definition rows_of_cards (v : list_view card_row) : list card_row :=
  match v with
  | Rows rs => rs
  | EmptyPlaceholder => []
  end.

(** [updateCardsList()]: the new content of [#cardsList]. *)
Definition updateCardsList (now : Z) (cards : list card) : list_view card_row :=
  match cards with
  | [] => EmptyPlaceholder
  | _ => Rows (render_card now <$> cards)
  end.

(** ** Lemmas *)

Lemma render_rows_ok {A R} (f : A -> completion R) l :
  Forall (fun x => exists r, f x = Normal r) l -> snd (render_rows f l) = None.
Proof.
  induction 1 as [|x l [r Hr] _ IH]; simpl; [done|].
  rewrite Hr. destruct (render_rows f l). done.
Qed.

Lemma render_rows_stops {A R} (f : A -> completion R) l1 x l2 err :
  Forall (fun y => exists r, f y = Normal r) l1 -> f x = Throw err ->
  snd (render_rows f (l1 ++ x :: l2)) = Some err.
Proof.
  intros Hl1 Hx. induction Hl1 as [|y l [r Hr] _ IH]; simpl; [by rewrite Hx|].
  rewrite Hr. destruct (render_rows f (l ++ x :: l2)). done.
Qed.

Lemma render_rows_throws {A R} (f : A -> completion R) l :
  (exists x err, x ∈ l /\ f x = Throw err) -> exists err, snd (render_rows f l) = Some err.
Proof.
  intros (x & err & Hx & Hf). induction l as [|y l IH]; [set_solver|]. simpl.
  destruct (f y) as [r|e] eqn:Hy; [|by eexists].
  apply elem_of_cons in Hx as [->|Hx]; [congruence|].
  destruct (IH Hx) as [e He]. destruct (render_rows f l). by eexists.
Qed.

(** [updateDecksList] throws when some deck has a [null] description. *)
Lemma updateDecksList_throws lD ds cs :
  (exists d, d ∈ ds /\ description d = None) ->
  exists err, snd (updateDecksList lD ds cs) = Some err.
Proof.
  intros (d & Hd & Hnull). unfold updateDecksList. destruct ds as [|d0 ds']; [set_solver|].
  destruct (render_rows_throws (render_deck lD cs) (d0 :: ds')) as [err Herr].
  { exists d, (TypeError null_replace_message). unfold render_deck. by rewrite Hnull. }
  destruct (render_rows (render_deck lD cs) (d0 :: ds')). by eexists.
Qed.

Lemma render_deck_ok lD cs d :
  is_Some (description d) -> exists r, render_deck lD cs d = Normal r.
Proof. intros [desc Hd]. unfold render_deck. rewrite Hd. by eexists. Qed.

(** [updateDecksList] throws nothing when every deck has a description. *)
Lemma updateDecksList_ok lD ds cs :
  Forall (fun d => is_Some (description d)) ds -> snd (updateDecksList lD ds cs) = None.
Proof.
  intros Hds. unfold updateDecksList. destruct ds as [|d ds']; [done|].
  pose proof (render_rows_ok (render_deck lD cs) (d :: ds')) as H.
  destruct (render_rows (render_deck lD cs) (d :: ds')). apply H.
  eapply Forall_impl; [exact Hds|]. intros x. apply render_deck_ok.
Qed.

Lemma rows_of_updateCardsList now cs :
  rows_of_cards (updateCardsList now cs) = render_card now <$> cs.
Proof. by destruct cs. Qed.

(** ** Properties *)

(** C21: the deck list never shows the placeholder 'Нет
    описания': an empty description renders as the empty text, and a
    [null] description makes the row throw a [TypeError]. *)
Theorem render_deck_description lD cs d :
  (description d = Some "" ->
     exists r, render_deck lD cs d = Normal r /\ row_description r = "") /\
  (description d = None -> render_deck lD cs d = Throw (TypeError null_replace_message)).
Proof.
  unfold render_deck. split; intros Hd; rewrite Hd; [|done].
  by eexists.
Qed.

Lemma render_deck_description_witness :
  description (mkDeck (IdStr "1") "Spanish" (Some "") 0) = Some "" /\
  exists r, render_deck (fun _ => "1/1/1970") [] (mkDeck (IdStr "1") "Spanish" (Some "") 0)
              = Normal r /\ row_description r = "".
Proof.
  split; [reflexivity|].
  apply (proj1 (render_deck_description (fun _ => "1/1/1970") []
                  (mkDeck (IdStr "1") "Spanish" (Some "") 0))).
  reflexivity.
Defined.

(** Every question and answer the card list shows is escaped
    text; so is every deck name of the deck list. *)
Theorem rendered_text_escaped now lD cs ds :
  (forall r, r ∈ rows_of_cards (updateCardsList now cs) ->
     escaped (row_question r) /\ escaped (row_answer r)) /\
  (forall r, r ∈ fst (render_rows (render_deck lD cs) ds) -> escaped (row_name r)).
Proof.
  split.
  - intros r. rewrite rows_of_updateCardsList.
    intros Hr. apply list_elem_of_fmap_1 in Hr as (c' & -> & _). simpl.
    split; apply escapeHtml_escaped.
  - induction ds as [|d ds IH]; simpl; [set_solver|].
    unfold render_deck at 1. destruct (escapeHtml_nullable (description d)); simpl;
      [|set_solver].
    destruct (render_rows (render_deck lD cs) ds) as [rows err] eqn:Hrows. simpl in *.
    intros r [->|Hr]%elem_of_cons; [apply escapeHtml_escaped|by apply IH].
Qed.

End Render.
