(* ===== verification/Markup.v ===== *)
(** * Markup: the HTML the two list renderers write

    [Render] gives each list as a view model; this file writes the
    markup [updateDecksList] and [updateCardsList] put into
    [#decksList] and [#cardsList] of [src/web/js/script.js]: the
    placeholders (lines 98-103 and 215), and per row a [div] with its
    class (lines 108-109 and 220-221) whose [innerHTML] is the template
    literal of lines 110-123 and 222-234, holes filled from the row.  The
    templates are copied character for character; a double quote of the
    source is written [~] and restored by [tpl], so that the string
    literals of this file hold no quote.

    [skeleton] keeps the markup characters of a text ([<], [>] and the
    two quotes).  The theorems say which skeletons the lists can have. *)

From S2P Require Import Prelude Schedule Escape Api Render.
From stdpp Require Import pretty.
Local Open Scope string_scope.
Local Open Scope list_scope.

Module Markup.
Import Schedule Escape Api Render.

(** A template text, with [~] standing for a double quote. *)
Fixpoint tpl (s : string) : string :=
  match s with
  | EmptyString => EmptyString
  | String c s' => String (if Ascii.eqb c "~" then quot else c) (tpl s')
  end.

(** The [innerHTML] of one [.deck-item], lines 110-123. *)
Definition deck_item_html (r : deck_row) : string :=
  tpl "
            <div class=~deck-header~>
                <div class=~deck-name~>" +:+ row_name r +:+ tpl "</div>
                <div class=~deck-actions~>
                    <button class=~action-btn btn-primary~ onclick=~selectDeck('" +:+ row_select_arg r +:+ tpl "')~>Открыть</button>
                    <button class=~action-btn btn-danger~ onclick=~deleteDeck('" +:+ row_delete_arg r +:+ tpl "')~>Удалить</button>
                </div>
            </div>
            <div class=~deck-description~>" +:+ row_description r +:+ tpl "</div>
            <div class=~deck-stats~>
                <span>📅 " +:+ row_created r +:+ tpl "</span>
                <span>🎴 " +:+ pretty (row_count r) +:+ tpl " карточек</span>
            </div>
        ".

(** The [innerHTML] of one [.card-item], lines 222-234. *)
Definition card_item_html (r : card_row) : string :=
  tpl "
            <div class=~card-question~>" +:+ row_question r +:+ tpl "</div>
            <div class=~card-answer~>" +:+ row_answer r +:+ tpl "</div>
            <div class=~card-stats~>
                Повторений: " +:+ pretty (row_repetitions r) +:+ tpl " | 
                Интервал: " +:+ pretty (row_interval r) +:+ tpl "д | 
                След. повтор: " +:+ row_next_review r +:+ tpl "
            </div>
            <div class=~card-actions~>
                <button class=~action-btn btn-danger~ onclick=~deleteCard('" +:+ row_delete_card_arg r +:+ tpl "')~>Удалить</button>
            </div>
        ".

(** The placeholder of an empty deck list, lines 98-103. *)
Definition decks_placeholder_html : string :=
  tpl "
            <div class=~deck-item~>
                <div class=~deck-name~>Нет колод</div>
                <div class=~deck-description~>Создайте первую колоду для начала работы</div>
            </div>
        ".

(** The placeholder of an empty card list, line 215. *)
Definition cards_placeholder_html : string :=
  tpl "<div class=~card-item~>В этой колоде пока нет карточек</div>".

(** [document.createElement('div')] with its [className] and
    [innerHTML], as appended by [appendChild]. *)
Definition div_html (cls inner : string) : string :=
  tpl "<div class=~" +:+ cls +:+ tpl "~>" +:+ inner +:+ "</div>".

Fixpoint concat_html (l : list string) : string :=
  match l with
  | [] => ""
  | s :: l' => s +:+ concat_html l'
  end.

(** The content of [#decksList] after [updateDecksList] (line 95 empties
    it; the rows appended before a throw stay). *)
Definition decksList_html (v : list_view deck_row) : string :=
  match v with
  | EmptyPlaceholder => decks_placeholder_html
  | Rows rs => concat_html (map (fun r => div_html "deck-item" (deck_item_html r)) rs)
  end.

(** The content of [#cardsList] after [updateCardsList]. *)
Definition cardsList_html (v : list_view card_row) : string :=
  match v with
  | EmptyPlaceholder => cards_placeholder_html
  | Rows rs => concat_html (map (fun r => div_html "card-item" (card_item_html r)) rs)
  end.

(** The markup characters of a text, in order. *)
Definition skeleton (s : string) : list ascii :=
  filter (fun c => c ∈ markup_chars) (String.list_ascii_of_string s).

(** The skeleton of one row of each list: that of its template. *)
Definition deck_skeleton : list ascii :=
  skeleton (div_html "deck-item" (deck_item_html (mkDeckRow "" "" "" "" "" 0))).

Definition card_skeleton : list ascii :=
  skeleton (div_html "card-item" (card_item_html (mkCardRow "" "" 0 0 "" ""))).

(** A deck whose server id holds a single quote, and the locale date of
    the examples. *)
Definition quoted_id_deck : deck := mkDeck (IdStr "x');alert(1);('") "Spanish" (Some "") 0.
Definition example_date (_ : Z) : string := "01.01.1970".
Definition example_decks : list deck :=
  [mkDeck (IdStr "1") "Spanish" (Some "<b>verbs</b>") 0; mkDeck (IdNum 2) "O'Neil & co" (Some "") 0].

(** ** Lemmas *)

Lemma skeleton_app a b : skeleton (a +:+ b) = skeleton a ++ skeleton b.
Proof. unfold skeleton. by rewrite list_ascii_of_string_app, filter_app. Qed.

Lemma skeleton_nil_iff s :
  skeleton s = [] <-> forall c, c ∈ markup_chars -> c ∉ String.list_ascii_of_string s.
Proof.
  unfold skeleton. induction (String.list_ascii_of_string s) as [|x l IH]; simpl.
  - split; [intros _ c _; apply not_elem_of_nil | done].
  - rewrite filter_cons. case_decide as Hx; split.
    + done.
    + intros H. exfalso. eapply H; [exact Hx | apply list_elem_of_here].
    + intros Hl c Hc [->|Hin]%elem_of_cons; [done|]. by eapply IH.
    + intros H. apply IH. intros c Hc Hin. eapply H; [exact Hc|]. by apply elem_of_cons; right.
Qed.

Lemma skeleton_escapeHtml s : skeleton (escapeHtml s) = [].
Proof. apply skeleton_nil_iff, escaped_no_markup, escapeHtml_escaped. Qed.

Lemma skeleton_pretty_N_go x s : skeleton (pretty_N_go x s) = skeleton s.
Proof.
  revert s. induction (N.lt_wf_0 x) as [x _ IH]; intros s.
  destruct (decide (x = 0)%N) as [->|Hx]; [by rewrite pretty_N_go_0|].
  rewrite pretty_N_go_step by lia. rewrite IH by (apply N.div_lt; lia).
  unfold skeleton. simpl. rewrite filter_cons, decide_False; [done|].
  unfold pretty_N_char. repeat case_match; apply (proj1 (bool_decide_eq_false _)); reflexivity.
Qed.

Lemma skeleton_pretty_N (n : N) : skeleton (pretty n) = [].
Proof. unfold pretty, pretty_N. case_decide; [done|]. by rewrite skeleton_pretty_N_go. Qed.

Lemma skeleton_pretty_nat (n : nat) : skeleton (pretty n) = [].
Proof. apply skeleton_pretty_N. Qed.

Lemma skeleton_pretty_Z (n : Z) : skeleton (pretty n) = [].
Proof.
  destruct n as [|p|p]; [done | apply (skeleton_pretty_N (Npos p)) |].
  change (skeleton ("-" +:+ pretty (Npos p)) = []).
  by rewrite skeleton_app, skeleton_pretty_N.
Qed.

Lemma skeleton_formatNextReviewDate now d : skeleton (formatNextReviewDate now d) = [].
Proof.
  destruct d as [| |t]; [done|done|]. simpl. unfold label_of_days.
  repeat case_match; try done. by rewrite !skeleton_app, skeleton_pretty_Z.
Qed.

(** The skeleton of the rows of a list is that of the template once per
    row when each row has the template's skeleton. *)
Lemma skeleton_concat_rows {R} (g : R -> string) K rs :
  Forall (fun r => skeleton (g r) = K) rs ->
  skeleton (concat_html (map g rs)) = mjoin (replicate (length rs) K).
Proof.
  induction 1 as [|r rs Hr _ IH]; [done|]. simpl. by rewrite skeleton_app, Hr, IH.
Qed.

Lemma render_rows_Forall {A R} (P : R -> Prop) (f : A -> completion R) l :
  (forall x r, x ∈ l -> f x = Normal r -> P r) -> Forall P (fst (render_rows f l)).
Proof.
  induction l as [|x l IH]; intros H; simpl; [constructor|].
  destruct (f x) as [r|e] eqn:Hx; simpl; [|constructor].
  destruct (render_rows f l) as [rs err] eqn:Hrs. simpl. constructor.
  - eapply H; [apply list_elem_of_here | done].
  - apply IH.
    intros y r' Hy. apply H. by apply elem_of_cons; right.
Qed.

(** The rows whose substituted values carry no markup character have the
    template's skeleton. *)
Lemma deck_item_skeleton r :
  skeleton (row_name r) = [] -> skeleton (row_select_arg r) = [] ->
  skeleton (row_delete_arg r) = [] -> skeleton (row_description r) = [] ->
  skeleton (row_created r) = [] ->
  skeleton (div_html "deck-item" (deck_item_html r)) = deck_skeleton.
Proof.
  intros H1 H2 H3 H4 H5. unfold div_html, deck_item_html.
  rewrite !skeleton_app, H1, H2, H3, H4, H5, skeleton_pretty_nat. vm_compute. reflexivity.
Qed.

Lemma card_item_skeleton r :
  skeleton (row_question r) = [] -> skeleton (row_answer r) = [] ->
  skeleton (row_next_review r) = [] -> skeleton (row_delete_card_arg r) = [] ->
  skeleton (div_html "card-item" (card_item_html r)) = card_skeleton.
Proof.
  intros H1 H2 H3 H4. unfold div_html, card_item_html.
  rewrite !skeleton_app, H1, H2, H3, H4, !skeleton_pretty_Z. vm_compute. reflexivity.
Qed.

(** ** Properties *)

(** C20: the markup of both lists is the templates' markup, whatever
    the decks and cards hold.  Names, descriptions, questions and
    answers are escaped and the statistics are numbers and fixed labels,
    so when the ids the server sends (and the locale date) carry no
    markup character, the markup characters of [#cardsList] and
    [#decksList] are exactly those of the placeholder, or of the row
    template once per row shown. *)
Theorem rendered_markup_is_template :
  (forall now cs,
     Forall (fun c => skeleton (id_text (card_id c)) = []) cs ->
     skeleton (cardsList_html (updateCardsList now cs)) =
     match cs with
     | [] => skeleton cards_placeholder_html
     | _ => mjoin (replicate (length cs) card_skeleton)
     end) /\
  (forall lD ds cs,
     Forall (fun d => skeleton (id_text (deck_id d)) = [] /\ skeleton (lD (createdAt d)) = []) ds ->
     skeleton (decksList_html (fst (updateDecksList lD ds cs))) =
     match fst (updateDecksList lD ds cs) with
     | EmptyPlaceholder => skeleton decks_placeholder_html
     | Rows rs => mjoin (replicate (length rs) deck_skeleton)
     end).
Proof.
  split.
  - intros now cs Hids. destruct cs as [|c cs']; [done|]. unfold updateCardsList.
    cbn [cardsList_html]. rewrite <-(length_fmap (render_card now)).
    apply skeleton_concat_rows. apply Forall_fmap. eapply Forall_impl; [exact Hids|].
    intros c' Hc'. apply card_item_skeleton; simpl;
      auto using skeleton_escapeHtml, skeleton_formatNextReviewDate.
  - intros lD ds cs Hds. unfold updateDecksList. destruct ds as [|d ds']; [done|].
    destruct (render_rows (render_deck lD cs) (d :: ds')) as [rows err] eqn:Hrows. simpl.
    apply skeleton_concat_rows.
    change rows with (fst (rows, err)). rewrite <-Hrows. apply render_rows_Forall.
    intros x r Hx Hr. eapply Forall_forall in Hds as [Hid Hdate]; [|exact Hx].
    unfold render_deck in Hr. destruct (escapeHtml_nullable (description x)) as [desc|] eqn:Hd;
      [|done].
    simplify_eq. apply deck_item_skeleton; simpl; auto using skeleton_escapeHtml.
    destruct (description x); simplify_eq/=. apply skeleton_escapeHtml.
Qed.

(** A list of two decks with plain ids has the markup of two rows. *)
Lemma rendered_markup_is_template_witness :
  skeleton (decksList_html (fst (updateDecksList example_date example_decks []))) =
  mjoin (replicate 2 deck_skeleton).
Proof.
  rewrite (proj2 rendered_markup_is_template); [reflexivity|].
  repeat constructor.
Defined.

(** The ids go into the [onclick] handlers unescaped: a deck whose id
    holds a quote ends the handler's string and adds markup to the row. *)
Lemma quoted_id_adds_markup :
  skeleton (decksList_html (fst (updateDecksList example_date [quoted_id_deck] []))) <>
  mjoin (replicate 1 deck_skeleton).
Proof. vm_compute. discriminate. Qed.

End Markup.
