(* ===== verification/App.v ===== *)
(** * App: the application state, the handlers and the event loop

    Models the stateful part of [src/web/js/script.js]: the module-level
    variables of lines 11-16, the DOM elements the handlers read and
    write, every handler (deck and card handlers, lines 53-250; the review
    session, lines 255-335; [showNotification], lines 413-449) and the
    boot sequence (lines 19-23).

    - State: [app] holds the six globals, the document ([doc], the
      elements [getElementById] returns, each with its [hidden] class, its
      [textContent] and its form [value]), the rendered lists, the
      notifications shown, and the errors no handler catches.
    - Handlers: an [async] handler is split at its [await]: the
      synchronous part returns the new state and the requests it leaves
      pending; each pending request carries a [cont] naming the code that
      runs when its response arrives, and [resume] runs that code.  A
      continuation may itself start requests ([exitReview] calls
      [loadCards] without awaiting it).
    - Event loop: [step] either runs the handler of a user event whose
      control is visible, or delivers any response to any pending request,
      in any order.  Handlers run to completion, so every interleaving the
      browser allows is a sequence of [step]s.

    The browser supplies, per step, an [env]: the clock, the values of
    [Math.random()] and the locale date format. *)

From S2P Require Import Prelude Schedule Shuffle Escape Api Render.
From Stdlib Require Import QArith.
From stdpp Require Import pretty.
Local Open Scope string_scope.
Local Open Scope nat_scope.

Module App.
Import Schedule Shuffle Escape Api Render.

(** ** State *)

(** A DOM element as the handlers use it: its [hidden] class, its
    [textContent] and the [value] of a form field. *)
Record element := mkElement {
  hidden : bool;
  textContent : string;
  value : string
}.

(** A toast of [showNotification]. *)
Record notification := mkNotification {
  n_message : string;
  n_className : string;
  n_background : string
}.

Record app := mkApp {
  currentDeckId : option js_id;
  decks : list deck;
  cards : list card;
  reviewCards : list card;
  currentReviewIndex : nat;
  isCardFlipped : bool;
  doc : string -> element;
  decksList : list_view deck_row;
  cardsList : list_view card_row;
  toasts : list notification;
  uncaught : list js_error
}.

(** What the browser supplies to a handler. *)
Record env := mkEnv {
  now : Z;
  rnd : nat -> Q;
  localeDate : Z -> string
}.

(** Functional updates of the state, one per field. *)
Definition set_currentDeckId v s :=
  mkApp v (decks s) (cards s) (reviewCards s) (currentReviewIndex s) (isCardFlipped s)
    (doc s) (decksList s) (cardsList s) (toasts s) (uncaught s).
Definition set_decks v s :=
  mkApp (currentDeckId s) v (cards s) (reviewCards s) (currentReviewIndex s)
    (isCardFlipped s) (doc s) (decksList s) (cardsList s) (toasts s) (uncaught s).
Definition set_cards v s :=
  mkApp (currentDeckId s) (decks s) v (reviewCards s) (currentReviewIndex s)
    (isCardFlipped s) (doc s) (decksList s) (cardsList s) (toasts s) (uncaught s).
Definition set_reviewCards v s :=
  mkApp (currentDeckId s) (decks s) (cards s) v (currentReviewIndex s) (isCardFlipped s)
    (doc s) (decksList s) (cardsList s) (toasts s) (uncaught s).
Definition set_currentReviewIndex v s :=
  mkApp (currentDeckId s) (decks s) (cards s) (reviewCards s) v (isCardFlipped s)
    (doc s) (decksList s) (cardsList s) (toasts s) (uncaught s).
Definition set_isCardFlipped v s :=
  mkApp (currentDeckId s) (decks s) (cards s) (reviewCards s) (currentReviewIndex s) v
    (doc s) (decksList s) (cardsList s) (toasts s) (uncaught s).
Definition set_doc v s :=
  mkApp (currentDeckId s) (decks s) (cards s) (reviewCards s) (currentReviewIndex s)
    (isCardFlipped s) v (decksList s) (cardsList s) (toasts s) (uncaught s).
Definition set_decksList v s :=
  mkApp (currentDeckId s) (decks s) (cards s) (reviewCards s) (currentReviewIndex s)
    (isCardFlipped s) (doc s) v (cardsList s) (toasts s) (uncaught s).
Definition set_cardsList v s :=
  mkApp (currentDeckId s) (decks s) (cards s) (reviewCards s) (currentReviewIndex s)
    (isCardFlipped s) (doc s) (decksList s) v (toasts s) (uncaught s).
Definition set_toasts v s :=
  mkApp (currentDeckId s) (decks s) (cards s) (reviewCards s) (currentReviewIndex s)
    (isCardFlipped s) (doc s) (decksList s) (cardsList s) v (uncaught s).
Definition set_uncaught v s :=
  mkApp (currentDeckId s) (decks s) (cards s) (reviewCards s) (currentReviewIndex s)
    (isCardFlipped s) (doc s) (decksList s) (cardsList s) (toasts s) v.

(** [document.getElementById(id)] followed by an update of the element. *)
Definition update_element (id : string) (f : element -> element) (s : app) : app :=
  set_doc (fun x => if String.eqb x id then f (doc s x) else doc s x) s.

(** [classList.add('hidden')] / [classList.remove('hidden')]. *)
Definition set_hidden (id : string) (b : bool) : app -> app :=
  update_element id (fun e => mkElement b (textContent e) (value e)).

(** [classList.toggle('hidden')]. *)
Definition toggle_hidden (id : string) : app -> app :=
  update_element id (fun e => mkElement (negb (hidden e)) (textContent e) (value e)).

(** [.textContent = t]. *)
Definition set_text (id : string) (t : string) : app -> app :=
  update_element id (fun e => mkElement (hidden e) t (value e)).

(** [.value = v]. *)
Definition set_value (id : string) (v : string) : app -> app :=
  update_element id (fun e => mkElement (hidden e) (textContent e) v).

Definition visible (s : app) (id : string) : bool := negb (hidden (doc s id)).

(** ** Notifications *)

(** The element [showNotification(message, type)] creates, lines
    415-436.  The class name is a single-quoted string, so it is the same
    text for every type; the background colour comes from the type. *)
Definition notification_of (message type_ : string) : notification :=
  let bg :=
    if String.eqb type_ "success" then "#10B981"
    else if String.eqb type_ "error" then "#EF4444"
    else "#6366F1" in
  mkNotification message "notification notification-${type}" bg.

(** [showNotification], lines 413-449: [toasts] is the sequence of
    toasts shown so far.  Their timed removal (lines 441-448) is the
    timer model of [Notify.v], which refines this history. *)
Definition showNotification (message type_ : string) (s : app) : app :=
  set_toasts (toasts s ++ [notification_of message type_]) s.

(** ** Pending requests *)

(** The code that runs when a response arrives: the rest of the handler
    after its [await], with the values it captured. *)
Inductive cont :=
  | KLoadDecks
  | KCreateDeck
  | KDeleteDeck (deckId : js_id)
  | KCreateCard
  | KLoadCards
  | KDeleteCard (cardId : js_id)
  | KRate.

(** The parsed body each continuation expects. *)
Definition cont_payload (k : cont) : Type :=
  match k with
  | KLoadDecks => list deck
  | KCreateDeck => deck
  | KDeleteDeck _ => unit
  | KCreateCard => card
  | KLoadCards => list card
  | KDeleteCard _ => unit
  | KRate => card
  end.

Record pending := mkPending {
  p_request : request;
  p_cont : cont
}.

(** What a handler leaves: the state and the requests it started. *)
Definition outcome : Type := app * list pending.

Definition finished (s : app) : outcome := (s, []).

(** ** Rendering on the state *)

(** [updateDecksList()]: replaces [#decksList]; a throw goes to the
    caller. *)
Definition render_decks (e : env) (s : app) : app * option js_error :=
  let '(v, err) := updateDecksList (localeDate e) (decks s) (cards s) in
  (set_decksList v s, err).

(** [updateCardsList()]. *)
Definition render_cards (e : env) (s : app) : app :=
  set_cardsList (updateCardsList (now e) (cards s)) s.

(** The selected deck when [currentDeckId] is truthy. *)
Definition selected_deck (s : app) : option js_id :=
  match currentDeckId s with
  | Some id => if id_truthy id then Some id else None
  | None => None
  end.

(** ** Deck and card handlers *)

(** [loadDecks()], lines 78-90: the fetch, then its continuation. *)
Definition loadDecks (s : app) : outcome :=
  (s, [mkPending loadDecks_request KLoadDecks]).

Definition loadDecks_k (e : env) (r : response (list deck)) (s : app) : outcome :=
  let fail s' err :=
    finished (showNotification ("Ошибка загрузки колод: " +:+ err_message err) "error" s') in
  match load_result "Ошибка загрузки колод" r with
  | Throw err => fail s err
  | Normal ds =>
      let '(s1, err) := render_decks e (set_decks ds s) in
      match err with
      | Some err => fail s1 err
      | None => finished s1
      end
  end.

(** [loadCards(deckId)], lines 195-207. *)
Definition loadCards (deckId : js_id) (s : app) : outcome :=
  (s, [mkPending (loadCards_request deckId) KLoadCards]).

Definition loadCards_k (e : env) (r : response (list card)) (s : app) : outcome :=
  match load_result "Ошибка загрузки карточек" r with
  | Normal cs => finished (render_cards e (set_cards cs s))
  | Throw err =>
      finished (showNotification ("Ошибка загрузки карточек: " +:+ err_message err) "error" s)
  end.

(** [createDeck()], lines 53-75, up to [await apiCreateDeck]. *)
Definition createDeck (s : app) : outcome :=
  let name := js_trim (value (doc s "deckName")) in
  let description := js_trim (value (doc s "deckDescription")) in
  if negb (js_truthy name) then finished (showNotification "Введите название колоды!" "error" s)
  else (s, [mkPending (apiCreateDeck_request name description) KCreateDeck]).

(** The rest of [createDeck()].  The success message concatenates the
    object literal [{name}], whose string form is [[object Object]]. *)
Definition createDeck_k (e : env) (r : response deck) (s : app) : outcome :=
  let fail s' err :=
    finished (showNotification ("Ошибка создания колоды: " +:+ err_message err) "error" s') in
  match api_result r with
  | Throw err => fail s err
  | Normal deck =>
      let '(s1, err) := render_decks e (set_decks (decks s ++ [deck]) s) in
      match err with
      | Some err => fail s1 err
      | None =>
          finished (showNotification ("Колода" +:+ "[object Object]" +:+ "создана!") "info"
                  (set_value "deckDescription" "" (set_value "deckName" "" s1)))
      end
  end.

(** [selectDeck(deckId)], lines 129-139: [currentDeckId] is set before the
    lookup, found or not. *)
Definition selectDeck (deckId : js_id) (s : app) : outcome :=
  let s1 := set_currentDeckId (Some deckId) s in
  match List.find (fun d => bool_decide (deck_id d = deckId)) (decks s1) with
  | Some d =>
      loadCards deckId
        (set_hidden "deckSelected" false
           (set_hidden "noDeckSelected" true (set_text "selectedDeckName" (name d) s1)))
  | None => finished s1
  end.

(** [deleteDeck(deckId)], lines 142-160, up to [await apiDeleteDeck];
    [confirmed] is the answer to [confirm(...)]. *)
Definition deleteDeck (confirmed : bool) (deckId : js_id) (s : app) : outcome :=
  if confirmed then (s, [mkPending (apiDeleteDeck_request deckId) (KDeleteDeck deckId)])
  else finished s.

Definition deleteDeck_k (e : env) (deckId : js_id) (r : response unit) (s : app)
    : outcome :=
  let fail s' err :=
    finished (showNotification ("Ошибка удаления: " +:+ err_message err) "error" s') in
  match api_result r with
  | Throw err => fail s err
  | Normal _ =>
      let '(s1, err) :=
        render_decks e (set_decks (filter (fun d => deck_id d <> deckId) (decks s)) s) in
      match err with
      | Some err => fail s1 err
      | None =>
          let s2 :=
            if bool_decide (currentDeckId s1 = Some deckId)
            then set_hidden "deckSelected" true
                   (set_hidden "noDeckSelected" false (set_currentDeckId None s1))
            else s1 in
          finished (showNotification "Колода удалена" "success" s2)
      end
  end.

(** [createCard()], lines 165-192, up to [await apiCreateCard]. *)
Definition createCard (s : app) : outcome :=
  let question := js_trim (value (doc s "cardQuestion")) in
  let answer := js_trim (value (doc s "cardAnswer")) in
  if negb (js_truthy question) || negb (js_truthy answer)
  then finished (showNotification "Заполните вопрос и ответ!" "error" s)
  else match selected_deck s with
       | None => finished (showNotification "Сначала выберите колоду!" "error" s)
       | Some id => (s, [mkPending (apiCreateCard_request id question answer) KCreateCard])
       end.

Definition createCard_k (e : env) (r : response card) (s : app) : outcome :=
  match api_result r with
  | Normal c =>
      let s1 := render_cards e (set_cards (cards s ++ [c]) s) in
      finished (showNotification "Карточка добавлена!" "success"
              (set_value "cardAnswer" "" (set_value "cardQuestion" "" s1)))
  | Throw err =>
      finished (showNotification ("Ошибка создания карточки: " +:+ err_message err) "error" s)
  end.

(** [deleteCard(cardId)], lines 239-250. *)
Definition deleteCard (confirmed : bool) (cardId : js_id) (s : app) : outcome :=
  if confirmed then (s, [mkPending (apiDeleteCard_request cardId) (KDeleteCard cardId)])
  else finished s.

Definition deleteCard_k (e : env) (cardId : js_id) (r : response unit) (s : app)
    : outcome :=
  match api_result r with
  | Normal _ =>
      let s1 := render_cards e (set_cards (filter (fun c => card_id c <> cardId) (cards s)) s) in
      finished (showNotification "Карточка удалена" "success" s1)
  | Throw err => finished (showNotification ("Ошибка удаления: " +:+ err_message err) "error" s)
  end.

(** ** Review session *)

(** [exitReview()], lines 321-329: the cards are reloaded, without
    waiting, when a deck is selected. *)
Definition exitReview (s : app) : outcome :=
  let s1 := set_hidden "deckSelected" false (set_hidden "reviewMode" true s) in
  match selected_deck s1 with
  | Some id => loadCards id s1
  | None => finished s1
  end.

(** [endReview()], lines 332-335. *)
Definition endReview (s : app) : outcome :=
  exitReview (showNotification "Повторение завершено! 🎉" "success" s).

(** [showNextReviewCard()], lines 284-299.  [reviewCards[i]] is
    [undefined] exactly when [i >= reviewCards.length]
    ([lookup_ge_None]), which is the test of line 285. *)
Definition showNextReviewCard (s : app) : outcome :=
  match reviewCards s !! currentReviewIndex s with
  | None => endReview s
  | Some c =>
      let s1 := set_hidden "cardAnswerSide" true
                  (set_text "cardAnswerSide" (answer c)
                     (set_text "cardQuestionSide" (question c) s)) in
      let s2 := set_text "reviewProgress"
                  (pretty (currentReviewIndex s + 1) +:+ "/" +:+
                   pretty (length (reviewCards s))) s1 in
      finished (set_isCardFlipped false s2)
  end.

(** The filter of [startReview], lines 262-264. *)
Definition due_cards (now : Z) (cs : list card) : list card :=
  filter (fun c => is_due now (nextReviewDate c) = true) cs.

(** [startReview()], lines 255-281.  [reviewCards] is assigned the due
    cards before the emptiness test. *)
Definition startReview (e : env) (s : app) : outcome :=
  match cards s with
  | [] => finished (showNotification "В колоде нет карточек для повторения!" "error" s)
  | _ =>
      let due := due_cards (now e) (cards s) in
      let s1 := set_reviewCards due s in
      match due with
      | [] =>
          finished (showNotification "Все карточки уже повторены! Возвращайтесь позже."
                      "info" s1)
      | _ =>
          let s2 := set_isCardFlipped false
                      (set_currentReviewIndex 0
                         (set_reviewCards (shuffleArray (rnd e) due) s1)) in
          showNextReviewCard
            (set_hidden "reviewMode" false (set_hidden "deckSelected" true s2))
      end
  end.

(** [flipCard()], lines 302-305. *)
Definition flipCard (s : app) : app :=
  toggle_hidden "cardAnswerSide" (set_isCardFlipped (negb (isCardFlipped s)) s).

(** The [TypeError] of [card.id] when [card] is [undefined]. *)
Definition undefined_id_message : string :=
  "Cannot read properties of undefined (reading 'id')".

(** [rateCard(quality)], lines 308-318, up to [await apiUpdateCard].  With
    no current card, [card.id] throws a [TypeError] inside the [try],
    before any [await]: the [catch] shows it at once. *)
Definition rateCard (quality : Z) (s : app) : outcome :=
  match reviewCards s !! currentReviewIndex s with
  | None =>
      finished (showNotification
                  ("Ошибка обновления карточки: " +:+ undefined_id_message) "error" s)
  | Some c => (s, [mkPending (apiUpdateCard_request (card_id c) quality) KRate])
  end.

Definition rateCard_k (r : response card) (s : app) : outcome :=
  match api_result r with
  | Normal _ => showNextReviewCard (set_currentReviewIndex (S (currentReviewIndex s)) s)
  | Throw err =>
      finished (showNotification ("Ошибка обновления карточки: " +:+ err_message err)
                  "error" s)
  end.

(** ** Dispatch *)

(** The continuation of a pending request, on its response. *)
Definition resume (e : env) (k : cont) : response (cont_payload k) -> app -> outcome :=
  match k return response (cont_payload k) -> app -> outcome with
  | KLoadDecks => loadDecks_k e
  | KCreateDeck => createDeck_k e
  | KDeleteDeck id => deleteDeck_k e id
  | KCreateCard => createCard_k e
  | KLoadCards => loadCards_k e
  | KDeleteCard id => deleteCard_k e id
  | KRate => rateCard_k
  end.

(** User actions: the listeners of [setupEventListeners] (lines 27-47),
    the [onclick] attributes of the rendered rows (whose argument is the
    string the browser reads from the row's quoted id text, [onclick_arg]),
    and typing into a form field. *)
Inductive event :=
  | CreateDeckClick
  | CreateCardClick
  | StartReviewClick
  | ExitReviewClick
  | ReviewCardClick
  | RateClick (quality : Z)
  | SelectDeckClick (arg : string)
  | DeleteDeckClick (arg : string) (confirmed : bool)
  | DeleteCardClick (arg : string) (confirmed : bool)
  | Input (field : string) (v : string).

Definition handle (e : env) (ev : event) (s : app) : outcome :=
  match ev with
  | CreateDeckClick => createDeck s
  | CreateCardClick => createCard s
  | StartReviewClick => startReview e s
  | ExitReviewClick => exitReview s
  | ReviewCardClick => finished (flipCard s)
  | RateClick q => rateCard q s
  | SelectDeckClick a => selectDeck (IdStr a) s
  | DeleteDeckClick a ok => deleteDeck ok (IdStr a) s
  | DeleteCardClick a ok => deleteCard ok (IdStr a) s
  | Input f v => finished (set_value f v s)
  end.

(** ** The event loop *)

Definition rows_of {R} (v : list_view R) : list R :=
  match v with
  | Rows rs => rs
  | EmptyPlaceholder => []
  end.

(** The argument a row button hands its handler.  The attribute is
    [onclick="selectDeck('${deck.id}')"] (lines 114, 115 and 231): the
    HTML parser decodes the character references of the attribute value,
    then the handler reads ['...'] as a JavaScript string literal.  Both
    steps leave printable ASCII text without [&], a backslash and the two
    quotes unchanged ([onclick_plain]).  Other texts reach the handler
    changed ([&amp;] as [&], [\q] as [q], ...), which the model does not
    compute: a click on such a row may hand the handler any string
    ([onclick_arg]).  A quote in the text can also end the literal and run
    other code (the finding of [Markup.quoted_id_adds_markup]); that is
    not modelled. *)
Definition onclick_plain_char (c : ascii) : bool :=
  let n := nat_of_ascii c in
  (32 <=? n) && (n <=? 126) && negb (existsb (Nat.eqb n) [34; 38; 39; 92]).

Definition onclick_plain (t : string) : bool :=
  forallb onclick_plain_char (String.list_ascii_of_string t).

Definition onclick_arg (t a : string) : bool := negb (onclick_plain t) || String.eqb a t.

(** The control of an event is on screen: the review controls in
    [#reviewMode], the card form and the start button in [#deckSelected],
    the row buttons in the rendered lists, each with the argument its
    row's text reaches the handler as.  The deck list and the deck form
    are outside the three panels and always on screen. *)
Definition enabled (s : app) (ev : event) : bool :=
  match ev with
  | CreateDeckClick | Input _ _ => true
  | SelectDeckClick a => existsb (fun r => onclick_arg (row_select_arg r) a) (rows_of (decksList s))
  | DeleteDeckClick a _ => existsb (fun r => onclick_arg (row_delete_arg r) a) (rows_of (decksList s))
  | CreateCardClick | StartReviewClick => visible s "deckSelected"
  | DeleteCardClick a _ =>
      visible s "deckSelected" &&
      existsb (fun r => onclick_arg (row_delete_card_arg r) a) (rows_of (cardsList s))
  | ExitReviewClick | ReviewCardClick | RateClick _ => visible s "reviewMode"
  end.

(** The application and its requests in flight. *)
Record world := mkWorld {
  w_app : app;
  w_pending : list pending
}.

(** The world after an outcome; [rest] are the requests still in flight. *)
Definition after (o : outcome) (rest : list pending) : world :=
  mkWorld (fst o) (rest ++ snd o).

Inductive step : world -> world -> Prop :=
  | step_event e ev w :
      enabled (w_app w) ev = true ->
      step w (after (handle e ev (w_app w)) (w_pending w))
  | step_response e w n p (r : response (cont_payload (p_cont p))) :
      w_pending w !! n = Some p ->
      step w (after (resume e (p_cont p) r (w_app w)) (delete n (w_pending w))).

(** The page as loaded: the globals of lines 11-16, the panels of the
    selected deck and of the review hidden, the form fields empty. *)
Definition initial_doc (id : string) : element :=
  mkElement (bool_decide (id ∈ ["deckSelected"; "reviewMode"; "cardAnswerSide"])) "" "".

Definition initial_app : app :=
  mkApp None [] [] [] 0 false initial_doc EmptyPlaceholder EmptyPlaceholder [] [].

(** The [DOMContentLoaded] listener, lines 19-23.  [initializeTheme] and
    [handleKeyboardShortcuts] are not declared in this file; the theme
    script is taken to declare the first.  When the second is missing,
    line 46 throws a [ReferenceError] after the other listeners are
    attached, and [loadDecks()] never runs. *)
Definition boot (shortcuts_declared : bool) : world :=
  if shortcuts_declared then after (loadDecks initial_app) []
  else mkWorld (set_uncaught [ReferenceError "handleKeyboardShortcuts is not defined"]
                  initial_app) [].

Inductive reachable : world -> Prop :=
  | reach_boot b : reachable (boot b)
  | reach_step w w' : reachable w -> step w w' -> reachable w'.

(** ** Executable traces *)

(** A response of any of the payload types, for traces written as data. *)
Inductive delivery :=
  | DDecks (r : response (list deck))
  | DDeck (r : response deck)
  | DCards (r : response (list card))
  | DCard (r : response card)
  | DUnit (r : response unit).

Definition deliver (k : cont) (d : delivery) : option (response (cont_payload k)) :=
  match k return option (response (cont_payload k)) with
  | KLoadDecks => match d with DDecks r => Some r | _ => None end
  | KCreateDeck => match d with DDeck r => Some r | _ => None end
  | KDeleteDeck _ => match d with DUnit r => Some r | _ => None end
  | KCreateCard => match d with DCard r => Some r | _ => None end
  | KLoadCards => match d with DCards r => Some r | _ => None end
  | KDeleteCard _ => match d with DUnit r => Some r | _ => None end
  | KRate => match d with DCard r => Some r | _ => None end
  end.

(** One scheduler decision: a user event, or the response to the [n]-th
    request in flight. *)
Inductive action :=
  | AEvent (e : env) (ev : event)
  | AResponse (e : env) (n : nat) (d : delivery).

Definition run_action (w : world) (a : action) : option world :=
  match a with
  | AEvent e ev =>
      if enabled (w_app w) ev then Some (after (handle e ev (w_app w)) (w_pending w))
      else None
  | AResponse e n d =>
      match w_pending w !! n with
      | Some p =>
          match deliver (p_cont p) d with
          | Some r => Some (after (resume e (p_cont p) r (w_app w)) (delete n (w_pending w)))
          | None => None
          end
      | None => None
      end
  end.

Fixpoint run_trace (w : world) (acts : list action) : option world :=
  match acts with
  | [] => Some w
  | a :: acts' =>
      match run_action w a with
      | Some w' => run_trace w' acts'
      | None => None
      end
  end.

(** ** The review invariant *)

(** While the review panel is on screen, [currentReviewIndex] points into
    the queue, or the queue is empty. *)
Definition review_index_ok (s : app) : Prop :=
  visible s "reviewMode" = true ->
  currentReviewIndex s < length (reviewCards s) \/ reviewCards s = [].

(** Responses still owed: a pending [loadCards] completes without
    starting anything; any other continuation may start one [loadCards]. *)
Definition cont_weight (k : cont) : nat :=
  match k with
  | KLoadCards => 1
  | _ => 2
  end.

Definition pending_weight (ps : list pending) : nat :=
  list_sum (map (fun p => cont_weight (p_cont p)) ps).

(** [n] responses delivered in a row, with no user event between them. *)
Inductive responses : nat -> world -> world -> Prop :=
  | responses_none w : responses 0 w w
  | responses_more e n w p (r : response (cont_payload (p_cont p))) k w' :
      w_pending w !! n = Some p ->
      responses k (after (resume e (p_cont p) r (w_app w)) (delete n (w_pending w))) w' ->
      responses (S k) w w'.

(** ** Scenarios *)

Definition sc_env : env := mkEnv 86400000 (fun _ => 0%Q) (fun _ => "01.01.1970").
Definition sc_deckA : deck := mkDeck (IdStr "a") "Spanish" (Some "") 0.
Definition sc_deckB : deck := mkDeck (IdStr "b") "German" (Some "") 0.
Definition sc_card1 : card := mkCard (IdStr "c1") (IdStr "a") "hola" "hello" None None NoDate.
Definition sc_card2 : card :=
  mkCard (IdStr "c2") (IdStr "a") "adios" "bye" (Some 1%Z) (Some 3%Z) NoDate.
(** A card of deck [b] due the day after [sc_env]'s clock. *)
Definition sc_card_later : card :=
  mkCard (IdStr "c3") (IdStr "b") "Hund" "dog" (Some 1%Z) (Some 1%Z) (AtTime (2 * 86400000)).
Definition sc_card_new : card := mkCard (IdStr "c4") (IdStr "a") "gato" "cat" None None NoDate.

(** Load two decks, open deck [a] with the given cards, start a review. *)
Definition sc_open_review (cs : list card) : list action :=
  [AResponse sc_env 0 (DDecks (HttpOk [sc_deckA; sc_deckB]));
   AEvent sc_env (SelectDeckClick "a");
   AResponse sc_env 0 (DCards (HttpOk cs));
   AEvent sc_env StartReviewClick].

(** During the review, open deck [b], whose only card is not due, and
    press start again. *)
Definition sc_empty_queue : list action :=
  sc_open_review [sc_card1] ++
  [AEvent sc_env (SelectDeckClick "b");
   AResponse sc_env 0 (DCards (HttpOk [sc_card_later]));
   AEvent sc_env StartReviewClick].

(** Two grade clicks before the first response arrives, then both
    responses. *)
Definition sc_double_click : list action :=
  sc_open_review [sc_card1; sc_card2] ++
  [AEvent sc_env (RateClick 5); AEvent sc_env (RateClick 5)].
Definition sc_double_replies : list action :=
  [AResponse sc_env 0 (DCard (HttpOk sc_card2)); AResponse sc_env 0 (DCard (HttpOk sc_card2))].

(** Create a card in deck [a], open deck [b] before the creation is
    answered; the cards of [b] arrive first. *)
Definition sc_switch_deck : list action :=
  [AResponse sc_env 0 (DDecks (HttpOk [sc_deckA; sc_deckB]));
   AEvent sc_env (SelectDeckClick "a");
   AResponse sc_env 0 (DCards (HttpOk [sc_card1]));
   AEvent sc_env (Input "cardQuestion" "gato");
   AEvent sc_env (Input "cardAnswer" "cat");
   AEvent sc_env CreateCardClick;
   AEvent sc_env (SelectDeckClick "b");
   AResponse sc_env 1 (DCards (HttpOk [sc_card_later]));
   AResponse sc_env 0 (DCard (HttpOk sc_card_new))].

Definition sc_deck_null : deck := mkDeck (IdStr "n") "Empty" None 0.
Definition sc_deck_num : deck := mkDeck (IdNum 7) "Numbers" (Some "") 0.

(** States for single handlers. *)
Definition sc_with_cards (cs : list card) : app := set_cards cs initial_app.
Definition sc_reviewing : app :=
  set_currentDeckId (Some (IdStr "a")) (set_reviewCards [sc_card1] initial_app).
Definition sc_selected (ds : list deck) : app :=
  set_decks ds (set_currentDeckId (Some (IdStr "a")) initial_app).

(** The scenario of spec section 8: create the deck Spanish, add the
    card hola/hello, review it, flip it, grade it 5. *)
Definition sc8_deck : deck := mkDeck (IdStr "1") "Spanish" (Some "") 0.
Definition sc8_card : card := mkCard (IdStr "h") (IdStr "1") "hola" "hello" None None NoDate.
Definition sc8_graded : card :=
  mkCard (IdStr "h") (IdStr "1") "hola" "hello" (Some 1%Z) (Some 1%Z) (AtTime (2 * 86400000)).
Definition sc8_create_deck : list action :=
  [AResponse sc_env 0 (DDecks (HttpOk []));
   AEvent sc_env (Input "deckName" "Spanish");
   AEvent sc_env CreateDeckClick;
   AResponse sc_env 0 (DDeck (HttpOk sc8_deck))].
Definition sc8_add_card : list action :=
  sc8_create_deck ++
  [AEvent sc_env (SelectDeckClick "1");
   AResponse sc_env 0 (DCards (HttpOk []));
   AEvent sc_env (Input "cardQuestion" "hola");
   AEvent sc_env (Input "cardAnswer" "hello");
   AEvent sc_env CreateCardClick;
   AResponse sc_env 0 (DCard (HttpOk sc8_card))].
Definition sc8_flip : list action :=
  sc8_add_card ++ [AEvent sc_env StartReviewClick; AEvent sc_env ReviewCardClick].
Definition sc8_grade : list action := sc8_flip ++ [AEvent sc_env (RateClick 5)].
Definition sc8_graded_reply : list action :=
  sc8_grade ++ [AResponse sc_env 0 (DCard (HttpOk sc8_graded))].

(** The world a scenario ends in (the boot world if it gets stuck). *)
Definition world_after (acts : list action) : world :=
  default (boot true) (run_trace (boot true) acts).

(** ** Lemmas on the handlers *)

(** Case analysis on a continuation, each case unfolded to the code that
    runs when the response arrives. *)
Ltac cases_resume k :=
  destruct k; simpl;
    [unfold loadDecks_k, render_decks | unfold createDeck_k, render_decks
    | unfold deleteDeck_k, render_decks | unfold createCard_k, render_cards
    | unfold loadCards_k, render_cards | unfold deleteCard_k, render_cards
    | unfold rateCard_k].

(** Case analysis on a user event, each case unfolded to its handler. *)
Ltac cases_handle ev :=
  destruct ev; simpl;
    [unfold createDeck | unfold createCard | unfold startReview
    | unfold exitReview, loadCards | unfold flipCard | unfold rateCard
    | unfold selectDeck, loadCards | unfold deleteDeck | unfold deleteCard | ].

Lemma run_action_step w a w' : run_action w a = Some w' -> step w w'.
Proof.
  destruct a as [e ev|e n d]; simpl.
  - destruct (enabled (w_app w) ev) eqn:He; intros [= <-]. by constructor.
  - destruct (w_pending w !! n) as [p|] eqn:Hp; [|done].
    destruct (deliver (p_cont p) d) as [r|]; [|done].
    intros [= <-]. by constructor.
Qed.

Lemma run_trace_reachable w acts w' :
  reachable w -> run_trace w acts = Some w' -> reachable w'.
Proof.
  revert w. induction acts as [|a acts IH]; simpl; intros w Hw.
  - by intros [= <-].
  - destruct (run_action w a) as [w1|] eqn:Ha; [|done].
    intros Hrun. exact (IH w1 (reach_step w w1 Hw (run_action_step w a w1 Ha)) Hrun).
Qed.

Lemma showNextReviewCard_shows s c :
  reviewCards s !! currentReviewIndex s = Some c ->
  showNextReviewCard s =
  finished (set_isCardFlipped false
    (set_text "reviewProgress"
       (pretty (currentReviewIndex s + 1) +:+ "/" +:+ pretty (length (reviewCards s)))
       (set_hidden "cardAnswerSide" true
          (set_text "cardAnswerSide" (answer c)
             (set_text "cardQuestionSide" (question c) s))))).
Proof. intros Hc. unfold showNextReviewCard. by rewrite Hc. Qed.

Lemma showNextReviewCard_ends s :
  length (reviewCards s) <= currentReviewIndex s ->
  showNextReviewCard s = endReview s.
Proof. intros Hle. unfold showNextReviewCard. by rewrite lookup_ge_None_2. Qed.

Lemma length_shuffleArray {A} r (l : list A) : length (shuffleArray r l) = length l.
Proof. apply length_fy_loop. Qed.

Lemma exitReview_reviewCards s : reviewCards (fst (exitReview s)) = reviewCards s.
Proof. unfold exitReview, loadCards. by case_match. Qed.

Lemma showNextReviewCard_reviewCards s :
  reviewCards (fst (showNextReviewCard s)) = reviewCards s.
Proof. unfold showNextReviewCard, endReview. case_match; [done|]. by rewrite exitReview_reviewCards. Qed.

Lemma elem_of_due_cards now c cs :
  c ∈ due_cards now cs <->
  c ∈ cs /\ (nextReviewDate c = NoDate \/
             exists t, nextReviewDate c = AtTime t /\ (t <= now)%Z).
Proof. unfold due_cards. rewrite list_elem_of_filter, is_due_spec. tauto. Qed.

(** C1: with cards loaded and at least one of them due, [startReview]
    opens the review panel on a queue that is a permutation of the due
    cards, at index 0, unflipped, with the first card's question shown and
    its answer hidden, and starts no request. *)
Theorem startReview_starts e s :
  cards s <> [] -> due_cards (now e) (cards s) <> [] ->
  let s' := fst (startReview e s) in
  snd (startReview e s) = [] /\
  reviewCards s' ≡ₚ due_cards (now e) (cards s) /\
  currentReviewIndex s' = 0 /\ isCardFlipped s' = false /\
  visible s' "reviewMode" = true /\ visible s' "deckSelected" = false /\
  visible s' "cardAnswerSide" = false /\
  exists c, reviewCards s' !! 0 = Some c /\
    textContent (doc s' "cardQuestionSide") = question c.
Proof.
  intros Hcards Hdue. unfold startReview.
  destruct (cards s) as [|c0 cs] eqn:Hc; [done|].
  rewrite <- Hc in *.
  destruct (due_cards (now e) (cards s)) as [|d ds] eqn:Hd; [done|].
  destruct (shuffleArray (rnd e) (d :: ds)) as [|q qs] eqn:Hq.
  { apply (f_equal length) in Hq. by rewrite length_shuffleArray in Hq. }
  rewrite showNextReviewCard_shows with (c := q) by done.
  simpl. split; [done|]. split.
  - rewrite <- Hq. apply fy_loop_perm.
  - repeat split. exists q. done.
Qed.

(** C22: on a deck with cards, [startReview] puts in the queue
    exactly the loaded cards whose [nextReviewDate] is absent or a
    parsable date not after the clock (spec section 8): a card dated in
    the future, or whose date does not parse, is never reviewed, and
    every due card is. *)
Theorem startReview_queue_is_due_subset e s c :
  cards s <> [] ->
  c ∈ reviewCards (fst (startReview e s)) <->
  c ∈ cards s /\ (nextReviewDate c = NoDate \/
                  exists t, nextReviewDate c = AtTime t /\ (t <= now e)%Z).
Proof.
  intros Hcards. rewrite <- elem_of_due_cards. unfold startReview.
  destruct (cards s) as [|c0 cs] eqn:Hc; [done|]. rewrite <- Hc.
  destruct (due_cards (now e) (cards s)) as [|d ds] eqn:Hd; simpl; [set_solver|].
  rewrite showNextReviewCard_reviewCards. simpl. unfold shuffleArray. by rewrite fy_loop_perm.
Qed.

(** C4: when no card is due (in particular when the deck has
    no card), [startReview] only shows a notification: the review panel is
    not opened and no request is sent.  With cards loaded it still
    empties [reviewCards] first. *)
Theorem startReview_without_due_cards e s :
  due_cards (now e) (cards s) = [] ->
  startReview e s =
  finished (match cards s with
            | [] => showNotification "В колоде нет карточек для повторения!" "error" s
            | _ => showNotification "Все карточки уже повторены! Возвращайтесь позже." "info"
                     (set_reviewCards [] s)
            end).
Proof.
  intros Hd. unfold startReview.
  destruct (cards s) as [|c cs] eqn:Hc; [done|]. cbv zeta. by rewrite Hd.
Qed.

(** C28: leaving a review keeps the session: [exitReview] (lines
    321-329) hides the review panel and shows the card panel, keeps the
    queue [reviewCards] and the index, shows no notification, and reloads
    the cards of the selected deck, the only request, when a deck is
    selected.  Spec section 4.3 says [exit()] discards the queue and
    notifies completion. *)
Theorem exitReview_keeps_queue s :
  reviewCards (fst (exitReview s)) = reviewCards s /\
  currentReviewIndex (fst (exitReview s)) = currentReviewIndex s /\
  toasts (fst (exitReview s)) = toasts s /\
  visible (fst (exitReview s)) "reviewMode" = false /\
  visible (fst (exitReview s)) "deckSelected" = true /\
  snd (exitReview s) =
    match selected_deck s with
    | Some i => [mkPending (loadCards_request i) KLoadCards]
    | None => []
    end.
Proof.
  unfold exitReview, loadCards, selected_deck, visible. simpl.
  destruct (currentDeckId s) as [i|]; [destruct (id_truthy i)|]; simpl; by split_and!.
Qed.

(** C3: a successful rating of the last card of the queue ends
    the session: the review panel is hidden, the deck panel shown, the
    completion notification is the last one, and the cards of the
    selected deck are reloaded (the only request started). *)
Theorem rateCard_k_last_ends_session s (c : card) :
  reviewCards s <> [] -> currentReviewIndex s = length (reviewCards s) - 1 ->
  let o := rateCard_k (HttpOk c) s in
  visible (fst o) "reviewMode" = false /\ visible (fst o) "deckSelected" = true /\
  last (toasts (fst o)) =
    Some (mkNotification "Повторение завершено! 🎉" "notification notification-${type}"
            "#10B981") /\
  snd o = match selected_deck s with
          | Some id => [mkPending (loadCards_request id) KLoadCards]
          | None => []
          end.
Proof.
  intros Hne Hidx. unfold rateCard_k. simpl.
  rewrite showNextReviewCard_ends by (simpl; destruct (reviewCards s); simpl in *; lia).
  unfold endReview, exitReview, selected_deck. simpl.
  destruct (currentDeckId s) as [id|]; [destruct (id_truthy id)|]; simpl;
    rewrite ?last_snoc; repeat split.
Qed.

(** C5: a failed request (network failure or non-2xx response)
    changes nothing but the notifications, for every continuation: the
    state after the response is the state before it with one error
    notification added, and no request is started. *)
Theorem failed_response_commits_nothing e k (r : response (cont_payload k)) s :
  (forall v, r <> HttpOk v) ->
  exists m, resume e k r s = finished (showNotification m "error" s).
Proof.
  intros Hr. destruct r as [m|t|v]; [| |by destruct (Hr v)];
    destruct k; eexists; reflexivity.
Qed.

(** C9: [createCard] checks the trimmed question and
    answer, then the selected deck, before it sends anything; only when
    both texts are non-empty and a deck is selected does it send the
    create request, with the trimmed texts and the selected deck's id. *)
Theorem createCard_validation s :
  let q := js_trim (value (doc s "cardQuestion")) in
  let a := js_trim (value (doc s "cardAnswer")) in
  ((q = "" \/ a = "") ->
     createCard s = finished (showNotification "Заполните вопрос и ответ!" "error" s)) /\
  (q <> "" -> a <> "" -> selected_deck s = None ->
     createCard s = finished (showNotification "Сначала выберите колоду!" "error" s)) /\
  (forall id, q <> "" -> a <> "" -> selected_deck s = Some id ->
     createCard s = (s, [mkPending (apiCreateCard_request id q a) KCreateCard])).
Proof.
  cbv zeta. unfold createCard. cbv zeta.
  split; [|split].
  - intros [Hq|Ha]; [rewrite Hq; reflexivity|].
    rewrite Ha. by rewrite orb_true_r.
  - intros Hq Ha Hsel. apply js_truthy_true in Hq, Ha. by rewrite Hq, Ha, Hsel.
  - intros id Hq Ha Hsel. apply js_truthy_true in Hq, Ha. by rewrite Hq, Ha, Hsel.
Qed.

(** C10: a successful deletion of the selected deck, when
    every remaining deck has a description, removes the deck from the
    list, clears the selection and returns to the no-deck view. *)
Theorem deleteDeck_k_clears_selection e id s :
  currentDeckId s = Some id -> Forall (fun d => is_Some (description d)) (decks s) ->
  let o := deleteDeck_k e id (HttpOk tt) s in
  snd o = [] /\ currentDeckId (fst o) = None /\
  visible (fst o) "noDeckSelected" = true /\ visible (fst o) "deckSelected" = false /\
  Forall (fun d => deck_id d <> id) (decks (fst o)).
Proof.
  intros Hsel Hdesc. unfold deleteDeck_k, render_decks. simpl.
  pose proof (updateDecksList_ok (localeDate e) (filter (fun d => deck_id d <> id) (decks s))
                (cards s)) as Hok.
  destruct (updateDecksList _ _ _) as [v err]. simpl in Hok.
  rewrite Hok by (by apply Forall_filter_weaken). simpl. rewrite Hsel, bool_decide_true by done.
  repeat split. apply Forall_forall. intros d Hd.
  by apply list_elem_of_filter in Hd as [? _].
Qed.

(** C11: when another deck of the list has a [null]
    description, re-rendering the list throws inside the [try] of
    [deleteDeck]: the deck is removed locally but the selection is kept
    and the user is told the deletion failed. *)
Theorem deleteDeck_k_null_description_keeps_selection e id s :
  currentDeckId s = Some id ->
  (exists d, d ∈ decks s /\ deck_id d <> id /\ description d = None) ->
  decks (fst (deleteDeck_k e id (HttpOk tt) s)) = filter (fun d => deck_id d <> id) (decks s) /\
  currentDeckId (fst (deleteDeck_k e id (HttpOk tt) s)) = Some id /\
  exists m, last (toasts (fst (deleteDeck_k e id (HttpOk tt) s))) =
            Some (mkNotification ("Ошибка удаления: " +:+ m)
                    "notification notification-${type}" "#EF4444").
Proof.
  intros Hsel (d & Hd & Hid & Hnull). unfold deleteDeck_k, render_decks. simpl.
  destruct (updateDecksList_throws (localeDate e) (filter (fun d => deck_id d <> id) (decks s))
              (cards s)) as [err Herr].
  { exists d. split; [|done]. by apply list_elem_of_filter. }
  destruct (updateDecksList _ _ _) as [v err']. simpl in Herr. subst err'. simpl.
  split_and!; [done|done|]. rewrite last_snoc. by eexists.
Qed.

(** C15: a successful creation, when every deck has a
    description, appends the new deck, clears the form and shows a
    notification whose text is 'Колода[object Object]создана!': the deck's
    name never appears in it. *)
Theorem createDeck_k_success e d s :
  Forall (fun d => is_Some (description d)) (decks s ++ [d])%list ->
  let o := createDeck_k e (HttpOk d) s in
  snd o = [] /\ decks (fst o) = (decks s ++ [d])%list /\
  value (doc (fst o) "deckName") = "" /\ value (doc (fst o) "deckDescription") = "" /\
  last (toasts (fst o)) =
    Some (mkNotification "Колода[object Object]создана!" "notification notification-${type}"
            "#6366F1").
Proof.
  intros Hdesc. unfold createDeck_k, render_decks. simpl.
  pose proof (updateDecksList_ok (localeDate e) (decks s ++ [d]) (cards s) Hdesc) as Hok.
  destruct (updateDecksList _ _ _) as [v err]. simpl in Hok. subst err. simpl.
  rewrite last_snoc. repeat split.
Qed.

(** C14: the [onclick] attribute passes the deck id as a string,
    and [selectDeck] compares it with [===]: when the backend's ids are
    numbers, opening a deck finds nothing, sets [currentDeckId] to the
    string, shows nothing and loads nothing. *)
Theorem selectDeck_numeric_ids s :
  Forall (fun d => exists n, deck_id d = IdNum n) (decks s) ->
  forall d, d ∈ decks s ->
  selectDeck (IdStr (id_text (deck_id d))) s =
  finished (set_currentDeckId (Some (IdStr (id_text (deck_id d)))) s).
Proof.
  intros Hnum d _. unfold selectDeck. simpl.
  assert (Hnone : List.find (fun d' => bool_decide (deck_id d' = IdStr (id_text (deck_id d))))
                    (decks s) = None).
  { induction Hnum as [|d' ds [n Hn] _ IH]; [done|]. simpl.
    rewrite Hn, bool_decide_false by done. done. }
  by rewrite Hnone.
Qed.

Ltac review_frame :=
  unfold review_index_ok, visible in *; simplify_eq/=; intros; auto.

Lemma set_value_hidden f v s x : hidden (doc (set_value f v s) x) = hidden (doc s x).
Proof. simpl. by destruct (String.eqb x f). Qed.

Lemma exitReview_hides s : visible (fst (exitReview s)) "reviewMode" = false.
Proof. unfold exitReview. destruct (selected_deck _); reflexivity. Qed.

Lemma exitReview_ok s : review_index_ok (fst (exitReview s)).
Proof. intros Hv. by rewrite exitReview_hides in Hv. Qed.

Lemma showNextReviewCard_ok s : review_index_ok (fst (showNextReviewCard s)).
Proof.
  destruct (reviewCards s !! currentReviewIndex s) as [c|] eqn:Hc.
  - rewrite (showNextReviewCard_shows _ _ Hc). intros _. left. simpl.
    by eapply lookup_lt_Some.
  - unfold showNextReviewCard. rewrite Hc. apply exitReview_ok.
Qed.

Lemma notify_ok m t s : review_index_ok s -> review_index_ok (showNotification m t s).
Proof. review_frame. Qed.

Lemma render_decks_ok e s : review_index_ok s -> review_index_ok (fst (render_decks e s)).
Proof. unfold render_decks. destruct (updateDecksList _ _ _). review_frame. Qed.

Lemma handle_ok e ev s : review_index_ok s -> review_index_ok (fst (handle e ev s)).
Proof.
  intros Hs. destruct ev; simpl.
  - unfold createDeck. case_match; auto using notify_ok.
  - unfold createCard. repeat case_match; auto using notify_ok.
  - unfold startReview. repeat case_match; auto using notify_ok, showNextReviewCard_ok.
    intros _. right. reflexivity.
  - apply exitReview_ok.
  - unfold flipCard. review_frame.
  - unfold rateCard. case_match; review_frame.
  - unfold selectDeck, loadCards. case_match; review_frame.
  - unfold deleteDeck. case_match; review_frame.
  - unfold deleteCard. case_match; review_frame.
  - unfold review_index_ok, visible. rewrite set_value_hidden. exact Hs.
Qed.

Lemma resume_ok e k r s : review_index_ok s -> review_index_ok (fst (resume e k r s)).
Proof.
  intros Hs. cases_resume k; repeat case_match;
    first [apply showNextReviewCard_ok | review_frame].
Qed.

(** The invariant holds in every reachable world: rule induction on
    [reachable], whatever the order of events and responses. *)
Lemma review_index_invariant w : reachable w -> review_index_ok (w_app w).
Proof.
  induction 1 as [b|w w' _ IH Hstep].
  - unfold review_index_ok. destruct b; vm_compute; intros H; discriminate H.
  - destruct Hstep; simpl; [apply handle_ok | apply resume_ok]; exact IH.
Qed.

(** C2: in every reachable world, in every interleaving of
    clicks and responses, while the review panel is on screen and the
    queue is not empty, a grade click finds the current card and sends its
    review request (it never fails on [card.id] of [undefined]). *)
Theorem rateCard_finds_card w q :
  reachable w -> visible (w_app w) "reviewMode" = true -> reviewCards (w_app w) <> [] ->
  exists c, reviewCards (w_app w) !! currentReviewIndex (w_app w) = Some c /\
    rateCard q (w_app w) = (w_app w, [mkPending (apiUpdateCard_request (card_id c) q) KRate]).
Proof.
  intros Hr Hv Hne.
  destruct (review_index_invariant w Hr Hv) as [Hlt|]; [|done].
  destruct (lookup_lt_is_Some_2 _ _ Hlt) as [c Hc].
  exists c. split; [done|]. unfold rateCard. by rewrite Hc.
Qed.

Lemma boot_trace_reachable b acts w :
  run_trace (boot b) acts = Some w -> reachable w.
Proof. apply run_trace_reachable. constructor. Qed.

Lemma world_after_spec acts w :
  run_trace (boot true) acts = Some w -> w = world_after acts.
Proof. unfold world_after. by intros ->. Qed.

Lemma run_trace_is_Some w acts :
  option_map (fun _ => tt) (run_trace w acts) = Some tt -> is_Some (run_trace w acts).
Proof. destruct (run_trace w acts); [by eexists | done]. Qed.

(** Runs a scenario from the boot world: its final world [w] exists (by
    evaluating only whether the run succeeds), is reachable, and is
    [world_after acts], whose first-order projections evaluate by
    [vm_compute]. *)
Ltac scenario acts :=
  let w := fresh "w" in let Hrun := fresh "Hrun" in
  destruct (run_trace_is_Some (boot true) acts ltac:(vm_compute; reflexivity)) as [w Hrun];
  exists w; split; [exact Hrun|];
  split; [exact (boot_trace_reachable _ _ _ Hrun)|];
  rewrite (world_after_spec _ _ Hrun).

(** C6: the deck list stays on screen during a review, so a
    deck can be opened and the review restarted while the review panel
    is shown; when no card of that deck is due, [startReview] empties the
    queue and returns without closing the panel, and the next grade click
    fails on [card.id] of [undefined] and sends no request. *)
Theorem review_panel_with_empty_queue :
  exists w, run_trace (boot true) sc_empty_queue = Some w /\ reachable w /\
    visible (w_app w) "reviewMode" = true /\ reviewCards (w_app w) = [] /\
    snd (rateCard 5 (w_app w)) = [] /\
    map n_message (toasts (fst (rateCard 5 (w_app w)))) =
      ["Все карточки уже повторены! Возвращайтесь позже.";
       "Ошибка обновления карточки: " +:+ undefined_id_message].
Proof. scenario sc_empty_queue. repeat split; vm_compute; reflexivity. Qed.

(** C7: two grade clicks before the first response both submit
    the current card; the two responses then advance the index twice, so
    the session ends with the other due card never submitted. *)
Theorem double_rating_skips_a_card :
  (exists w, run_trace (boot true) sc_double_click = Some w /\ reachable w /\
     map card_id (reviewCards (w_app w)) = [IdStr "c2"; IdStr "c1"] /\
     currentReviewIndex (w_app w) = 0 /\
     map p_request (w_pending w) =
       [apiUpdateCard_request (IdStr "c2") 5; apiUpdateCard_request (IdStr "c2") 5]) /\
  (exists w, run_trace (boot true) (sc_double_click ++ sc_double_replies)%list = Some w /\
     reachable w /\
     visible (w_app w) "reviewMode" = false /\ currentReviewIndex (w_app w) = 2 /\
     map p_request (w_pending w) = [loadCards_request (IdStr "a")]).
Proof.
  split.
  - scenario sc_double_click. repeat split; vm_compute; reflexivity.
  - scenario (sc_double_click ++ sc_double_replies)%list. repeat split; vm_compute; reflexivity.
Qed.

(** C8: [createCard] appends the created card to [cards]
    whatever deck is selected when the response arrives: after switching
    decks, the card list of deck [b] holds, after b's own card, the new
    card of deck [a]. *)
Theorem created_card_lands_in_other_deck :
  exists w, run_trace (boot true) sc_switch_deck = Some w /\ reachable w /\
    currentDeckId (w_app w) = Some (IdStr "b") /\
    map deckId (cards (w_app w)) = [IdStr "b"; IdStr "a"] /\
    map row_question (rows_of (cardsList (w_app w))) = ["Hund"; "gato"].
Proof. scenario sc_switch_deck. repeat split; vm_compute; reflexivity. Qed.

(** C26: the scenario of spec section 8 runs as the spec says, except
    for the card count: the created deck is listed with 0 cards; after
    the card is added the deck row still says 0 (the list is not
    re-rendered); the review starts on a queue of one card at index 0;
    the flip shows the answer; grading sends [(cardId, 5)]; the response
    ends the session and reloads the deck's cards. *)
Theorem spec_section_8_scenario :
  option_map (fun w => (map row_name (rows_of (decksList (w_app w))),
                        map row_count (rows_of (decksList (w_app w)))))
    (run_trace (boot true) sc8_create_deck) = Some (["Spanish"], [0]) /\
  option_map (fun w => (length (cards (w_app w)),
                        map row_count (rows_of (decksList (w_app w)))))
    (run_trace (boot true) sc8_add_card) = Some (1, [0]) /\
  option_map (fun w => (length (reviewCards (w_app w)), currentReviewIndex (w_app w),
                        isCardFlipped (w_app w), visible (w_app w) "cardAnswerSide"))
    (run_trace (boot true) sc8_flip) = Some (1, 0, true, true) /\
  option_map (fun w => map p_request (w_pending w))
    (run_trace (boot true) sc8_grade) = Some [apiUpdateCard_request (IdStr "h") 5] /\
  option_map (fun w => (visible (w_app w) "reviewMode", visible (w_app w) "deckSelected",
                        map p_request (w_pending w)))
    (run_trace (boot true) sc8_graded_reply) =
    Some (false, true, [loadCards_request (IdStr "1")]).
Proof. repeat split; vm_compute; reflexivity. Qed.

(** ** Quiescence *)

Lemma resume_spawns e k r s :
  Forall (fun p => p_cont p = KLoadCards) (snd (resume e k r s)) /\
  length (snd (resume e k r s)) <= 1 /\
  (k = KLoadCards -> snd (resume e k r s) = []).
Proof.
  assert (Hex : forall s', Forall (fun p => p_cont p = KLoadCards) (snd (exitReview s')) /\
                           length (snd (exitReview s')) <= 1).
  { intros s'. unfold exitReview, loadCards. case_match; simpl; auto. }
  assert (Hshow : forall s', Forall (fun p => p_cont p = KLoadCards)
                               (snd (showNextReviewCard s')) /\
                             length (snd (showNextReviewCard s')) <= 1).
  { intros s'. unfold showNextReviewCard. case_match; simpl; auto. apply Hex. }
  cases_resume k;
    repeat case_match; simpl; try (split; [constructor|split; [lia|done]]).
  - match goal with |- context [showNextReviewCard ?x] => destruct (Hshow x) end.
    split; [done|]. split; [done|discriminate].
Qed.

(** C25: every response strictly lowers the weight of the
    requests in flight (1 for a card reload, 2 for any other request), so
    without user input the page settles after at most twice as many
    responses as requests in flight. *)
Theorem responses_bounded n w w' :
  responses n w w' -> n <= pending_weight (w_pending w).
Proof.
  induction 1 as [w|e m w p r k w' Hp _ IH]; [lia|].
  simpl in IH. unfold pending_weight in *.
  destruct (resume_spawns e (p_cont p) r (w_app w)) as (Hall & Hlen & Hload).
  rewrite map_app, list_sum_app in IH.
  rewrite (list_sum_map_delete _ _ _ _ Hp).
  enough (list_sum (map (fun p => cont_weight (p_cont p)) (snd (resume e (p_cont p) r (w_app w))))
          < cont_weight (p_cont p)) by lia.
  destruct (snd (resume e (p_cont p) r (w_app w))) as [|q [|]] eqn:Hs; simpl in *; try lia.
  - destruct (p_cont p); simpl; lia.
  - inversion Hall as [|? ? Hq]; subst. rewrite Hq. simpl.
    destruct (p_cont p) eqn:Hk; simpl; try lia. discriminate (Hload eq_refl).
Qed.

(** ** Witnesses *)

Lemma startReview_starts_witness :
  cards (sc_with_cards [sc_card1]) <> [] /\
  due_cards (now sc_env) (cards (sc_with_cards [sc_card1])) <> [] /\
  visible (fst (startReview sc_env (sc_with_cards [sc_card1]))) "reviewMode" = true.
Proof.
  assert (H1 : cards (sc_with_cards [sc_card1]) <> []) by discriminate.
  assert (H2 : due_cards (now sc_env) (cards (sc_with_cards [sc_card1])) <> [])
    by (vm_compute; discriminate).
  split; [exact H1|]. split; [exact H2|].
  apply (startReview_starts sc_env (sc_with_cards [sc_card1]) H1 H2).
Defined.

Lemma startReview_queue_is_due_subset_witness :
  cards (sc_with_cards [sc_card1]) <> [] /\
  (sc_card1 ∈ reviewCards (fst (startReview sc_env (sc_with_cards [sc_card1]))) <->
   sc_card1 ∈ cards (sc_with_cards [sc_card1]) /\
   (nextReviewDate sc_card1 = NoDate \/
    exists t, nextReviewDate sc_card1 = AtTime t /\ (t <= now sc_env)%Z)).
Proof.
  assert (H1 : cards (sc_with_cards [sc_card1]) <> []) by discriminate.
  split; [exact H1|]. apply (startReview_queue_is_due_subset sc_env _ sc_card1 H1).
Defined.

Lemma startReview_without_due_cards_witness :
  due_cards (now sc_env) (cards (sc_with_cards [sc_card_later])) = [] /\
  startReview sc_env (sc_with_cards [sc_card_later]) =
  finished (showNotification "Все карточки уже повторены! Возвращайтесь позже." "info"
              (set_reviewCards [] (sc_with_cards [sc_card_later]))).
Proof.
  assert (H : due_cards (now sc_env) (cards (sc_with_cards [sc_card_later])) = [])
    by (vm_compute; reflexivity).
  split; [exact H|]. exact (startReview_without_due_cards sc_env _ H).
Defined.

Lemma rateCard_k_last_ends_session_witness :
  reviewCards sc_reviewing <> [] /\
  currentReviewIndex sc_reviewing = length (reviewCards sc_reviewing) - 1 /\
  visible (fst (rateCard_k (HttpOk sc_card1) sc_reviewing)) "reviewMode" = false.
Proof.
  assert (H1 : reviewCards sc_reviewing <> []) by discriminate.
  assert (H2 : currentReviewIndex sc_reviewing = length (reviewCards sc_reviewing) - 1)
    by reflexivity.
  split; [exact H1|]. split; [exact H2|].
  apply (rateCard_k_last_ends_session sc_reviewing sc_card1 H1 H2).
Defined.

Lemma failed_response_commits_nothing_witness :
  (forall v, HttpError (A:=card) "boom" <> HttpOk v) /\
  exists m, resume sc_env KRate (HttpError "boom") initial_app =
            finished (showNotification m "error" initial_app).
Proof.
  assert (H : forall v, HttpError (A:=card) "boom" <> HttpOk v) by (intros v; discriminate).
  split; [exact H|]. exact (failed_response_commits_nothing sc_env KRate _ initial_app H).
Defined.

Lemma createCard_validation_witness :
  js_trim (value (doc initial_app "cardQuestion")) = "" /\
  createCard initial_app =
  finished (showNotification "Заполните вопрос и ответ!" "error" initial_app).
Proof.
  assert (H : js_trim (value (doc initial_app "cardQuestion")) = "") by reflexivity.
  split; [exact H|]. exact (proj1 (createCard_validation initial_app) (or_introl H)).
Defined.

Lemma deleteDeck_k_clears_selection_witness :
  currentDeckId (sc_selected [sc_deckA; sc_deckB]) = Some (IdStr "a") /\
  Forall (fun d => is_Some (description d)) (decks (sc_selected [sc_deckA; sc_deckB])) /\
  currentDeckId (fst (deleteDeck_k sc_env (IdStr "a") (HttpOk tt)
                        (sc_selected [sc_deckA; sc_deckB]))) = None.
Proof.
  assert (H1 : currentDeckId (sc_selected [sc_deckA; sc_deckB]) = Some (IdStr "a"))
    by reflexivity.
  assert (H2 : Forall (fun d => is_Some (description d)) (decks (sc_selected [sc_deckA; sc_deckB])))
    by (repeat constructor; eexists; reflexivity).
  split; [exact H1|]. split; [exact H2|].
  apply (deleteDeck_k_clears_selection sc_env (IdStr "a") _ H1 H2).
Defined.

Lemma deleteDeck_k_null_description_keeps_selection_witness :
  currentDeckId (sc_selected [sc_deckA; sc_deck_null]) = Some (IdStr "a") /\
  (exists d, d ∈ decks (sc_selected [sc_deckA; sc_deck_null]) /\ deck_id d <> IdStr "a" /\
             description d = None) /\
  currentDeckId (fst (deleteDeck_k sc_env (IdStr "a") (HttpOk tt)
                        (sc_selected [sc_deckA; sc_deck_null]))) = Some (IdStr "a").
Proof.
  assert (H1 : currentDeckId (sc_selected [sc_deckA; sc_deck_null]) = Some (IdStr "a"))
    by reflexivity.
  assert (H2 : exists d, d ∈ decks (sc_selected [sc_deckA; sc_deck_null]) /\
                         deck_id d <> IdStr "a" /\ description d = None).
  { exists sc_deck_null. split; [apply list_elem_of_further, list_elem_of_here|].
    split; [discriminate | reflexivity]. }
  split; [exact H1|]. split; [exact H2|].
  apply (deleteDeck_k_null_description_keeps_selection sc_env (IdStr "a") _ H1 H2).
Defined.

Lemma createDeck_k_success_witness :
  Forall (fun d => is_Some (description d)) (decks initial_app ++ [sc_deckA])%list /\
  decks (fst (createDeck_k sc_env (HttpOk sc_deckA) initial_app)) = [sc_deckA].
Proof.
  assert (H : Forall (fun d => is_Some (description d)) (decks initial_app ++ [sc_deckA])%list)
    by (repeat constructor; eexists; reflexivity).
  split; [exact H|]. apply (createDeck_k_success sc_env sc_deckA initial_app H).
Defined.

Lemma selectDeck_numeric_ids_witness :
  Forall (fun d => exists n, deck_id d = IdNum n) (decks (set_decks [sc_deck_num] initial_app)) /\
  selectDeck (IdStr "7") (set_decks [sc_deck_num] initial_app) =
  finished (set_currentDeckId (Some (IdStr "7")) (set_decks [sc_deck_num] initial_app)).
Proof.
  assert (H : Forall (fun d => exists n, deck_id d = IdNum n)
                (decks (set_decks [sc_deck_num] initial_app)))
    by (repeat constructor; eexists; reflexivity).
  split; [exact H|].
  apply (selectDeck_numeric_ids (set_decks [sc_deck_num] initial_app) H sc_deck_num).
  apply list_elem_of_here.
Defined.

Lemma rateCard_finds_card_witness :
  exists w, reachable w /\ visible (w_app w) "reviewMode" = true /\
    reviewCards (w_app w) <> [] /\
    exists c, reviewCards (w_app w) !! currentReviewIndex (w_app w) = Some c.
Proof.
  destruct (run_trace_is_Some (boot true) (sc_open_review [sc_card1])
              ltac:(vm_compute; reflexivity)) as [w Hrun].
  assert (Hr : reachable w) by exact (boot_trace_reachable _ _ _ Hrun).
  assert (Hv : visible (w_app w) "reviewMode" = true)
    by (rewrite (world_after_spec _ _ Hrun); vm_compute; reflexivity).
  assert (Hne : reviewCards (w_app w) <> [])
    by (rewrite (world_after_spec _ _ Hrun); vm_compute; discriminate).
  exists w. split; [exact Hr|]. split; [exact Hv|]. split; [exact Hne|].
  destruct (rateCard_finds_card w 5 Hr Hv Hne) as [c [Hc _]]. by exists c.
Defined.

Lemma responses_bounded_witness :
  responses 1 (boot true)
    (after (resume sc_env KLoadDecks (HttpOk []) initial_app) []) /\
  1 <= pending_weight (w_pending (boot true)).
Proof.
  assert (H : responses 1 (boot true)
                (after (resume sc_env KLoadDecks (HttpOk []) initial_app) [])).
  { apply (responses_more sc_env 0 (boot true) (mkPending loadDecks_request KLoadDecks)
             (HttpOk [])); [reflexivity|]. constructor. }
  split; [exact H|]. exact (responses_bounded _ _ _ H).
Defined.

End App.
