(* ===== verification/Rest.v ===== *)
(** * Rest: the REST contract of the backend

    The backend is not part of [src/]; spec section 6 gives its contract
    as a table of routes.  [route_of] reads a request the way such a
    server routes it: the base URL, then the path split at [/], then the
    method and the JSON body.  [client_requests_follow_rest_table] shows
    that each request builder of [Api] produces the route the table names
    for it, for identifiers whose text is non-empty and holds no [/];
    the request of [apiDeleteDeck] matches no route at all. *)

From S2P Require Import Prelude Api.
Local Open Scope string_scope.

Module Rest.
Import Api.

(** The routes of spec section 6. *)
Inductive route :=
  | RListDecks
  | RCreateDeck (body : json)
  | RDeleteDeck (id : string)
  | RListCards (deckId : string)
  | RCreateCard (body : json)
  | RDeleteCard (id : string)
  | RReview (cardId : string) (body : json).

Definition slash : ascii := "/".

(** The path of a URL after the given prefix. *)
Fixpoint strip_prefix (p l : list ascii) : option (list ascii) :=
  match p, l with
  | [], _ => Some l
  | x :: p', y :: l' => if Ascii.eqb x y then strip_prefix p' l' else None
  | _ :: _, [] => None
  end.

(** The segments of a path, split at every [/]. *)
Fixpoint split_on (c : ascii) (l : list ascii) : list (list ascii) :=
  match l with
  | [] => [[]]
  | x :: l' =>
      if Ascii.eqb x c then [] :: split_on c l'
      else match split_on c l' with
           | [] => [[x]]
           | seg :: rest => (x :: seg) :: rest
           end
  end.

Definition segments (u : string) : option (list string) :=
  match strip_prefix (String.list_ascii_of_string baseUrl) (String.list_ascii_of_string u) with
  | Some path => Some (map String.string_of_list_ascii (split_on slash path))
  | None => None
  end.

(** How a server following the table routes a request. *)
Definition route_of (r : request) : option route :=
  match segments (url r), method r, body r with
  | Some [""; "decks"], GET, None => Some RListDecks
  | Some [""; "decks"], POST, Some b => Some (RCreateDeck b)
  | Some [""; "decks"; id], DELETE, None => Some (RDeleteDeck id)
  | Some [""; "decks"; id; "cards"], GET, None => Some (RListCards id)
  | Some [""; "cards"], POST, Some b => Some (RCreateCard b)
  | Some [""; "cards"; id], DELETE, None => Some (RDeleteCard id)
  | Some [""; "cards"; id; "review"], POST, Some b => Some (RReview id b)
  | _, _, _ => None
  end.

(** An identifier whose text fits in one path segment. *)
Definition plain_id (i : js_id) : Prop :=
  slash ∉ String.list_ascii_of_string (id_text i).

(** The path [/s1/s2/...]. *)
Fixpoint join_path (segs : list string) : string :=
  match segs with
  | [] => ""
  | seg :: rest => "/" +:+ seg +:+ join_path rest
  end.

(** The method and the path segments of each route of the table. *)
Definition route_method (rt : route) : http_method :=
  match rt with
  | RListDecks | RListCards _ => GET
  | RCreateDeck _ | RCreateCard _ | RReview _ _ => POST
  | RDeleteDeck _ | RDeleteCard _ => DELETE
  end.

Definition route_path (rt : route) : list string :=
  match rt with
  | RListDecks | RCreateDeck _ => [""; "decks"]
  | RDeleteDeck i => [""; "decks"; i]
  | RListCards i => [""; "decks"; i; "cards"]
  | RCreateCard _ => [""; "cards"]
  | RDeleteCard i => [""; "cards"; i]
  | RReview i _ => [""; "cards"; i; "review"]
  end.

(** ** Lemmas *)

Lemma strip_prefix_app p l : strip_prefix p (p ++ l) = Some l.
Proof. induction p as [|x p IH]; simpl; [done|]. by rewrite Ascii.eqb_refl. Qed.

Lemma split_on_no_sep c l : c ∉ l -> split_on c l = [l].
Proof.
  induction l as [|x l IH]; intros Hc; [done|]. simpl.
  destruct (Ascii.eqb_spec x c) as [->|]; [set_solver|].
  rewrite IH by set_solver. done.
Qed.

Lemma split_on_sep c a b : c ∉ a -> split_on c (a ++ c :: b) = a :: split_on c b.
Proof.
  induction a as [|x a IH]; intros Hc; simpl.
  - by rewrite Ascii.eqb_refl.
  - destruct (Ascii.eqb_spec x c) as [->|]; [set_solver|].
    rewrite IH by set_solver. done.
Qed.

Lemma split_on_cons_sep c l : split_on c (c :: l) = [] :: split_on c l.
Proof. simpl. by rewrite Ascii.eqb_refl. Qed.

Lemma split_on_nonempty c l : split_on c l <> [].
Proof.
  induction l as [|x l IH]; simpl; [done|].
  destruct (Ascii.eqb x c); [done|]. by destruct (split_on c l).
Qed.

(** The segments of a path joined by a separator are those of its two
    sides. *)
Lemma length_split_on_sep c a b :
  length (split_on c (a ++ c :: b)) = length (split_on c a) + length (split_on c b).
Proof.
  induction a as [|x a IH]; simpl; [by rewrite Ascii.eqb_refl|].
  destruct (Ascii.eqb x c); simpl; [by rewrite IH|].
  pose proof (split_on_nonempty c (a ++ c :: b)) as H1.
  pose proof (split_on_nonempty c a) as H2.
  destruct (split_on c (a ++ c :: b)), (split_on c a); simpl in *; [done..|lia].
Qed.

(** A request reaches a route only with that route's method and path. *)
Lemma route_of_inv rq rt :
  route_of rq = Some rt ->
  method rq = route_method rt /\ segments (url rq) = Some (route_path rt).
Proof. unfold route_of. intros H. repeat case_match; simplify_eq; auto. Qed.

Lemma split_join_path segs :
  segs <> [] -> Forall (fun seg => slash ∉ String.list_ascii_of_string seg) segs ->
  split_on slash (String.list_ascii_of_string (join_path segs)) =
  [] :: map String.list_ascii_of_string segs.
Proof.
  induction segs as [|seg [|seg' rest] IH]; intros _ Hall; [done| |].
  - inversion Hall as [|? ? Hseg _]; subst. cbn [join_path].
    rewrite string_app_nil_r, string_app_cons, string_app_nil_l. simpl.
    by rewrite split_on_no_sep.
  - inversion Hall as [|? ? Hseg Hrest]; subst.
    specialize (IH ltac:(done) Hrest). revert IH. cbn [join_path].
    rewrite !string_app_cons, !string_app_nil_l. intros IH.
    simpl String.list_ascii_of_string in IH |- *.
    rewrite !list_ascii_of_string_app. rewrite !list_ascii_of_string_app in IH.
    simpl String.list_ascii_of_string. change "/"%char with slash in IH |- *.
    rewrite split_on_cons_sep in IH |- *. rewrite split_on_sep by done.
    injection IH as IH. by rewrite list_ascii_of_string_app, IH.
Qed.

Lemma segments_join segs :
  segs <> [] -> Forall (fun seg => slash ∉ String.list_ascii_of_string seg) segs ->
  segments (baseUrl +:+ join_path segs) = Some ("" :: segs).
Proof.
  intros Hne Hall. unfold segments.
  rewrite list_ascii_of_string_app, strip_prefix_app, split_join_path by done.
  simpl. f_equal. f_equal. rewrite map_map.
  erewrite map_ext; [apply map_id|]. intros x. apply String.string_of_list_ascii_of_string.
Qed.

(** The URLs the request builders concatenate, as paths of segments. *)
Ltac url_norm :=
  unfold decks_endpoint, cards_endpoint; cbn [join_path];
  rewrite ?string_app_cons, ?string_app_nil_l, ?string_app_nil_r; reflexivity.

Lemma loadDecks_url : url loadDecks_request = baseUrl +:+ join_path ["decks"].
Proof. reflexivity. Qed.

Lemma loadCards_url i :
  url (loadCards_request i) = baseUrl +:+ join_path ["decks"; id_text i; "cards"].
Proof. simpl. f_equal; url_norm. Qed.

Lemma apiCreateCard_url i q a :
  url (apiCreateCard_request i q a) = baseUrl +:+ join_path ["cards"].
Proof. reflexivity. Qed.

Lemma apiUpdateCard_url i q :
  url (apiUpdateCard_request i q) = baseUrl +:+ join_path ["cards"; id_text i; "review"].
Proof. simpl. f_equal; url_norm. Qed.

Lemma apiDeleteCard_url i :
  url (apiDeleteCard_request i) = baseUrl +:+ join_path ["cards"; id_text i].
Proof. simpl. f_equal; url_norm. Qed.

Lemma segments_plain segs r :
  url r = baseUrl +:+ join_path segs -> segs <> [] ->
  Forall (fun seg => slash ∉ String.list_ascii_of_string seg) segs ->
  segments (url r) = Some ("" :: segs).
Proof. intros -> Hne Hall. by apply segments_join. Qed.

Ltac seg_plain := apply (bool_decide_eq_true _); vm_compute; reflexivity.
Ltac segs_plain Hi :=
  repeat (apply List.Forall_cons; [cbv beta; first [exact Hi | seg_plain] |]); apply List.Forall_nil.

(** The route each request builder reaches: the fixed URLs route as
    they are, the URLs with an identifier segment when the identifier
    fits in one segment. *)
Lemma route_loadDecks : route_of loadDecks_request = Some RListDecks.
Proof. reflexivity. Qed.

Lemma route_createDeck n d :
  route_of (apiCreateDeck_request n d) =
    Some (RCreateDeck (JObj [("name", JStr n); ("description", JStr d)])).
Proof. reflexivity. Qed.

Lemma route_loadCards i : plain_id i -> route_of (loadCards_request i) = Some (RListCards (id_text i)).
Proof.
  intros Hi. unfold route_of. by rewrite (segments_plain _ _ (loadCards_url i)) by (done || segs_plain Hi).
Qed.

Lemma route_createCard i q a :
  route_of (apiCreateCard_request i q a) =
    Some (RCreateCard (JObj [("deckId", json_of_id i); ("question", JStr q); ("answer", JStr a)])).
Proof. reflexivity. Qed.

Lemma route_updateCard i q :
  plain_id i ->
  route_of (apiUpdateCard_request i q) = Some (RReview (id_text i) (JObj [("quality", JNum q)])).
Proof.
  intros Hi. unfold route_of.
  by rewrite (segments_plain _ _ (apiUpdateCard_url i q)) by (done || segs_plain Hi).
Qed.

Lemma route_deleteCard i : plain_id i -> route_of (apiDeleteCard_request i) = Some (RDeleteCard (id_text i)).
Proof.
  intros Hi. unfold route_of. by rewrite (segments_plain _ _ (apiDeleteCard_url i)) by (done || segs_plain Hi).
Qed.

Lemma route_deleteDeck i : route_of (apiDeleteDeck_request i) = None.
Proof. reflexivity. Qed.

(** ** Properties *)

(** C27: every request the client sends follows the REST table
    of spec section 6: the deck list, deck creation, the cards of a deck,
    card creation, a review and a card deletion reach their routes, with
    the identifier as the path segment and the JSON body the client builds;
    the request of [apiDeleteDeck] matches no route of the table. *)
Theorem client_requests_follow_rest_table (i : js_id) (n d q a : string) (quality : Z) :
  plain_id i ->
  route_of loadDecks_request = Some RListDecks /\
  route_of (apiCreateDeck_request n d) =
    Some (RCreateDeck (JObj [("name", JStr n); ("description", JStr d)])) /\
  route_of (loadCards_request i) = Some (RListCards (id_text i)) /\
  route_of (apiCreateCard_request i q a) =
    Some (RCreateCard (JObj [("deckId", json_of_id i); ("question", JStr q);
                             ("answer", JStr a)])) /\
  route_of (apiUpdateCard_request i quality) =
    Some (RReview (id_text i) (JObj [("quality", JNum quality)])) /\
  route_of (apiDeleteCard_request i) = Some (RDeleteCard (id_text i)) /\
  route_of (apiDeleteDeck_request i) = None.
Proof.
  intros Hi. split_and!;
    auto using route_loadDecks, route_createDeck, route_loadCards, route_createCard,
      route_updateCard, route_deleteCard, route_deleteDeck.
Qed.

Lemma client_requests_follow_rest_table_witness :
  plain_id (IdStr "7") /\
  route_of (loadCards_request (IdStr "7")) = Some (RListCards "7") /\
  route_of (apiDeleteDeck_request (IdStr "7")) = None.
Proof.
  assert (H : plain_id (IdStr "7")) by seg_plain.
  split; [exact H|].
  pose proof (client_requests_follow_rest_table (IdStr "7") "" "" "" "" 0 H) as Hr.
  split; [apply (proj1 (proj2 (proj2 Hr)))|apply (proj2 (proj2 (proj2 (proj2 (proj2 (proj2 Hr))))))].
Defined.

End Rest.
