(* ===== verification/Server.v ===== *)
(** * Server: the client against a server that follows the contract

    The backend is not part of [src/]; this file models it from the spec
    (section 3, the data model and its invariants; section 6, the REST
    table) as a state [server] and a function [serve] answering one request
    at a time, through the routing of [Rest.route_of].  Identifiers are
    made by [mk_id] from a counter, the review schedule is the opaque
    [schedule], and the error texts are parameters: the spec leaves all
    three to the backend.

    [system] runs the client of [App] against that server: a request in
    flight is first answered by the server (in any order), and the answer
    is later delivered to the client (in any order).  [sys_world] forgets
    the server, and [sys_reachable_world] shows that every run of the
    system is a run of the event loop of [App], so every theorem about
    [App.reachable] holds against the server. *)

From S2P Require Import Prelude Schedule Api Rest Render App.
From stdpp Require Import pretty.
#[local] Set Warnings "-clear-no-such-hyp".
Local Open Scope string_scope.

Module Server.
Import Schedule Api Rest Render App.

(** ** The server state and its answers *)

Record server := mkServer {
  sv_decks : list deck;
  sv_cards : list card;
  sv_next : Z
}.

(** A 2xx body, by the shape the table gives each route. *)
Inductive reply_body :=
  | BDecks (l : list deck)
  | BDeck (d : deck)
  | BCards (l : list card)
  | BCard (c : card)
  | BEmpty.

Inductive reply :=
  | ROk (b : reply_body)
  | RErr (text : string).

(** A field of a JSON object body; [JSON.stringify] writes each key once. *)
Definition json_field (b : json) (k : string) : option json :=
  match b with
  | JObj fs => option_map snd (List.find (fun f => String.eqb (fst f) k) fs)
  | _ => None
  end.

Definition json_string (j : option json) : option string :=
  match j with
  | Some (JStr s) => Some s
  | _ => None
  end.

(** The text of an identifier sent in a body, as the server reads it. *)
Definition json_id_text (j : option json) : option string :=
  match j with
  | Some (JNum n) => Some (id_text (IdNum n))
  | Some (JStr s) => Some s
  | _ => None
  end.

(** The path parameter names an entity when it is the text of its id. *)
Definition names (t : string) (i : js_id) : bool := String.eqb (id_text i) t.

Definition find_deck (sv : server) (t : string) : option deck :=
  List.find (fun d => names t (deck_id d)) (sv_decks sv).

Definition find_card (sv : server) (t : string) : option card :=
  List.find (fun c => names t (card_id c)) (sv_cards sv).

(** What the client reads from an answer, for the continuation awaiting
    it: an error status with its text, or the 2xx body of the shape the
    continuation parses; [None] when the body has another shape. *)
Definition client_response (k : cont) (rp : reply) : option (response (cont_payload k)) :=
  match rp with
  | RErr t => Some (HttpError t)
  | ROk b =>
      match k return option (response (cont_payload k)) with
      | KLoadDecks => match b with BDecks l => Some (HttpOk l) | _ => None end
      | KCreateDeck => match b with BDeck d => Some (HttpOk d) | _ => None end
      | KDeleteDeck _ => match b with BEmpty => Some (HttpOk tt) | _ => None end
      | KCreateCard => match b with BCard c => Some (HttpOk c) | _ => None end
      | KLoadCards => match b with BCards l => Some (HttpOk l) | _ => None end
      | KDeleteCard _ => match b with BEmpty => Some (HttpOk tt) | _ => None end
      | KRate => match b with BCard c => Some (HttpOk c) | _ => None end
      end
  end.

(** The requests the request builders of [Api] produce. *)
Inductive client_request : request -> Prop :=
  | cr_loadDecks : client_request loadDecks_request
  | cr_loadCards i : client_request (loadCards_request i)
  | cr_createDeck n d : client_request (apiCreateDeck_request n d)
  | cr_createCard i q a : client_request (apiCreateCard_request i q a)
  | cr_updateCard i q : client_request (apiUpdateCard_request i q)
  | cr_deleteDeck i : client_request (apiDeleteDeck_request i)
  | cr_deleteCard i : client_request (apiDeleteCard_request i).

Definition sent_by_client (p : pending) : Prop := client_request (p_request p).

(** The decks a response hands to the continuation awaiting it. *)
Definition response_decks (k : cont) : response (cont_payload k) -> list deck :=
  match k return response (cont_payload k) -> list deck with
  | KLoadDecks => fun r => match r with HttpOk ds => ds | _ => [] end
  | KCreateDeck => fun r => match r with HttpOk d => [d] | _ => [] end
  | _ => fun _ => []
  end.

(** The decks an answer of the server carries. *)
Definition answer_decks (a : option reply) : list deck :=
  match a with
  | Some (ROk (BDecks l)) => l
  | Some (ROk (BDeck d)) => [d]
  | _ => []
  end.

(** The client, its requests in flight with the server's answer once the
    server has processed them, and the server. *)
Record system := mkSystem {
  sys_app : app;
  sys_flight : list (pending * option reply);
  sys_server : server
}.

Definition unanswered (ps : list pending) : list (pending * option reply) :=
  (fun p => (p, None)) <$> ps.

Definition sys_after (o : outcome) (rest : list (pending * option reply)) (sv : server)
    : system :=
  mkSystem (fst o) (rest ++ unanswered (snd o)) sv.

(** The client's view: its state and its requests in flight. *)
Definition sys_world (S : system) : world := mkWorld (sys_app S) (fst <$> sys_flight S).

(** A schedule for examples: one more repetition, the grade as the new
    interval, the date unchanged. *)
Definition example_schedule (c : card) (q : Z) : card :=
  mkCard (card_id c) (deckId c) (question c) (answer c)
    (Some (or_zero (repetitionCount c) + 1)%Z) (Some q) (nextReviewDate c).

(** A server in the state a counter-based backend reaches after creating
    one deck and one card in it. *)
Definition example_server : server :=
  mkServer [mkDeck (IdNum 0) "Spanish" (Some "") 0]
    [mkCard (IdNum 1) (IdNum 0) "hola" "hello" (Some 0%Z) (Some 0%Z) NoDate] 2.

(** One scheduler decision of a run of the system. *)
Inductive sys_action :=
  | SEvent (e : env) (ev : event)
  | SServe (t : Z) (n : nat)
  | SDeliver (e : env) (n : nat)
  | SFail (e : env) (n : nat) (m : string).

Section Serve.
Context (not_found invalid : string) (mk_id : Z -> js_id) (schedule : card -> Z -> card).

(** The server answering one request at time [t]. *)
Definition serve (t : Z) (sv : server) (rq : request) : server * reply :=
  match route_of rq with
  | Some RListDecks => (sv, ROk (BDecks (sv_decks sv)))
  | Some (RCreateDeck b) =>
      match json_string (json_field b "name") with
      | Some n =>
          let d := mkDeck (mk_id (sv_next sv)) n (json_string (json_field b "description")) t in
          (mkServer (sv_decks sv ++ [d]) (sv_cards sv) (Z.succ (sv_next sv)), ROk (BDeck d))
      | None => (sv, RErr invalid)
      end
  | Some (RDeleteDeck i) =>
      match find_deck sv i with
      | Some _ =>
          (mkServer (filter (fun d => names i (deck_id d) = false) (sv_decks sv))
                    (filter (fun c => names i (deckId c) = false) (sv_cards sv)) (sv_next sv),
           ROk BEmpty)
      | None => (sv, RErr not_found)
      end
  | Some (RListCards i) =>
      match find_deck sv i with
      | Some _ => (sv, ROk (BCards (filter (fun c => names i (deckId c) = true) (sv_cards sv))))
      | None => (sv, RErr not_found)
      end
  | Some (RCreateCard b) =>
      match json_id_text (json_field b "deckId"), json_string (json_field b "question"),
            json_string (json_field b "answer") with
      | Some di, Some q, Some a =>
          match find_deck sv di with
          | Some d =>
              let c := mkCard (mk_id (sv_next sv)) (deck_id d) q a (Some 0%Z) (Some 0%Z) NoDate in
              (mkServer (sv_decks sv) (sv_cards sv ++ [c]) (Z.succ (sv_next sv)), ROk (BCard c))
          | None => (sv, RErr not_found)
          end
      | _, _, _ => (sv, RErr invalid)
      end
  | Some (RDeleteCard i) =>
      match find_card sv i with
      | Some _ =>
          (mkServer (sv_decks sv) (filter (fun c => names i (card_id c) = false) (sv_cards sv))
                    (sv_next sv), ROk BEmpty)
      | None => (sv, RErr not_found)
      end
  | Some (RReview i b) =>
      match find_card sv i, json_field b "quality" with
      | Some c, Some (JNum q) =>
          let c' := schedule c q in
          (mkServer (sv_decks sv)
                    ((fun x => if names i (card_id x) then c' else x) <$> sv_cards sv)
                    (sv_next sv), ROk (BCard c'))
      | Some _, _ => (sv, RErr invalid)
      | None, _ => (sv, RErr not_found)
      end
  | None => (sv, RErr not_found)
  end.

(** One step of the system: a user event; the server processing a
    request in flight at its time [t]; a request failing in the network,
    before it reaches the server or after the server processed it (its
    answer is then lost, and [fetch] rejects all the same); an answer
    reaching the client. *)
Inductive sys_step : system -> system -> Prop :=
  | sys_event e ev S :
      enabled (sys_app S) ev = true ->
      sys_step S (sys_after (handle e ev (sys_app S)) (sys_flight S) (sys_server S))
  | sys_serve t S n p :
      sys_flight S !! n = Some (p, None) ->
      sys_step S (mkSystem (sys_app S)
                    (<[n := (p, Some (snd (serve t (sys_server S) (p_request p))))]>
                       (sys_flight S))
                    (fst (serve t (sys_server S) (p_request p))))
  | sys_network_error e S n p a m :
      sys_flight S !! n = Some (p, a) ->
      sys_step S (sys_after (resume e (p_cont p) (NetworkError m) (sys_app S))
                    (delete n (sys_flight S)) (sys_server S))
  | sys_deliver e S n p rp r :
      sys_flight S !! n = Some (p, Some rp) ->
      client_response (p_cont p) rp = Some r ->
      sys_step S (sys_after (resume e (p_cont p) r (sys_app S))
                    (delete n (sys_flight S)) (sys_server S)).

Definition sys_boot (b : bool) (sv : server) : system :=
  mkSystem (w_app (boot b)) (unanswered (w_pending (boot b))) sv.

Inductive sys_reachable (sv0 : server) : system -> Prop :=
  | sys_reach_boot b : sys_reachable sv0 (sys_boot b sv0)
  | sys_reach_step S S' : sys_reachable sv0 S -> sys_step S S' -> sys_reachable sv0 S'.

(** An executable scheduler for the system. *)
Definition run_sys_action (S : system) (a : sys_action) : option system :=
  match a with
  | SEvent e ev =>
      if enabled (sys_app S) ev
      then Some (sys_after (handle e ev (sys_app S)) (sys_flight S) (sys_server S))
      else None
  | SServe t n =>
      match sys_flight S !! n with
      | Some (p, None) =>
          Some (mkSystem (sys_app S)
                  (<[n := (p, Some (snd (serve t (sys_server S) (p_request p))))]>
                     (sys_flight S))
                  (fst (serve t (sys_server S) (p_request p))))
      | _ => None
      end
  | SDeliver e n =>
      match sys_flight S !! n with
      | Some (p, Some rp) =>
          match client_response (p_cont p) rp with
          | Some r => Some (sys_after (resume e (p_cont p) r (sys_app S))
                              (delete n (sys_flight S)) (sys_server S))
          | None => None
          end
      | _ => None
      end
  | SFail e n m =>
      match sys_flight S !! n with
      | Some (p, _) =>
          Some (sys_after (resume e (p_cont p) (NetworkError m) (sys_app S))
                  (delete n (sys_flight S)) (sys_server S))
      | None => None
      end
  end.

Fixpoint run_sys (S : system) (acts : list sys_action) : option system :=
  match acts with
  | [] => Some S
  | a :: acts' =>
      match run_sys_action S a with
      | Some S' => run_sys S' acts'
      | None => None
      end
  end.

(** An empty server; the client loads the decks, creates deck
    "Spanish", the server processes it and the answer is lost; the user
    clicks again and this time the answer arrives. *)
Definition lost_server : server := mkServer [] [] 1.
Definition lost_create : list sys_action :=
  [SServe 0 0; SDeliver sc_env 0;
   SEvent sc_env (Input "deckName" "Spanish"); SEvent sc_env CreateDeckClick;
   SServe 0 0; SFail sc_env 0 "Failed to fetch";
   SEvent sc_env CreateDeckClick; SServe 0 0; SDeliver sc_env 0].

(** A deck with one card on the server; the client loads the decks and
    opens the deck, opens it again, and deletes the card while the second
    card list is in flight: the server answers the list before the
    deletion, and the list reaches the client after it. *)
Definition sr_deck : deck := mkDeck (IdStr "1") "Spanish" (Some "") 0.
Definition sr_card : card := mkCard (IdStr "c") (IdStr "1") "hola" "hello" None None NoDate.
Definition sr_server : server := mkServer [sr_deck] [sr_card] 2.
Definition sr_stale_list : list sys_action :=
  [SServe 0 0; SDeliver sc_env 0;
   SEvent sc_env (SelectDeckClick "1"); SServe 0 0; SDeliver sc_env 0;
   SEvent sc_env (SelectDeckClick "1"); SServe 0 0;
   SEvent sc_env (DeleteCardClick "c" true); SServe 0 1; SDeliver sc_env 1;
   SDeliver sc_env 0].

(** The invariants of spec section 3 the server keeps: identifiers are
    unique, every card belongs to an existing deck, and every identifier
    was made from a counter value below [sv_next]. *)
(** The server holds deck "1" with card "c"; the page loads and the user
    opens the deck. *)
Definition sr_open_deck : list sys_action :=
  [SServe 0 0; SDeliver sc_env 0; SEvent sc_env (SelectDeckClick "1");
   SServe 0 0; SDeliver sc_env 0].

Definition made_below {A} (f : A -> js_id) (n : Z) (l : list A) : Prop :=
  Forall (fun x => exists k, (k < n)%Z /\ f x = mk_id k) l.

Definition server_ok (sv : server) : Prop :=
  NoDup ((fun d => id_text (deck_id d)) <$> sv_decks sv) /\
  NoDup ((fun c => id_text (card_id c)) <$> sv_cards sv) /\
  Forall (fun c => exists d, d ∈ sv_decks sv /\ deck_id d = deckId c) (sv_cards sv) /\
  made_below deck_id (sv_next sv) (sv_decks sv) /\
  made_below card_id (sv_next sv) (sv_cards sv).

(** ** The client's view of a run *)

Lemma fst_unanswered ps : fst <$> unanswered ps = ps.
Proof. unfold unanswered. rewrite <- list_fmap_compose. apply list_fmap_id. Qed.

Lemma world_eta w : mkWorld (w_app w) (w_pending w) = w.
Proof. by destruct w. Qed.

Lemma sys_world_after o rest sv : sys_world (sys_after o rest sv) = after o (fst <$> rest).
Proof. unfold sys_world, sys_after, after. simpl. by rewrite fmap_app, fst_unanswered. Qed.

Lemma flight_lookup S n p x :
  sys_flight S !! n = Some (p, x) -> w_pending (sys_world S) !! n = Some p.
Proof. intros H. simpl. by rewrite list_lookup_fmap, H. Qed.

(** A step of the system is a step of the event loop, or leaves the
    client's view unchanged (the server answering a request). *)
Lemma sys_step_world S S' :
  sys_step S S' -> sys_world S' = sys_world S \/ step (sys_world S) (sys_world S').
Proof.
  destruct 1 as [e ev S Hen|t S n p Hn|e S n p a m Hn|e S n p rp r Hn Hr].
  - right. rewrite sys_world_after. by apply (step_event e ev (sys_world S)).
  - left. unfold sys_world. simpl. rewrite list_fmap_insert. simpl.
    rewrite list_insert_id; [done|]. by rewrite list_lookup_fmap, Hn.
  - right. rewrite sys_world_after, list_fmap_delete.
    by apply (step_response e (sys_world S) n p (NetworkError m)), (flight_lookup _ _ _ a).
  - right. rewrite sys_world_after, list_fmap_delete.
    by apply (step_response e (sys_world S) n p r), (flight_lookup _ _ _ (Some rp)).
Qed.

(** Every run of the client against a server that follows the
    contract is, as the client sees it, a run of the event loop of [App]:
    whatever the server answers and in whatever order the answers are
    processed and delivered. *)
Theorem sys_reachable_world sv0 S : sys_reachable sv0 S -> reachable (sys_world S).
Proof.
  induction 1 as [b|S S' _ IH Hstep].
  - unfold sys_world, sys_boot. simpl. rewrite fst_unanswered.
    rewrite world_eta. apply reach_boot.
  - destruct (sys_step_world S S' Hstep) as [->|Hw]; [done|].
    by apply (reach_step (sys_world S)).
Qed.

(** ** The requests the client sends *)

Lemma exitReview_sends s : Forall sent_by_client (snd (exitReview s)).
Proof. unfold exitReview, loadCards. case_match; repeat constructor. Qed.

Lemma showNextReviewCard_sends s : Forall sent_by_client (snd (showNextReviewCard s)).
Proof. unfold showNextReviewCard, endReview. case_match; [constructor|apply exitReview_sends]. Qed.

Lemma handle_sends e ev s : Forall sent_by_client (snd (handle e ev s)).
Proof.
  cases_handle ev; repeat case_match; simpl; repeat constructor.
  apply showNextReviewCard_sends.
Qed.

Lemma resume_sends e k r s : Forall sent_by_client (snd (resume e k r s)).
Proof.
  cases_resume k;
    repeat case_match; simpl; repeat constructor; apply showNextReviewCard_sends.
Qed.

(** No request of the client reaches the deck deletion route. *)
Lemma client_request_no_deck_delete rq i :
  client_request rq -> route_of rq <> Some (RDeleteDeck i).
Proof.
  intros Hrq Hr. apply route_of_inv in Hr as [Hm Hs]. simpl in Hm, Hs.
  destruct Hrq; discriminate.
Qed.

Lemma unanswered_sent ps :
  Forall sent_by_client ps -> Forall (fun x => sent_by_client (fst x)) (unanswered ps).
Proof. intros H. by apply Forall_fmap. Qed.

Lemma flight_after_sent (o : outcome) (rest : list (pending * option reply)) :
  Forall (fun x => sent_by_client (fst x)) rest -> Forall sent_by_client (snd o) ->
  Forall (fun x => sent_by_client (fst x)) (rest ++ unanswered (snd o))%list.
Proof. intros H1 H2. apply Forall_app. split; [done|]. by apply unanswered_sent. Qed.

(** Every request in flight in a run was built by the client. *)
Lemma flight_sent sv0 S :
  sys_reachable sv0 S -> Forall (fun x => sent_by_client (fst x)) (sys_flight S).
Proof.
  induction 1 as [b|S S' _ IH Hstep].
  - destruct b; simpl; repeat constructor.
  - destruct Hstep as [e ev S Hen|t S n p Hn|e S n p a m Hn|e S n p rp r Hn Hr]; simpl.
    + apply flight_after_sent; [done|apply handle_sends].
    + apply Forall_insert; [done|]. by apply (Forall_lookup_1 _ _ _ _ IH Hn).
    + apply flight_after_sent; [by apply Forall_delete|apply resume_sends].
    + apply flight_after_sent; [by apply Forall_delete|apply resume_sends].
Qed.

(** The server deletes no deck on a request of the client: its deck
    list only grows. *)
Lemma serve_keeps_decks t sv rq :
  client_request rq -> exists ds, sv_decks (fst (serve t sv rq)) = (sv_decks sv ++ ds)%list.
Proof.
  intros Hrq. unfold serve.
  destruct (route_of rq) as [[|b|i|i|b|i|i b]|] eqn:Hr; simpl;
    try (exists []; by rewrite app_nil_r).
  - destruct (json_string (json_field b "name")); simpl; [by eexists|exists []; by rewrite app_nil_r].
  - by apply client_request_no_deck_delete with (i := i) in Hrq.
  - destruct (find_deck sv i); exists []; by rewrite app_nil_r.
  - destruct (json_id_text (json_field b "deckId")) as [di|],
      (json_string (json_field b "question")), (json_string (json_field b "answer"));
      try (exists []; by rewrite app_nil_r).
    destruct (find_deck sv di); exists []; by rewrite app_nil_r.
  - destruct (find_card sv i); exists []; by rewrite app_nil_r.
  - destruct (find_card sv i), (json_field b "quality") as [[]|]; exists []; by rewrite app_nil_r.
Qed.

(** ** Decks on the client and on the server *)

Lemma exitReview_decks s : decks (fst (exitReview s)) = decks s.
Proof. unfold exitReview, loadCards. by case_match. Qed.

Lemma showNextReviewCard_decks s : decks (fst (showNextReviewCard s)) = decks s.
Proof. unfold showNextReviewCard, endReview. case_match; [done|]. by rewrite exitReview_decks. Qed.

(** No handler changes [decks] before its [await]. *)
Lemma handle_decks e ev s : decks (fst (handle e ev s)) = decks s.
Proof.
  cases_handle ev; repeat case_match; simpl; try done. by rewrite showNextReviewCard_decks.
Qed.

(** A continuation keeps [decks] within the old decks and the decks its
    response carries. *)
Lemma resume_decks e k r s :
  decks (fst (resume e k r s)) ⊆ (decks s ++ response_decks k r)%list.
Proof.
  cases_resume k;
    repeat case_match; simplify_eq/=; rewrite ?showNextReviewCard_decks; try set_solver.
  all: intros d Hd; apply list_elem_of_filter in Hd as [_ Hd]; set_solver.
Qed.

Lemma client_response_decks k rp r :
  client_response k rp = Some r -> response_decks k r ⊆ answer_decks (Some rp).
Proof.
  destruct rp as [b|t]; simpl.
  - destruct k, b; simpl; intros [= <-]; set_solver.
  - intros [= <-]. destruct k; set_solver.
Qed.

Lemma serve_answer_decks t sv rq :
  answer_decks (Some (snd (serve t sv rq))) ⊆ sv_decks (fst (serve t sv rq)).
Proof. unfold serve. repeat case_match; simplify_eq/=; set_solver. Qed.

Lemma serve_decks_grow t sv rq :
  client_request rq -> sv_decks sv ⊆ sv_decks (fst (serve t sv rq)).
Proof. intros Hrq. destruct (serve_keeps_decks t sv rq Hrq) as [ds ->]. set_solver. Qed.

(** The invariant behind [sys_no_ghost_decks]: the decks of the client
    and of every answer in flight are stored on the server. *)
Lemma decks_stored sv0 S :
  sys_reachable sv0 S ->
  decks (sys_app S) ⊆ sv_decks (sys_server S) /\
  Forall (fun x => answer_decks (snd x) ⊆ sv_decks (sys_server S)) (sys_flight S).
Proof.
  induction 1 as [b|S S' HS [Hd Hfl] Hstep].
  - split; [destruct b; simpl; set_solver|]. apply Forall_fmap, Forall_forall. set_solver.
  - pose proof (flight_sent _ _ HS) as Hsent.
    destruct Hstep as [e ev S Hen|t S n p Hn|e S n p a m Hn|e S n p rp r Hn Hr]; simpl.
    + rewrite handle_decks. split; [done|]. apply Forall_app. split; [done|].
      apply Forall_fmap, Forall_forall. set_solver.
    + assert (Hg := serve_decks_grow t (sys_server S) (p_request p)
                      (Forall_lookup_1 _ _ _ _ Hsent Hn)).
      split; [set_solver|]. apply Forall_insert; [|apply serve_answer_decks].
      eapply Forall_impl; [exact Hfl|]. simpl. set_solver.
    + split.
      * etrans; [apply resume_decks|]. destruct (p_cont p); set_solver.
      * apply Forall_app. split; [by apply Forall_delete|].
        apply Forall_fmap, Forall_forall. set_solver.
    + split.
      * etrans; [apply resume_decks|]. apply client_response_decks in Hr.
        pose proof (Forall_lookup_1 _ _ _ _ Hfl Hn) as Hrp. simpl in Hrp. set_solver.
      * apply Forall_app. split; [by apply Forall_delete|].
        apply Forall_fmap, Forall_forall. set_solver.
Qed.

(** ** The server's invariant *)

(** The backend's identifiers are distinct for distinct counter values,
    and its schedule changes neither the id nor the deck of a card. *)
Hypothesis mk_id_inj : forall k l, id_text (mk_id k) = id_text (mk_id l) -> k = l.
Hypothesis schedule_ids : forall c q, card_id (schedule c q) = card_id c /\ deckId (schedule c q) = deckId c.

Lemma made_below_fresh {A} (f : A -> js_id) n l :
  made_below f n l -> id_text (mk_id n) ∉ (fun x => id_text (f x)) <$> l.
Proof.
  unfold made_below. intros Hl (x & Hx & Hin)%list_elem_of_fmap.
  rewrite Forall_forall in Hl. destruct (Hl x Hin) as (k & Hk & Hf).
  rewrite Hf in Hx. apply mk_id_inj in Hx. lia.
Qed.

Lemma made_below_succ {A} (f : A -> js_id) n l :
  made_below f n l -> made_below f (Z.succ n) l.
Proof.
  intros Hl. eapply Forall_impl; [exact Hl|]. intros x (k & Hk & Hf). exists k. split; [lia|done].
Qed.

Lemma made_below_snoc {A} (f : A -> js_id) n l x :
  made_below f n l -> f x = mk_id n -> made_below f (Z.succ n) (l ++ [x])%list.
Proof.
  intros Hl Hx. unfold made_below. apply Forall_app. split; [by apply made_below_succ|].
  repeat constructor. exists n. split; [lia|done].
Qed.

Lemma NoDup_fmap_filter {A B} (f : A -> B) (P : A -> Prop) `{forall x, Decision (P x)} l :
  NoDup (f <$> l) -> NoDup (f <$> filter P l).
Proof. intros Hl. eapply sublist_NoDup; [exact Hl|]. apply fmap_sublist, sublist_filter. Qed.

Lemma NoDup_fmap_snoc {A B} (f : A -> B) l x :
  NoDup (f <$> l) -> f x ∉ f <$> l -> NoDup (f <$> (l ++ [x])%list).
Proof.
  intros Hl Hx. rewrite fmap_app. apply NoDup_app. split; [done|]. split; [|apply NoDup_singleton].
  intros y Hy ->%list_elem_of_singleton. done.
Qed.

Lemma ok_create_deck sv n desc t :
  server_ok sv ->
  server_ok (mkServer (sv_decks sv ++ [mkDeck (mk_id (sv_next sv)) n desc t])%list (sv_cards sv)
               (Z.succ (sv_next sv))).
Proof.
  intros (Hd & Hc & Href & Hbd & Hbc). repeat split; simpl.
  - apply NoDup_fmap_snoc; [done|]. by apply made_below_fresh.
  - done.
  - eapply Forall_impl; [exact Href|]. intros c (d & Hin & Hid). exists d. split; [apply elem_of_app; by left|done].
  - by apply made_below_snoc.
  - by apply made_below_succ.
Qed.

Lemma ok_create_card sv d q a :
  server_ok sv -> d ∈ sv_decks sv ->
  server_ok (mkServer (sv_decks sv)
               (sv_cards sv ++ [mkCard (mk_id (sv_next sv)) (deck_id d) q a (Some 0%Z) (Some 0%Z) NoDate])%list
               (Z.succ (sv_next sv))).
Proof.
  intros (Hd & Hc & Href & Hbd & Hbc) Hin. repeat split; simpl.
  - done.
  - apply NoDup_fmap_snoc; [done|]. by apply made_below_fresh.
  - apply Forall_app. split; [done|]. repeat constructor. by exists d.
  - by apply made_below_succ.
  - by apply made_below_snoc.
Qed.

Lemma names_spec t i : names t i = true <-> id_text i = t.
Proof. apply String.eqb_eq. Qed.

Lemma find_deck_some sv t d :
  find_deck sv t = Some d -> d ∈ sv_decks sv /\ names t (deck_id d) = true.
Proof. intros [Hin Hn]%List.find_some. by rewrite list_elem_of_In. Qed.

Lemma find_card_some sv t c :
  find_card sv t = Some c -> c ∈ sv_cards sv /\ names t (card_id c) = true.
Proof. intros [Hin Hn]%List.find_some. by rewrite list_elem_of_In. Qed.

Lemma ok_delete_deck sv i :
  server_ok sv ->
  server_ok (mkServer (filter (fun d => names i (deck_id d) = false) (sv_decks sv))
               (filter (fun c => names i (deckId c) = false) (sv_cards sv)) (sv_next sv)).
Proof.
  intros (Hd & Hc & Href & Hbd & Hbc). repeat split; simpl.
  - by apply NoDup_fmap_filter.
  - by apply NoDup_fmap_filter.
  - apply Forall_forall. intros c [Hnc Hin]%list_elem_of_filter.
    rewrite Forall_forall in Href. destruct (Href c Hin) as (d & Hd' & Hid).
    exists d. split; [|done]. apply list_elem_of_filter. by rewrite Hid.
  - by apply Forall_filter_weaken.
  - by apply Forall_filter_weaken.
Qed.

Lemma ok_delete_card sv i :
  server_ok sv ->
  server_ok (mkServer (sv_decks sv) (filter (fun c => names i (card_id c) = false) (sv_cards sv))
               (sv_next sv)).
Proof.
  intros (Hd & Hc & Href & Hbd & Hbc). repeat split; simpl;
    [done|by apply NoDup_fmap_filter|by apply Forall_filter_weaken|done|by apply Forall_filter_weaken].
Qed.

Lemma ok_review sv i c q :
  server_ok sv -> c ∈ sv_cards sv -> names i (card_id c) = true ->
  server_ok (mkServer (sv_decks sv)
               ((fun x => if names i (card_id x) then schedule c q else x) <$> sv_cards sv)
               (sv_next sv)).
Proof.
  intros (Hd & Hc & Href & Hbd & Hbc) Hin Hi. destruct (schedule_ids c q) as [Hid Hdk].
  rewrite Forall_forall in Href. unfold made_below in Hbc. rewrite Forall_forall in Hbc.
  repeat split; simpl; [done| | |done|].
  - rewrite <- list_fmap_compose. erewrite list_fmap_ext; [exact Hc|]. intros n x _. simpl.
    destruct (names i (card_id x)) eqn:Hx; [|done].
    apply names_spec in Hx, Hi. by rewrite Hid, Hi, Hx.
  - apply Forall_fmap, Forall_forall. intros x Hx. simpl.
    destruct (names i (card_id x)); [rewrite Hdk|]; auto.
  - apply Forall_fmap, Forall_forall. intros x Hx. simpl.
    destruct (names i (card_id x)); [rewrite Hid|]; auto.
Qed.

Lemma serve_ok t sv rq : server_ok sv -> server_ok (fst (serve t sv rq)).
Proof.
  intros Hok. unfold serve.
  destruct (route_of rq) as [[|b|i|i|b|i|i b]|]; simpl; try done.
  - destruct (json_string (json_field b "name")); [by apply ok_create_deck|done].
  - destruct (find_deck sv i); [by apply ok_delete_deck|done].
  - by destruct (find_deck sv i).
  - destruct (json_id_text (json_field b "deckId")) as [di|],
      (json_string (json_field b "question")), (json_string (json_field b "answer")); try done.
    destruct (find_deck sv di) as [d|] eqn:Hf; [|done].
    apply find_deck_some in Hf as [Hin _]. by apply ok_create_card.
  - destruct (find_card sv i); [by apply ok_delete_card|done].
  - destruct (find_card sv i) as [c|] eqn:Hf; [|done].
    apply find_card_some in Hf as [Hin Hn].
    destruct (json_field b "quality") as [[q| |]|]; [by apply ok_review|done..].
Qed.

(** The server keeps the invariants of spec section 3 in every
    run of the system: deck ids and card ids stay unique, every card
    belongs to an existing deck (deck deletion cascades), and every id
    comes from the counter; whatever the client sends. *)
Theorem sys_server_ok sv0 S :
  server_ok sv0 -> sys_reachable sv0 S -> server_ok (sys_server S).
Proof.
  intros H0. induction 1 as [b|S S' _ IH Hstep]; [done|].
  destruct Hstep; simpl; [done|by apply serve_ok|done|done].
Qed.

Lemma run_sys_action_step S a S' : run_sys_action S a = Some S' -> sys_step S S'.
Proof.
  destruct a as [e ev|t n|e n|e n m]; simpl.
  - destruct (enabled (sys_app S) ev) eqn:He; [|done]. intros [= <-]. by constructor.
  - destruct (sys_flight S !! n) as [[p [rp|]]|] eqn:Hn; [done| |done].
    intros [= <-]. by constructor.
  - destruct (sys_flight S !! n) as [[p [rp|]]|] eqn:Hn; [|done..].
    destruct (client_response (p_cont p) rp) as [r|] eqn:Hr; [|done].
    intros [= <-]. by eapply sys_deliver.
  - destruct (sys_flight S !! n) as [[p a]|] eqn:Hn; [|done].
    intros [= <-]. by eapply sys_network_error.
Qed.

Lemma run_sys_reachable sv0 S acts S' :
  sys_reachable sv0 S -> run_sys S acts = Some S' -> sys_reachable sv0 S'.
Proof.
  revert S. induction acts as [|a acts IH]; intros S HS; simpl; [by intros [= <-]|].
  destruct (run_sys_action S a) as [S1|] eqn:Ha; [|done].
  apply IH. econstructor; [exact HS|]. by apply (run_sys_action_step S a).
Qed.

Lemma run_sys_result S0 acts S :
  run_sys S0 acts = Some S -> S = default S0 (run_sys S0 acts).
Proof. by intros ->. Qed.

Lemma run_sys_is_Some S acts :
  option_map (fun _ => tt) (run_sys S acts) = Some tt -> is_Some (run_sys S acts).
Proof. destruct (run_sys S acts); [by eexists|done]. Qed.

(** C31: the card list can show a card the server has deleted: a
    card list the server produced before a deletion, delivered after
    the deletion's answer, overwrites [cards] and brings the deleted card
    back on screen with its delete button; clicking it again gets a
    not-found error.  Spec section 5 only covers two deletions of the
    same card. *)
Theorem stale_card_list :
  exists S, run_sys (sys_boot true sr_server) sr_stale_list = Some S /\
    sys_reachable sr_server S /\
    map card_id (cards (sys_app S)) = [IdStr "c"] /\
    map row_delete_card_arg (rows_of (cardsList (sys_app S))) = ["c"] /\
    sv_cards (sys_server S) = [] /\
    enabled (sys_app S) (DeleteCardClick "c" true) = true /\
    snd (serve 0 (sys_server S) (apiDeleteCard_request (IdStr "c"))) = RErr not_found.
Proof.
  destruct (run_sys_is_Some (sys_boot true sr_server) sr_stale_list
              ltac:(vm_compute; reflexivity)) as [S HS].
  exists S. split; [done|]. split; [exact (run_sys_reachable _ _ _ _ (sys_reach_boot _ true) HS)|].
  rewrite (run_sys_result _ _ _ HS). repeat split; vm_compute; reflexivity.
Qed.

(** C29: the deck list counts cards the client has not loaded: it is
    rendered when the decks arrive, with the loaded [cards] still empty
    ([getDeckCardCount], lines 472-474, counts the loaded cards only), and
    opening a deck loads its cards without rendering the deck list again.
    Against a server holding deck "1" with one card, once the page has
    loaded, the user has opened the deck and every answer has arrived, the
    card list shows the card while the deck's row counts 0 cards. *)
Theorem deck_count_ignores_server_cards :
  exists S, run_sys (sys_boot true sr_server) sr_open_deck = Some S /\
    sys_reachable sr_server S /\ sys_flight S = [] /\
    map card_id (cards (sys_app S)) = [IdStr "c"] /\
    length (filter (fun c => deckId c = IdStr "1") (sv_cards (sys_server S))) = 1 /\
    map row_count (rows_of (decksList (sys_app S))) = [0].
Proof.
  destruct (run_sys_is_Some (sys_boot true sr_server) sr_open_deck
              ltac:(vm_compute; reflexivity)) as [S HS].
  exists S. split; [done|]. split; [exact (run_sys_reachable _ _ _ _ (sys_reach_boot _ true) HS)|].
  rewrite (run_sys_result _ _ _ HS). repeat split; vm_compute; reflexivity.
Qed.

(** C36: an answer lost after the server processed the request: the user
    creates deck "Spanish", the server stores it, the answer never
    arrives, and [fetch] rejects.  The client reports the failure and
    keeps the form, so the user clicks again: the server now holds two
    decks named "Spanish" and the client shows one.  Spec sections 5 and
    7 treat a failure as terminal for the user action and say nothing of
    a server that committed it. *)
Theorem lost_answer_duplicates_deck :
  exists S, run_sys (sys_boot true lost_server) lost_create = Some S /\
    sys_reachable lost_server S /\
    map name (sv_decks (sys_server S)) = ["Spanish"; "Spanish"] /\
    map name (decks (sys_app S)) = ["Spanish"] /\
    n_message <$> toasts (sys_app S) =
      ["Ошибка создания колоды: Failed to fetch"; "Колода[object Object]создана!"].
Proof.
  destruct (run_sys_is_Some (sys_boot true lost_server) lost_create
              ltac:(vm_compute; reflexivity)) as [S HS].
  exists S. split; [done|]. split; [exact (run_sys_reachable _ _ _ _ (sys_reach_boot _ true) HS)|].
  rewrite (run_sys_result _ _ _ HS). repeat split; vm_compute; reflexivity.
Qed.

(** C34: no ghost decks (spec section 7): against a server that
    follows the contract, every deck the client holds in [decks] is
    stored on the server, in every run and whatever the interleaving;
    a deck enters [decks] only from the server's list or its answer to a
    creation. *)
Theorem sys_no_ghost_decks sv0 S :
  sys_reachable sv0 S -> decks (sys_app S) ⊆ sv_decks (sys_server S).
Proof. intros H. apply (decks_stored _ _ H). Qed.

(** C30: against a server that follows the contract, no deck is
    ever deleted: in every run the server's deck list is the initial one
    with decks appended, because the request [deleteDeck] sends reaches no
    route; the cascade of spec section 3 never happens. *)
Theorem sys_decks_never_deleted sv0 S :
  sys_reachable sv0 S -> exists ds, sv_decks (sys_server S) = (sv_decks sv0 ++ ds)%list.
Proof.
  intros Hreach. induction Hreach as [b|S S' HS IH Hstep].
  - exists []. by rewrite app_nil_r.
  - destruct IH as [ds Hds]. pose proof (flight_sent _ _ HS) as Hfl.
    destruct Hstep as [e ev S Hen|t S n p Hn|e S n p a m Hn|e S n p rp r Hn Hr]; simpl;
      try by exists ds.
    destruct (serve_keeps_decks t (sys_server S) (p_request p)) as [ds' Hds'].
    { by apply (Forall_lookup_1 _ _ _ _ Hfl Hn). }
    exists (ds ++ ds')%list. by rewrite Hds', Hds, app_assoc.
Qed.

End Serve.

(** ** Witnesses *)

Lemma sys_decks_never_deleted_witness :
  sys_reachable "Not Found" "Unprocessable Entity" IdNum example_schedule example_server
    (sys_boot true example_server) /\
  exists ds, sv_decks (sys_server (sys_boot true example_server)) =
               (sv_decks example_server ++ ds)%list.
Proof.
  split; [apply sys_reach_boot|].
  apply (sys_decks_never_deleted "Not Found" "Unprocessable Entity" IdNum example_schedule
           example_server).
  apply sys_reach_boot.
Defined.

Lemma sys_no_ghost_decks_witness :
  sys_reachable "Not Found" "Unprocessable Entity" IdNum example_schedule example_server
    (sys_boot true example_server) /\
  decks (sys_app (sys_boot true example_server)) ⊆
    sv_decks (sys_server (sys_boot true example_server)).
Proof.
  split; [apply sys_reach_boot|].
  apply (sys_no_ghost_decks "Not Found" "Unprocessable Entity" IdNum example_schedule
           example_server). apply sys_reach_boot.
Defined.

End Server.
