(* ===== verification/Panels.v ===== *)
(** * Panels: what the page shows, in every reachable world

    Invariants of the document and of the toasts over the event loop of
    [App], proved once for every interleaving by rule induction on
    [reachable] through [reachable_app_invariant]:
    - the flag [isCardFlipped] always says whether the answer side
      [#cardAnswerSide] is on screen ([flipCard], lines 302-305, toggles
      both; [showNextReviewCard], lines 284-299, resets both);
    - every toast carries the same class name, whatever its type
      ([showNotification], line 416, writes a single-quoted string);
    - while the review panel is on screen, the progress line and the two
      sides of the card show the current card of the queue
      ([showNextReviewCard] writes them each time the index moves);
    - the deck list and the card list are renderings of the current
      [decks] and [cards]: every handler that changes an array re-renders
      its list;
    - the three panels [#noDeckSelected], [#deckSelected] and
      [#reviewMode] ([panels]) are never all hidden nor all shown, and
      every other combination is reached ([reachable_panels]): each
      handler that shows a panel hides another one, but not always the
      one the view it opens excludes.
    And a run the code gets wrong: deleting the selected deck during a
    review and leaving the review shows the card panel of no deck next
    to the no-deck placeholder ([exitReview], lines 321-329, shows
    [#deckSelected] without looking at [currentDeckId]). *)

From S2P Require Import Prelude Schedule Api Render App.
From stdpp Require Import pretty.
Local Open Scope string_scope.

Module Panels.
Import Schedule Api Render App.

(** [isCardFlipped] agrees with the visibility of the answer side. *)
Definition flip_sync (s : app) : Prop := isCardFlipped s = visible s "cardAnswerSide".

(** The class name [showNotification] gives every toast. *)
Definition toast_class : string := "notification notification-${type}".

Definition toasts_classed (s : app) : Prop :=
  Forall (fun n => n_className n = toast_class) (toasts s).

(** While the review panel shows a non-empty queue, [#reviewProgress]
    reads [{index+1}/{length}] of the queue, and the two sides of the
    review card hold the question and the answer of the current card. *)
Definition progress_ok (s : app) : Prop :=
  visible s "reviewMode" = true ->
  (reviewCards s <> [] ->
   textContent (doc s "reviewProgress") =
     pretty (currentReviewIndex s + 1) +:+ "/" +:+ pretty (length (reviewCards s))) /\
  (forall c, reviewCards s !! currentReviewIndex s = Some c ->
   textContent (doc s "cardQuestionSide") = question c /\
   textContent (doc s "cardAnswerSide") = answer c).

(** The two lists on the page are renderings of the current arrays: the
    deck list of [decks] (with the locale and the cards of the moment it
    was rendered), the card list of [cards] (with the clock of that
    moment). *)
Definition views_ok (s : app) : Prop :=
  (exists lD cs, decksList s = fst (updateDecksList lD (decks s) cs)) /\
  (exists t, cardsList s = updateCardsList t (cards s)).

(** Open deck [a] with one due card, start the review, delete deck [a]
    (confirmed, answered with success) and leave the review. *)
Definition sc_delete_during_review : list action :=
  sc_open_review [sc_card1] ++
  [AEvent sc_env (DeleteDeckClick "a" true);
   AResponse sc_env 0 (DUnit (HttpOk tt));
   AEvent sc_env ExitReviewClick].

(** The three panels: [#noDeckSelected], [#deckSelected] (the card
    panel of the selected deck) and [#reviewMode], visible or not. *)
Definition panels (s : app) : bool * bool * bool :=
  (visible s "noDeckSelected", visible s "deckSelected", visible s "reviewMode").

(** The page never shows none of the panels, nor all three. *)
Definition panels_ok (s : app) : Prop :=
  panels s <> (false, false, false) /\ panels s <> (true, true, true).

(** Runs reaching each combination of panels the page can show. *)
Definition sc_deck_open : list action := firstn 3 (sc_open_review [sc_card1]).
Definition sc_select_during_review : list action :=
  sc_open_review [sc_card1] ++ [AEvent sc_env (SelectDeckClick "b")].
Definition sc_delete_in_review : list action :=
  sc_open_review [sc_card1] ++
  [AEvent sc_env (DeleteDeckClick "a" true); AResponse sc_env 0 (DUnit (HttpOk tt))].

(** ** Invariants of the event loop *)

(** A property of the state that holds at boot and that every handler
    and every continuation preserves holds in every reachable world. *)
Lemma reachable_app_invariant (P : app -> Prop) :
  (forall b, P (w_app (boot b))) ->
  (forall e ev s, P s -> P (fst (handle e ev s))) ->
  (forall e k r s, P s -> P (fst (resume e k r s))) ->
  forall w, reachable w -> P (w_app w).
Proof.
  intros Hb Hh Hr w. induction 1 as [b|w w' _ IH Hstep]; [apply Hb|].
  destruct Hstep; simpl; auto.
Qed.

Ltac frame := unfold flip_sync, toasts_classed, progress_ok, visible in *; simplify_eq/=.

(** Closes [views_ok] after a handler: the lists are untouched, or the
    list just rendered is the rendering of the array just set. *)
Ltac views_solve :=
  unfold views_ok in *; simplify_eq/=;
  repeat match goal with
  | H : _ /\ _ |- _ => destruct H
  | H : exists _, _ |- _ => destruct H
  end;
  split; first [ by eauto
               | match goal with H : updateDecksList ?lD ?ds ?cs = _ |- _ =>
                   exists lD, cs; by rewrite H end
               | eexists; reflexivity ].

Lemma notify_flip m t s : flip_sync s -> flip_sync (showNotification m t s).
Proof. by frame. Qed.

Lemma notify_classed m t s : toasts_classed s -> toasts_classed (showNotification m t s).
Proof. frame. intros H. apply Forall_app. split; [done|]. by repeat constructor. Qed.

Lemma exitReview_flip s : flip_sync s -> flip_sync (fst (exitReview s)).
Proof. unfold exitReview, loadCards. case_match; by frame. Qed.

Lemma exitReview_classed s : toasts_classed s -> toasts_classed (fst (exitReview s)).
Proof. unfold exitReview, loadCards. case_match; by frame. Qed.

Lemma showNextReviewCard_flip s : flip_sync s -> flip_sync (fst (showNextReviewCard s)).
Proof.
  unfold showNextReviewCard, endReview. case_match; [by frame|].
  intros Hs. by apply exitReview_flip, notify_flip.
Qed.

Lemma showNextReviewCard_classed s :
  toasts_classed s -> toasts_classed (fst (showNextReviewCard s)).
Proof.
  unfold showNextReviewCard, endReview. case_match; [by frame|].
  intros Hs. by apply exitReview_classed, notify_classed.
Qed.

Lemma startReview_flip e s : flip_sync s -> flip_sync (fst (startReview e s)).
Proof.
  intros Hs. unfold startReview.
  repeat case_match; try (cbn [fst finished]; apply notify_flip; by frame).
  match goal with |- context [showNextReviewCard ?x] =>
    destruct (reviewCards x !! currentReviewIndex x) as [c'|] eqn:Hc end.
  - rewrite (showNextReviewCard_shows _ _ Hc). by frame.
  - exfalso. apply lookup_ge_None in Hc. revert Hc. simpl.
    rewrite length_shuffleArray. simpl. lia.
Qed.

Lemma handle_flip e ev s : flip_sync s -> flip_sync (fst (handle e ev s)).
Proof.
  intros Hs. destruct ev; simpl.
  - unfold createDeck. case_match; auto using notify_flip.
  - unfold createCard. repeat case_match; auto using notify_flip.
  - by apply startReview_flip.
  - by apply exitReview_flip.
  - frame. by rewrite Hs, negb_involutive.
  - unfold rateCard. case_match; cbn [fst finished]; [done|by apply notify_flip].
  - unfold selectDeck, loadCards. case_match; by frame.
  - unfold deleteDeck. by case_match.
  - unfold deleteCard. by case_match.
  - unfold flip_sync, visible. by rewrite set_value_hidden.
Qed.

Lemma handle_classed e ev s : toasts_classed s -> toasts_classed (fst (handle e ev s)).
Proof.
  intros Hs. destruct ev; simpl.
  - unfold createDeck. case_match; cbn [fst finished]; auto using notify_classed.
  - unfold createCard. repeat case_match; cbn [fst finished]; auto using notify_classed.
  - unfold startReview. repeat case_match; cbn [fst finished]; auto using notify_classed.
    apply showNextReviewCard_classed. by frame.
  - by apply exitReview_classed.
  - by frame.
  - unfold rateCard. case_match; cbn [fst finished]; [done|by apply notify_classed].
  - unfold selectDeck, loadCards. case_match; by frame.
  - unfold deleteDeck. by case_match.
  - unfold deleteCard. by case_match.
  - by frame.
Qed.

Lemma resume_flip e k r s : flip_sync s -> flip_sync (fst (resume e k r s)).
Proof.
  intros Hs. cases_resume k; repeat case_match; try by frame.
  apply showNextReviewCard_flip. by frame.
Qed.

Lemma resume_classed e k r s : toasts_classed s -> toasts_classed (fst (resume e k r s)).
Proof.
  intros Hs. cases_resume k; repeat case_match; simplify_eq/=;
    try (apply notify_classed); try by frame.
  apply showNextReviewCard_classed. by frame.
Qed.

Lemma set_value_text f v s x : textContent (doc (set_value f v s) x) = textContent (doc s x).
Proof. simpl. by destruct (String.eqb x f). Qed.

Lemma notify_progress m t s : progress_ok s -> progress_ok (showNotification m t s).
Proof. by frame. Qed.

Lemma exitReview_progress s : progress_ok (fst (exitReview s)).
Proof. intros Hv. by rewrite exitReview_hides in Hv. Qed.

(** [showNextReviewCard] establishes the review display whatever the
    state before: it writes it, or it ends the review. *)
Lemma showNextReviewCard_progress s : progress_ok (fst (showNextReviewCard s)).
Proof.
  destruct (reviewCards s !! currentReviewIndex s) as [c|] eqn:Hc.
  - rewrite (showNextReviewCard_shows _ _ Hc). frame. intros _.
    split; [done|]. intros c' Hc'. rewrite Hc in Hc'. by simplify_eq.
  - unfold showNextReviewCard, endReview. rewrite Hc. apply exitReview_progress.
Qed.

Lemma handle_progress e ev s : progress_ok s -> progress_ok (fst (handle e ev s)).
Proof.
  intros Hs. destruct ev; simpl.
  - unfold createDeck. case_match; cbn [fst finished]; auto using notify_progress.
  - unfold createCard. repeat case_match; cbn [fst finished]; auto using notify_progress.
  - unfold startReview. repeat case_match; cbn [fst finished];
      auto using notify_progress, showNextReviewCard_progress.
    apply notify_progress. by frame.
  - apply exitReview_progress.
  - by frame.
  - unfold rateCard. case_match; cbn [fst finished]; [done|by apply notify_progress].
  - unfold selectDeck, loadCards. case_match; by frame.
  - unfold deleteDeck. by case_match.
  - unfold deleteCard. by case_match.
  - unfold progress_ok, visible. rewrite set_value_hidden, !set_value_text. exact Hs.
Qed.

Lemma resume_progress e k r s : progress_ok s -> progress_ok (fst (resume e k r s)).
Proof.
  intros Hs. cases_resume k; repeat case_match; try by frame.
  apply showNextReviewCard_progress.
Qed.

Lemma showNextReviewCard_views s : views_ok s -> views_ok (fst (showNextReviewCard s)).
Proof.
  intros Hs. unfold showNextReviewCard, endReview, exitReview, loadCards.
  repeat case_match; views_solve.
Qed.

Lemma handle_views e ev s : views_ok s -> views_ok (fst (handle e ev s)).
Proof.
  intros Hs. cases_handle ev; repeat case_match; try views_solve;
    apply showNextReviewCard_views; views_solve.
Qed.

Lemma resume_views e k r s : views_ok s -> views_ok (fst (resume e k r s)).
Proof.
  intros Hs. cases_resume k; repeat case_match; try views_solve.
  apply showNextReviewCard_views. views_solve.
Qed.

(** Closes [panels_ok] after a handler: the panels are untouched, or the
    handler has just shown one panel and hidden another. *)
Ltac panels_solve :=
  unfold panels_ok, panels, visible in *; simplify_eq/=;
  first [done | split; intros [=]; simplify_eq/=; tauto].

Lemma showNextReviewCard_panels s : panels_ok s -> panels_ok (fst (showNextReviewCard s)).
Proof.
  intros Hs. unfold showNextReviewCard, endReview, exitReview, loadCards.
  repeat case_match; panels_solve.
Qed.

Lemma handle_panels e ev s : panels_ok s -> panels_ok (fst (handle e ev s)).
Proof.
  intros Hs. cases_handle ev; repeat case_match; try panels_solve;
    try (apply showNextReviewCard_panels; panels_solve).
  unfold panels_ok, panels, visible. rewrite !set_value_hidden. exact Hs.
Qed.

Lemma resume_panels e k r s : panels_ok s -> panels_ok (fst (resume e k r s)).
Proof.
  intros Hs. cases_resume k; repeat case_match; try panels_solve.
  apply showNextReviewCard_panels. panels_solve.
Qed.

(** ** Properties *)

(** C35: in every reachable world, whatever the order of clicks and
    responses, [isCardFlipped] is true exactly when the answer side is on
    screen (spec section 4.3: [flip()] toggles both, [showCurrent()]
    resets both). *)
Theorem flip_matches_answer_side w :
  reachable w -> isCardFlipped (w_app w) = visible (w_app w) "cardAnswerSide".
Proof.
  apply (reachable_app_invariant flip_sync); [|apply handle_flip|apply resume_flip].
  intros []; reflexivity.
Qed.

(** In every reachable world every toast shown has the class
    name [notification notification-${type}] (the text as written), so
    no stylesheet rule for a type-specific class ever applies; only the
    inline background colour tells success from error. *)
Theorem toasts_share_one_class w :
  reachable w -> Forall (fun n => n_className n = toast_class) (toasts (w_app w)).
Proof.
  apply (reachable_app_invariant toasts_classed); [|apply handle_classed|apply resume_classed].
  intros []; constructor.
Qed.

(** Deleting the selected deck during a review and then leaving
    the review shows the card panel with no deck selected, next to the
    no-deck placeholder; the deleted deck's cards stay loaded and the
    start button is live. *)
Theorem exit_after_deleting_selected_deck :
  exists w, run_trace (boot true) sc_delete_during_review = Some w /\ reachable w /\
    currentDeckId (w_app w) = None /\
    visible (w_app w) "deckSelected" = true /\
    visible (w_app w) "noDeckSelected" = true /\
    map card_id (cards (w_app w)) = [IdStr "c1"] /\
    enabled (w_app w) StartReviewClick = true.
Proof. scenario sc_delete_during_review. repeat split; vm_compute; reflexivity. Qed.

(** Reaches a combination of panels by a run from the boot world. *)
Ltac reach acts :=
  let w := fresh "w" in let Hrun := fresh "Hrun" in
  destruct (run_trace_is_Some (boot true) acts ltac:(vm_compute; reflexivity)) as [w Hrun];
  exists w; split; [exact (boot_trace_reachable _ _ _ Hrun)|];
  rewrite (world_after_spec _ _ Hrun); vm_compute; reflexivity.

(** C37: the panels as a state machine.  In every reachable world at
    least one of the three panels is on screen and never all three; and
    each of the six other combinations is reached by some run.  Three of
    them mix views the spec keeps apart: a deck opened during a review
    shows its card panel beside the review ([selectDeck], lines 135-136,
    leaves [#reviewMode] alone); deleting the selected deck during a
    review shows the no-deck placeholder beside the review (lines
    152-153); leaving that review shows the card panel of no deck beside
    the placeholder (lines 322-323). *)
Theorem reachable_panels :
  (forall w, reachable w -> panels_ok (w_app w)) /\
  (forall v, v <> (false, false, false) -> v <> (true, true, true) ->
   exists w, reachable w /\ panels (w_app w) = v).
Proof.
  split.
  - apply (reachable_app_invariant panels_ok); [|apply handle_panels|apply resume_panels].
    intros []; split; vm_compute; discriminate.
  - intros [[[] []] []] H1 H2; try congruence.
    + reach sc_delete_during_review.
    + reach sc_delete_in_review.
    + reach (@nil action).
    + reach sc_select_during_review.
    + reach sc_deck_open.
    + reach (sc_open_review [sc_card1]).
Qed.

(** C38: in every reachable world, while the review panel is on
    screen, the progress line reads [{currentReviewIndex+1}/{length}] of
    a non-empty queue, and the two sides of the review card hold the
    question and the answer of the current card (spec section 4.3,
    [showCurrent()]), whatever the interleaving of grades, responses and
    restarts. *)
Theorem review_progress_shown w :
  reachable w -> visible (w_app w) "reviewMode" = true ->
  (reviewCards (w_app w) <> [] ->
   textContent (doc (w_app w) "reviewProgress") =
     pretty (currentReviewIndex (w_app w) + 1) +:+ "/" +:+
     pretty (length (reviewCards (w_app w)))) /\
  (forall c, reviewCards (w_app w) !! currentReviewIndex (w_app w) = Some c ->
   textContent (doc (w_app w) "cardQuestionSide") = question c /\
   textContent (doc (w_app w) "cardAnswerSide") = answer c).
Proof.
  revert w. apply (reachable_app_invariant progress_ok);
    [|apply handle_progress|apply resume_progress].
  intros []; unfold progress_ok; vm_compute; intros H; discriminate H.
Qed.

(** Every change of [decks] or [cards] is followed by a
    re-render (spec section 4.2): in every reachable world the deck list
    is the rendering of the current [decks] (with the cards of the moment
    it was rendered, hence the stale counts), and the card list is the
    rendering of the current [cards]; so the delete buttons of the card
    list are those of the loaded cards. *)
Theorem lists_render_current_arrays w :
  reachable w ->
  (exists lD cs, decksList (w_app w) = fst (updateDecksList lD (decks (w_app w)) cs)) /\
  (exists t, cardsList (w_app w) = updateCardsList t (cards (w_app w))).
Proof.
  revert w. apply (reachable_app_invariant views_ok); [|apply handle_views|apply resume_views].
  intros b. split; [exists (fun _ => ""), []|exists 0%Z]; by destruct b.
Qed.

Lemma flip_matches_answer_side_witness :
  reachable (boot true) /\
  isCardFlipped (w_app (boot true)) = visible (w_app (boot true)) "cardAnswerSide".
Proof.
  split; [apply reach_boot|]. apply flip_matches_answer_side. apply reach_boot.
Defined.

Lemma review_progress_shown_witness :
  reachable (world_after (sc_open_review [sc_card1])) /\
  visible (w_app (world_after (sc_open_review [sc_card1]))) "reviewMode" = true /\
  (forall c, reviewCards (w_app (world_after (sc_open_review [sc_card1])))
               !! currentReviewIndex (w_app (world_after (sc_open_review [sc_card1]))) = Some c ->
   textContent (doc (w_app (world_after (sc_open_review [sc_card1]))) "cardQuestionSide") =
     question c /\
   textContent (doc (w_app (world_after (sc_open_review [sc_card1]))) "cardAnswerSide") =
     answer c).
Proof.
  destruct (run_trace_is_Some (boot true) (sc_open_review [sc_card1])
              ltac:(vm_compute; reflexivity)) as [w Hw].
  pose proof (boot_trace_reachable _ _ _ Hw) as Hr.
  rewrite (world_after_spec _ _ Hw) in Hr.
  assert (Hv : visible (w_app (world_after (sc_open_review [sc_card1]))) "reviewMode" = true)
    by (vm_compute; reflexivity).
  split; [exact Hr|]. split; [exact Hv|].
  exact (proj2 (review_progress_shown _ Hr Hv)).
Defined.

(** The card panel of no deck beside the placeholder is reached. *)
Lemma reachable_panels_witness :
  exists w, reachable w /\ panels (w_app w) = (true, true, false).
Proof. apply (proj2 reachable_panels); discriminate. Defined.

End Panels.
