(* ===== verification/Protocol.v ===== *)
(** * Protocol: the client and the contract server always understand each other

    The typing of the exchange between [App] and [Server]: every request
    the client leaves in flight is paired with the continuation its
    request builder awaits ([wt_pending]), and every route a request of a
    builder can reach answers with a body of the shape that continuation
    parses ([route_shape]).  Hence no answer of a server that follows the
    contract is ever undeliverable ([sys_flight_typed]), and without user
    input every run settles: the server answers and the client receives
    every request in flight, including the card reloads the answers start
    ([sys_settles], by the measure [settle_measure]). *)

From S2P Require Import Prelude Schedule Api Rest Render App Server.
From stdpp Require Import relations.
#[local] Set Warnings "-clear-no-such-hyp".
Local Open Scope string_scope.

Module Protocol.
Import Schedule Api Rest Render App Server.

(** The request each continuation awaits, as the handlers pair them. *)
Definition wt_pending (p : pending) : Prop :=
  match p_cont p with
  | KLoadDecks => p_request p = loadDecks_request
  | KCreateDeck => exists n d, p_request p = apiCreateDeck_request n d
  | KDeleteDeck i => p_request p = apiDeleteDeck_request i
  | KCreateCard => exists i q a, p_request p = apiCreateCard_request i q a
  | KLoadCards => exists i, p_request p = loadCards_request i
  | KDeleteCard i => p_request p = apiDeleteCard_request i
  | KRate => exists i q, p_request p = apiUpdateCard_request i q
  end.

(** The 2xx body each route of the table answers with (spec section 6,
    Response column). *)
Definition route_shape (rt : route) (b : reply_body) : Prop :=
  match rt, b with
  | RListDecks, BDecks _ | RCreateDeck _, BDeck _ | RDeleteDeck _, BEmpty
  | RListCards _, BCards _ | RCreateCard _, BCard _ | RDeleteCard _, BEmpty
  | RReview _ _, BCard _ => True
  | _, _ => False
  end.

(** An answer fits the continuation awaiting it when the client can read
    it; an item in flight is typed when its request and continuation are
    paired and its answer, if any, fits. *)
Definition answer_fits (p : pending) (a : option reply) : Prop :=
  match a with
  | Some rp => is_Some (client_response (p_cont p) rp)
  | None => True
  end.

Definition typed_item (x : pending * option reply) : Prop :=
  wt_pending (fst x) /\ answer_fits (fst x) (snd x).

(** Responses still owed by an item in flight: twice the weight of its
    continuation ([App.cont_weight]), plus one while the server has not
    answered it. *)
Definition item_weight (x : pending * option reply) : nat :=
  2 * cont_weight (p_cont (fst x)) + match snd x with None => 1 | Some _ => 0 end.

Definition settle_measure (fl : list (pending * option reply)) : nat :=
  list_sum (map item_weight fl).

Section Settle.
Context (not_found invalid : string) (mk_id : Z -> js_id) (schedule : card -> Z -> card).
Context (e : env) (t : Z).

(** A step of the system without user input: the server answers the
    request at index [n] at time [t], or the answer at index [n] reaches
    the client. *)
Inductive sys_auto : system -> system -> Prop :=
  | auto_serve S n p :
      sys_flight S !! n = Some (p, None) ->
      sys_auto S (mkSystem (sys_app S)
                    (<[n := (p, Some (snd (serve not_found invalid mk_id schedule t
                                             (sys_server S) (p_request p))))]>
                       (sys_flight S))
                    (fst (serve not_found invalid mk_id schedule t (sys_server S) (p_request p))))
  | auto_deliver S n p rp r :
      sys_flight S !! n = Some (p, Some rp) ->
      client_response (p_cont p) rp = Some r ->
      sys_auto S (sys_after (resume e (p_cont p) r (sys_app S))
                    (delete n (sys_flight S)) (sys_server S)).

End Settle.

(** The boot system of [Server.example_server] after the server answered
    the deck list. *)
Definition example_answered : system :=
  default (sys_boot true example_server)
    (run_sys "Not Found" "Unprocessable Entity" IdNum example_schedule
       (sys_boot true example_server) [SServe 0 0]).

(** ** Requests and continuations are paired *)

Lemma exitReview_wt s : Forall wt_pending (snd (exitReview s)).
Proof.
  unfold exitReview, loadCards. case_match; repeat constructor. unfold wt_pending. by eexists.
Qed.

Lemma showNextReviewCard_wt s : Forall wt_pending (snd (showNextReviewCard s)).
Proof. unfold showNextReviewCard, endReview. case_match; [constructor|apply exitReview_wt]. Qed.

Lemma handle_wt e ev s : Forall wt_pending (snd (handle e ev s)).
Proof.
  cases_handle ev; repeat case_match; simpl; repeat constructor;
    try (unfold wt_pending; simpl; by eauto).
  apply showNextReviewCard_wt.
Qed.

Lemma resume_wt e k r s : Forall wt_pending (snd (resume e k r s)).
Proof.
  cases_resume k; repeat case_match; simpl; repeat constructor;
    try (unfold wt_pending; simpl; by eauto).
  apply showNextReviewCard_wt.
Qed.

(** ** The routes a request of the client can reach *)

(** The path of a card list has the segment ["decks"], then at least one
    segment for the identifier and the suffix. *)
Lemma segments_loadCards i :
  exists tl, segments (url (loadCards_request i)) = Some ("" :: "decks" :: tl) /\ tl <> [].
Proof.
  unfold segments. simpl url. rewrite list_ascii_of_string_app, strip_prefix_app.
  unfold decks_endpoint. rewrite !string_app_cons. simpl String.list_ascii_of_string.
  rewrite string_app_nil_l. simpl. eexists. split; [reflexivity|].
  intros Hn%map_eq_nil. by apply split_on_nonempty in Hn.
Qed.

(** The answer of the server has the shape of the route the request
    reaches, or is an error. *)
Lemma serve_shape nf inv mk sch t sv rq rt :
  route_of rq = Some rt ->
  match snd (serve nf inv mk sch t sv rq) with
  | ROk b => route_shape rt b
  | RErr _ => True
  end.
Proof.
  intros H. unfold serve. rewrite H. destruct rt; repeat case_match; simplify_eq/=; done.
Qed.

Lemma serve_no_route nf inv mk sch t sv rq :
  route_of rq = None -> snd (serve nf inv mk sch t sv rq) = RErr nf.
Proof. intros H. unfold serve. by rewrite H. Qed.

(** Every route a paired request can reach answers with a body its
    continuation parses. *)
Lemma wt_route_accepts p rt b :
  wt_pending p -> route_of (p_request p) = Some rt -> route_shape rt b ->
  is_Some (client_response (p_cont p) (ROk b)).
Proof.
  destruct p as [rq k]. unfold wt_pending. simpl.
  intros Hwt Hr Hb. apply route_of_inv in Hr as [Hm Hs].
  destruct k; simpl in Hwt;
    repeat match goal with H : exists _, _ |- _ => destruct H end; subst rq;
    destruct rt; simpl in Hm, Hs; try discriminate; destruct b; simpl in Hb; try done;
    try by eexists.
  match goal with x : js_id |- _ =>
    destruct (segments_loadCards x) as (tl & Htl & Hne); simpl in Htl end.
  rewrite Htl in Hs. by simplify_eq.
Qed.

Section Typing.
Context (nf inv : string) (mk : Z -> js_id) (sch : card -> Z -> card).

Lemma serve_fits t sv p :
  wt_pending p -> answer_fits p (Some (snd (serve nf inv mk sch t sv (p_request p)))).
Proof.
  intros Hwt. simpl. destruct (route_of (p_request p)) as [rt|] eqn:Hr.
  - pose proof (serve_shape nf inv mk sch t sv _ _ Hr) as Hs.
    destruct (snd (serve nf inv mk sch t sv (p_request p))) as [b|txt];
      [by eapply wt_route_accepts|by eexists].
  - rewrite serve_no_route by done. by eexists.
Qed.

Lemma unanswered_typed ps : Forall wt_pending ps -> Forall typed_item (unanswered ps).
Proof. intros H. apply Forall_fmap. eapply Forall_impl; [exact H|]. by split. Qed.

Lemma flight_after_typed (o : outcome) (rest : list (pending * option reply)) :
  Forall typed_item rest -> Forall wt_pending (snd o) ->
  Forall typed_item (rest ++ unanswered (snd o))%list.
Proof. intros H1 H2. apply Forall_app. split; [done|]. by apply unanswered_typed. Qed.

(** The typing invariant of the flight, by rule induction on
    [sys_reachable]. *)
Lemma flight_typed sv0 S :
  sys_reachable nf inv mk sch sv0 S -> Forall typed_item (sys_flight S).
Proof.
  induction 1 as [b|S S' _ IH Hstep].
  - destruct b; simpl; repeat constructor.
  - destruct Hstep as [e ev S Hen|t S n p Hn|e S n p a m Hn|e S n p rp r Hn Hr]; simpl.
    + apply flight_after_typed; [done|apply handle_wt].
    + apply Forall_insert; [done|]. destruct (Forall_lookup_1 _ _ _ _ IH Hn) as [Hwt _].
      split; [done|]. by apply serve_fits.
    + apply flight_after_typed; [by apply Forall_delete|apply resume_wt].
    + apply flight_after_typed; [by apply Forall_delete|apply resume_wt].
Qed.

(** C12: the client and a server that follows the contract always
    understand each other: in every run, every request in flight is the
    request its continuation awaits, and every answer the server gave has
    the shape that continuation parses, so no answer is ever
    undeliverable. *)
Theorem sys_answers_fit sv0 S n p a :
  sys_reachable nf inv mk sch sv0 S -> sys_flight S !! n = Some (p, a) ->
  wt_pending p /\ (forall rp, a = Some rp -> exists r, client_response (p_cont p) rp = Some r).
Proof.
  intros HS Hn. destruct (Forall_lookup_1 _ _ _ _ (flight_typed _ _ HS) Hn) as [Hwt Hfit].
  split; [done|]. intros rp ->. exact Hfit.
Qed.

End Typing.

(** ** Settling without user input *)

Lemma settle_measure_app l1 l2 :
  settle_measure (l1 ++ l2)%list = settle_measure l1 + settle_measure l2.
Proof. unfold settle_measure. by rewrite map_app, list_sum_app. Qed.

Lemma settle_measure_reloads ps :
  Forall (fun p => p_cont p = KLoadCards) ps -> settle_measure (unanswered ps) = 3 * length ps.
Proof.
  induction 1 as [|p ps Hp _ IH]; [done|].
  unfold settle_measure in *. simpl. rewrite IH. unfold item_weight. simpl. rewrite Hp.
  simpl. lia.
Qed.

Lemma item_weight_pos x : 0 < item_weight x.
Proof. unfold item_weight. destruct (p_cont (fst x)); simpl; lia. Qed.

Lemma cont_weight_cases k : (k = KLoadCards /\ cont_weight k = 1) \/ cont_weight k = 2.
Proof. destruct k; auto. Qed.

(** Delivering an answer lowers the measure, whatever the continuation
    starts ([App.resume_spawns]: at most one card reload). *)
Lemma settle_measure_deliver e k r s p rp rest :
  p_cont p = k ->
  settle_measure (rest ++ unanswered (snd (resume e k r s)))%list <
  settle_measure ((p, Some rp) :: rest).
Proof.
  intros Hk. destruct (resume_spawns e k r s) as (Hall & Hlen & Hload).
  rewrite settle_measure_app, settle_measure_reloads by done.
  change (settle_measure ((p, Some rp) :: rest))
    with (2 * cont_weight (p_cont p) + 0 + settle_measure rest).
  rewrite Hk. destruct (cont_weight_cases k) as [[-> Hw]|Hw]; rewrite Hw.
  - rewrite Hload by done. simpl. lia.
  - lia.
Qed.

Section Liveness.
Context (nf inv : string) (mk : Z -> js_id) (sch : card -> Z -> card) (e : env) (t : Z).

Lemma auto_step_sys S S' : sys_auto nf inv mk sch e t S S' -> sys_step nf inv mk sch S S'.
Proof. destruct 1; [by constructor|by eapply sys_deliver]. Qed.

Lemma settles_within n sv0 S :
  sys_reachable nf inv mk sch sv0 S -> settle_measure (sys_flight S) <= n ->
  exists S', rtc (sys_auto nf inv mk sch e t) S S' /\ sys_flight S' = [] /\
             sys_reachable nf inv mk sch sv0 S'.
Proof.
  revert S. induction n as [|n IH]; intros S HS Hm;
    (destruct (sys_flight S) as [|[p [rp|]] rest] eqn:Hfl;
      [exists S; split_and!; [apply rtc_refl|exact Hfl|exact HS]|..]).
  - unfold settle_measure in Hm. simpl in Hm. pose proof (item_weight_pos (p, Some rp)). lia.
  - unfold settle_measure in Hm. simpl in Hm. pose proof (item_weight_pos (p, None)). lia.
  - pose proof (flight_typed nf inv mk sch sv0 S HS) as Hty. rewrite Hfl in Hty.
    destruct (Forall_inv Hty) as [_ [r Hr]].
    assert (Hstep : sys_auto nf inv mk sch e t S
              (sys_after (resume e (p_cont p) r (sys_app S)) rest (sys_server S))).
    { replace rest with (delete 0 (sys_flight S)) by (by rewrite Hfl).
      eapply auto_deliver; [by rewrite Hfl|exact Hr]. }
    destruct (IH _ (sys_reach_step _ _ _ _ _ _ _ HS (auto_step_sys _ _ Hstep))) as (S' & ? & ? & ?).
    { unfold sys_after. cbn [sys_flight].
      pose proof (settle_measure_deliver e _ r (sys_app S) p rp rest eq_refl).
      simpl in *. lia. }
    exists S'. split; [by eapply rtc_l|done].
  - set (rq := p_request p).
    assert (Hstep : sys_auto nf inv mk sch e t S
              (mkSystem (sys_app S)
                 ((p, Some (snd (serve nf inv mk sch t (sys_server S) rq))) :: rest)
                 (fst (serve nf inv mk sch t (sys_server S) rq)))).
    { replace ((p, Some _) :: rest) with
        (<[0 := (p, Some (snd (serve nf inv mk sch t (sys_server S) rq)))]> (sys_flight S))
        by (by rewrite Hfl).
      apply auto_serve. by rewrite Hfl. }
    destruct (IH _ (sys_reach_step _ _ _ _ _ _ _ HS (auto_step_sys _ _ Hstep))) as (S' & ? & ? & ?).
    { unfold settle_measure, item_weight in *. simpl in *. lia. }
    exists S'. split; [by eapply rtc_l|done].
Qed.

(** C40: liveness.  From every state of every run against a server
    that follows the contract, the system can settle without any user
    input: the server answers each request in flight, each answer reaches
    the client (none is undeliverable, C12), and the card reloads those
    answers start are answered in turn, until nothing is in flight. *)
Theorem sys_settles sv0 S :
  sys_reachable nf inv mk sch sv0 S ->
  exists S', rtc (sys_auto nf inv mk sch e t) S S' /\ sys_flight S' = [] /\
             sys_reachable nf inv mk sch sv0 S'.
Proof. intros HS. by apply (settles_within (settle_measure (sys_flight S))). Qed.

End Liveness.

(** ** Witnesses *)

Lemma example_answered_reachable :
  sys_reachable "Not Found" "Unprocessable Entity" IdNum example_schedule example_server
    example_answered.
Proof.
  destruct (run_sys_is_Some "Not Found" "Unprocessable Entity" IdNum example_schedule
              (sys_boot true example_server) [SServe 0 0] ltac:(vm_compute; reflexivity))
    as [S HS].
  unfold example_answered. rewrite HS. simpl.
  exact (run_sys_reachable _ _ _ _ _ _ _ _ (sys_reach_boot _ _ _ _ _ true) HS).
Qed.

Lemma sys_answers_fit_witness :
  sys_reachable "Not Found" "Unprocessable Entity" IdNum example_schedule example_server
    example_answered /\
  sys_flight example_answered !! 0 =
    Some (mkPending loadDecks_request KLoadDecks,
          Some (ROk (BDecks (sv_decks example_server)))) /\
  exists r, client_response KLoadDecks (ROk (BDecks (sv_decks example_server))) = Some r.
Proof.
  assert (Hn : sys_flight example_answered !! 0 =
                 Some (mkPending loadDecks_request KLoadDecks,
                       Some (ROk (BDecks (sv_decks example_server)))))
    by (vm_compute; reflexivity).
  split; [exact example_answered_reachable|]. split; [exact Hn|].
  apply (proj2 (sys_answers_fit "Not Found" "Unprocessable Entity" IdNum example_schedule
                  example_server example_answered 0 _ _ example_answered_reachable Hn)).
  reflexivity.
Defined.

Lemma sys_settles_witness :
  sys_reachable "Not Found" "Unprocessable Entity" IdNum example_schedule example_server
    example_answered /\
  exists S', rtc (sys_auto "Not Found" "Unprocessable Entity" IdNum example_schedule sc_env 0)
               example_answered S' /\ sys_flight S' = [] /\
             sys_reachable "Not Found" "Unprocessable Entity" IdNum example_schedule
               example_server S'.
Proof.
  split; [exact example_answered_reachable|].
  apply (sys_settles "Not Found" "Unprocessable Entity" IdNum example_schedule sc_env 0
           example_server example_answered example_answered_reachable).
Defined.

End Protocol.
