(* ===== verification/Notify.v ===== *)
(** * Notify: the toasts on the page and their timers

    [showNotification] (lines 413-449 of [src/web/js/script.js]) appends
    a toast to [document.body] and arms a timer: 3000 ms later the toast
    gets the [slideOut] animation and a second timer, 300 ms later it is
    detached if it still has a parent.  [App] keeps the sequence of toasts
    shown ([toasts]); this file models what is on the page.

    - State: [page] holds the toasts attached to the body, in order, the
      timers armed, the clock in milliseconds, and the next object
      identity ([toast_id] stands for the element the two closures
      capture).
    - Operations: [showNotification_dom] (the element of
      [App.notification_of], then [setTimeout]); [run_callback], the two
      closures; [insert_timer], the browser's timer list ordered by
      deadline.
    - Two schedulers: [page_step], where the browser may run any timer
      whose deadline has passed, late and in any order; and [advance],
      where each timer runs at its deadline, in deadline order. *)

From S2P Require Import Prelude App.
From stdpp Require Import relations sorting.
Local Open Scope string_scope.
Local Open Scope list_scope.

Module Notify.
Import App.

Definition slideIn : string := "slideIn 0.3s ease".
Definition slideOut : string := "slideOut 0.3s ease".

(** A toast attached to [document.body]: the element's identity, the
    notification it shows, and its [style.animation]. *)
Record toast := mkToast {
  toast_id : nat;
  toast_note : notification;
  toast_animation : string
}.

(** The two closures of lines 441-448, each capturing its element. *)
Inductive callback :=
  | SlideOut (id : nat)
  | RemoveToast (id : nat).

Record timer := mkTimer {
  t_due : Z;
  t_cb : callback
}.

Record page := mkPage {
  body : list toast;
  timers : list timer;
  clock : Z;
  next_id : nat
}.

Definition initial_page (c0 : Z) : page := mkPage [] [] c0 0.

Definition cb_id (c : callback) : nat :=
  match c with SlideOut i | RemoveToast i => i end.

(** The browser's list of timers, ordered by deadline; a new timer goes
    after those with the same deadline, which therefore run first. *)
Fixpoint insert_timer (tm : timer) (q : list timer) : list timer :=
  match q with
  | [] => [tm]
  | x :: q' => if Z.ltb (t_due tm) (t_due x) then tm :: q else x :: insert_timer tm q'
  end.

(** [setTimeout(f, delay)]. *)
Definition setTimeout (delay : Z) (cb : callback) (p : page) : page :=
  mkPage (body p) (insert_timer (mkTimer (clock p + delay) cb) (timers p))
    (clock p) (next_id p).

(** [showNotification(message, type)], lines 413-449: the element is
    created (415-436), appended to the body (438) with its [slideIn]
    animation (427), and the first timer armed (441). *)
Definition showNotification_dom (message type_ : string) (p : page) : page :=
  let i := next_id p in
  setTimeout 3000 (SlideOut i)
    (mkPage (body p ++ [mkToast i (notification_of message type_) slideIn])
       (timers p) (clock p) (S i)).

Definition set_animation (i : nat) (a : string) (b : list toast) : list toast :=
  map (fun x => if Nat.eqb (toast_id x) i then mkToast i (toast_note x) a else x) b.

(** [notification.parentNode]: the element is attached to the body. *)
Definition attached (i : nat) (b : list toast) : bool :=
  existsb (fun x => Nat.eqb (toast_id x) i) b.

(** The closures: lines 442-443 set the animation and arm the second
    timer; lines 444-446 detach the element if it has a parent. *)
Definition run_callback (cb : callback) (p : page) : page :=
  match cb with
  | SlideOut i =>
      setTimeout 300 (RemoveToast i)
        (mkPage (set_animation i slideOut (body p)) (timers p) (clock p) (next_id p))
  | RemoveToast i =>
      if attached i (body p)
      then mkPage (List.filter (fun x => negb (Nat.eqb (toast_id x) i)) (body p))
             (timers p) (clock p) (next_id p)
      else p
  end.

(** The browser's event loop on the toasts: a handler shows a toast, time
    passes, or a timer whose deadline has passed runs, whichever one. *)
Inductive page_step : page -> page -> Prop :=
  | ps_show m ty p : page_step p (showNotification_dom m ty p)
  | ps_tick p c : (clock p <= c)%Z -> page_step p (mkPage (body p) (timers p) c (next_id p))
  | ps_fire p pre tm post :
      timers p = pre ++ tm :: post -> (t_due tm <= clock p)%Z ->
      page_step p (run_callback (t_cb tm) (mkPage (body p) (pre ++ post) (clock p) (next_id p))).

Definition page_reachable (c0 : Z) : page -> Prop := rtc page_step (initial_page c0).

(** Timers run on time: up to [T], the earliest timer runs at its
    deadline, until none is due.  Each run lowers [timer_weight] (a
    [SlideOut] arms one [RemoveToast]), so [timer_weight] is enough fuel. *)
Definition cb_weight (c : callback) : nat :=
  match c with SlideOut _ => 2 | RemoveToast _ => 1 end.

Definition timer_weight (p : page) : nat := list_sum (map (fun tm => cb_weight (t_cb tm)) (timers p)).

Definition set_clock (c : Z) (p : page) : page := mkPage (body p) (timers p) c (next_id p).

Fixpoint advance (fuel : nat) (T : Z) (p : page) : page :=
  match fuel with
  | O => set_clock T p
  | S f =>
      match timers p with
      | tm :: q =>
          if Z.leb (t_due tm) T
          then advance f T (run_callback (t_cb tm) (mkPage (body p) q (Z.max (clock p) (t_due tm)) (next_id p)))
          else set_clock T p
      | [] => set_clock T p
      end
  end.

(** Time passes until [t] (it never goes back). *)
Definition wait (t : Z) (p : page) : page := advance (timer_weight p) (Z.max (clock p) t) p.

(** A session on the page: toasts shown by handlers, and time passing. *)
Inductive op :=
  | Show (message type_ : string)
  | Wait (t : Z).

Definition run_op (p : page) (o : op) : page :=
  match o with
  | Show m ty => showNotification_dom m ty p
  | Wait t => wait t p
  end.

Definition run_ops (ops : list op) (p : page) : page := fold_left run_op ops p.

(** The toasts a session shows, with the time each is shown. *)
Fixpoint shown (c : Z) (ops : list op) : list (Z * notification) :=
  match ops with
  | [] => []
  | Show m ty :: o => (c, notification_of m ty) :: shown c o
  | Wait t :: o => shown (Z.max c t) o
  end.

(** What the page should show at time [c]: every toast shown less than
    3300 ms ago, sliding out in its last 300 ms. *)
Fixpoint window_from (i : nat) (c : Z) (h : list (Z * notification)) : list toast :=
  match h with
  | [] => []
  | (t, n) :: h' =>
      if Z.ltb c (t + 3300)
      then mkToast i n (if Z.ltb c (t + 3000) then slideIn else slideOut) :: window_from (S i) c h'
      else window_from (S i) c h'
  end.

Definition on_screen (c : Z) (h : list (Z * notification)) : list toast := window_from 0 c h.

(** A session: a deck deleted at 0 ms, a failed deletion at 1000 ms,
    and the page looked at 3100 ms. *)
Definition toast_session : list op :=
  [Show "Колода удалена" "success"; Wait 1000; Show "Ошибка удаления: HTTP 500" "error"; Wait 3100].

Definition toast_page : page := run_ops toast_session (initial_page 0).

(** ** Invariants *)

Definition find_toast (i : nat) (b : list toast) : option toast :=
  List.find (fun x => Nat.eqb (toast_id x) i) b.

Definition timers_of (i : nat) (q : list timer) : list timer :=
  filter (fun tm => cb_id (t_cb tm) = i) q.

Definition id_lt (x y : toast) : Prop := toast_id x < toast_id y.
Definition due_le (a b : timer) : Prop := (t_due a <= t_due b)%Z.

(** Under any scheduler: each toast on the page has exactly one armed
    timer, [SlideOut] while it slides in and [RemoveToast] once it slides
    out, and a toast no longer on the page has none. *)
Definition toast_timers_ok (p : page) (i : nat) : Prop :=
  match find_toast i (body p) with
  | Some x =>
      (toast_animation x = slideIn /\ map t_cb (timers_of i (timers p)) = [SlideOut i]) \/
      (toast_animation x = slideOut /\ map t_cb (timers_of i (timers p)) = [RemoveToast i])
  | None => timers_of i (timers p) = []
  end.

Record page_ok (p : page) : Prop := {
  pk_body : Forall (fun x => toast_id x < next_id p) (body p);
  pk_timers : Forall (fun tm => cb_id (t_cb tm) < next_id p) (timers p);
  pk_toasts : forall i, toast_timers_ok p i
}.

(** Timers on time: the [i]-th toast, shown at [t], is sliding in with
    its first timer at [t+3000], or sliding out with its second timer at
    [t+3300], or gone; which one is bounded by the clock. *)
Definition phase (p : page) (i : nat) (t : Z) (n : notification) : Prop :=
  (find_toast i (body p) = Some (mkToast i n slideIn) /\
   timers_of i (timers p) = [mkTimer (t + 3000) (SlideOut i)] /\ (clock p <= t + 3000)%Z) \/
  (find_toast i (body p) = Some (mkToast i n slideOut) /\
   timers_of i (timers p) = [mkTimer (t + 3300) (RemoveToast i)] /\
   (t + 3000 <= clock p <= t + 3300)%Z) \/
  (find_toast i (body p) = None /\ timers_of i (timers p) = [] /\ (t + 3300 <= clock p)%Z).

Record on_time (h : list (Z * notification)) (p : page) : Prop := {
  ot_next : next_id p = length h;
  ot_phase : forall i t n, h !! i = Some (t, n) -> phase p i t n;
  ot_body : Forall (fun x => toast_id x < length h) (body p);
  ot_timers : Forall (fun tm => cb_id (t_cb tm) < length h) (timers p);
  ot_sorted_body : StronglySorted id_lt (body p);
  ot_sorted_timers : StronglySorted due_le (timers p)
}.

(** No timer is due. *)
Definition settled (p : page) : Prop := Forall (fun tm => (clock p < t_due tm)%Z) (timers p).

(** ** The page's lists *)

Lemma find_toast_Some i b x : find_toast i b = Some x -> x ∈ b /\ toast_id x = i.
Proof.
  unfold find_toast. intros H. apply List.find_some in H as [H1 H2].
  apply Nat.eqb_eq in H2. split; [by apply list_elem_of_In | done].
Qed.

Lemma find_toast_None i b : Forall (fun x => toast_id x <> i) b -> find_toast i b = None.
Proof.
  unfold find_toast. induction 1 as [|x b Hx _ IH]; simpl; [done|].
  by rewrite (proj2 (Nat.eqb_neq _ _) Hx).
Qed.

Lemma find_toast_app i b1 b2 :
  find_toast i (b1 ++ b2) = match find_toast i b1 with Some y => Some y | None => find_toast i b2 end.
Proof. unfold find_toast. induction b1 as [|x b1 IH]; simpl; [done|]. destruct (Nat.eqb _ _); [done|exact IH]. Qed.

Lemma find_toast_set_animation i j a b :
  find_toast j (set_animation i a b) =
  if Nat.eqb j i then option_map (fun x => mkToast i (toast_note x) a) (find_toast i b)
  else find_toast j b.
Proof.
  unfold find_toast, set_animation. induction b as [|x b IH]; simpl; [by case_match|].
  destruct (Nat.eqb_spec (toast_id x) i) as [Hi|Hi], (Nat.eqb_spec j i) as [Hj|Hj];
    subst; simpl; rewrite ?Nat.eqb_refl; try done;
    rewrite ?IH, ?(proj2 (Nat.eqb_neq _ _) Hj), ?(proj2 (Nat.eqb_neq _ _) (not_eq_sym Hj)),
      ?(proj2 (Nat.eqb_neq _ _) Hi); done.
Qed.

Lemma find_toast_remove i j b :
  find_toast j (List.filter (fun x => negb (Nat.eqb (toast_id x) i)) b) =
  if Nat.eqb j i then None else find_toast j b.
Proof.
  unfold find_toast. induction b as [|x b IH]; simpl; [by case_match|].
  destruct (Nat.eqb_spec (toast_id x) i) as [Hi|Hi], (Nat.eqb_spec j i) as [Hj|Hj];
    subst; simpl; try done.
  - by rewrite (proj2 (Nat.eqb_neq _ _) (not_eq_sym Hj)).
  - by rewrite (proj2 (Nat.eqb_neq _ _) Hi).
  - rewrite IH. by destruct (Nat.eqb (toast_id x) j).
Qed.

Lemma elem_of_timers_of i tm q : tm ∈ timers_of i q -> tm ∈ q /\ cb_id (t_cb tm) = i.
Proof. unfold timers_of. rewrite list_elem_of_filter. tauto. Qed.

Lemma timers_of_cons i tm q :
  timers_of i (tm :: q) = if decide (cb_id (t_cb tm) = i) then tm :: timers_of i q else timers_of i q.
Proof. unfold timers_of. by rewrite filter_cons. Qed.

Lemma timers_of_app i q1 q2 : timers_of i (q1 ++ q2) = timers_of i q1 ++ timers_of i q2.
Proof. unfold timers_of. by rewrite filter_app. Qed.

Lemma timers_of_insert_ne i tm q :
  cb_id (t_cb tm) <> i -> timers_of i (insert_timer tm q) = timers_of i q.
Proof.
  intros Hne. induction q as [|x q IH]; cbn [insert_timer].
  - rewrite timers_of_cons. by case_decide.
  - destruct (Z.ltb _ _); rewrite !timers_of_cons, ?IH; by repeat case_decide.
Qed.

Lemma timers_of_insert_eq i tm q :
  cb_id (t_cb tm) = i -> timers_of i q = [] -> timers_of i (insert_timer tm q) = [tm].
Proof.
  intros Heq. induction q as [|x q IH]; cbn [insert_timer]; intros Hq.
  - rewrite timers_of_cons. by case_decide.
  - rewrite timers_of_cons in Hq. case_decide; [done|].
    destruct (Z.ltb _ _); rewrite !timers_of_cons, ?IH by done; repeat case_decide;
      try done; by rewrite Hq.
Qed.

Lemma timers_of_fresh n i q :
  Forall (fun tm => cb_id (t_cb tm) < n) q -> n <= i -> timers_of i q = [].
Proof.
  induction 1 as [|x q Hx _ IH]; intros Hn; [done|].
  rewrite timers_of_cons, decide_False by lia. auto.
Qed.

Lemma insert_timer_Forall (P : timer -> Prop) tm q :
  Forall P (insert_timer tm q) <-> P tm /\ Forall P q.
Proof.
  induction q as [|x q IH]; simpl.
  - rewrite Forall_singleton. intuition.
  - destruct (Z.ltb _ _); rewrite !Forall_cons; [done|]. rewrite IH. tauto.
Qed.

Lemma insert_timer_sorted tm q :
  StronglySorted due_le q -> StronglySorted due_le (insert_timer tm q).
Proof.
  unfold due_le. induction 1 as [|x q Hq IH Hx]; simpl.
  - repeat constructor.
  - destruct (Z.ltb_spec (t_due tm) (t_due x)).
    + constructor; [by constructor|]. constructor; [lia|].
      eapply Forall_impl; [exact Hx|]. simpl. lia.
    + constructor; [done|]. apply insert_timer_Forall. split; [lia|done].
Qed.

Lemma insert_timer_sum (f : timer -> nat) tm q :
  list_sum (map f (insert_timer tm q)) = f tm + list_sum (map f q).
Proof. induction q as [|x q IH]; simpl; [lia|]. destruct (Z.ltb _ _); simpl; lia. Qed.

Lemma StronglySorted_filter {A} (R : A -> A -> Prop) (f : A -> bool) l :
  StronglySorted R l -> StronglySorted R (List.filter f l).
Proof.
  induction 1 as [|x l Hl IH Hx]; simpl; [constructor|].
  destruct (f x); [|done]. constructor; [done|].
  apply Forall_forall. intros y Hy. apply list_elem_of_In, filter_In in Hy as [Hy _].
  rewrite Forall_forall in Hx. apply Hx. by apply list_elem_of_In.
Qed.

Lemma find_toast_snoc_ne j b x : toast_id x <> j -> find_toast j (b ++ [x]) = find_toast j b.
Proof.
  intros Hx. rewrite find_toast_app. unfold find_toast at 2. simpl.
  rewrite (proj2 (Nat.eqb_neq _ _) Hx). by destruct (find_toast j b).
Qed.

Lemma find_toast_snoc_fresh b x :
  Forall (fun y => toast_id y < toast_id x) b -> find_toast (toast_id x) (b ++ [x]) = Some x.
Proof.
  intros Hb. rewrite find_toast_app, find_toast_None.
  - unfold find_toast. simpl. by rewrite Nat.eqb_refl.
  - eapply Forall_impl; [exact Hb|]. simpl. lia.
Qed.

Lemma find_toast_elem_of x b : x ∈ b -> is_Some (find_toast (toast_id x) b).
Proof.
  unfold find_toast. induction b as [|y b IH]; simpl; [by intros ?%not_elem_of_nil|].
  intros [->|Hx]%elem_of_cons; [by rewrite Nat.eqb_refl|]. by case_match; auto.
Qed.

Lemma attached_find_toast i b :
  attached i b = match find_toast i b with Some _ => true | None => false end.
Proof. unfold attached, find_toast. induction b as [|x b IH]; simpl; [done|]. destruct (Nat.eqb _ _); [done | exact IH]. Qed.

Lemma Forall_set_animation (P : toast -> Prop) i a b :
  (forall x, P x -> toast_id x = i -> P (mkToast i (toast_note x) a)) ->
  Forall P b -> Forall P (set_animation i a b).
Proof.
  intros HP. unfold set_animation. induction 1; simpl; constructor; auto.
  destruct (Nat.eqb_spec (toast_id x) i); auto.
Qed.

Lemma Forall_remove_toast (P : toast -> Prop) i b :
  Forall P b -> Forall P (List.filter (fun x => negb (Nat.eqb (toast_id x) i)) b).
Proof. induction 1; simpl; [done|]. case_match; auto. Qed.

(** A timer list whose callbacks read [[c]] is one timer. *)
Lemma map_t_cb_singleton pre tm post c :
  map t_cb (pre ++ tm :: post) = [c] -> pre = [] /\ post = [] /\ t_cb tm = c.
Proof.
  destruct pre as [|? [|]]; simpl; intros H; simplify_eq; [|done..].
  destruct post; simplify_eq/=. done.
Qed.

(** The callbacks a timer list holds for the toasts other than the one
    of [tm] do not see [tm]. *)
Lemma timers_of_skip j pre tm post :
  cb_id (t_cb tm) <> j -> timers_of j (pre ++ tm :: post) = timers_of j (pre ++ post).
Proof. intros Hne. rewrite !timers_of_app, timers_of_cons. by case_decide. Qed.

(** ** Under any scheduler *)

Lemma showNotification_dom_ok m ty p : page_ok p -> page_ok (showNotification_dom m ty p).
Proof.
  intros [Hb Ht Hk]. unfold showNotification_dom, setTimeout. split; simpl.
  - apply Forall_app. split; [|by constructor; simpl; [lia|]].
    eapply Forall_impl; [exact Hb|]. simpl. lia.
  - apply insert_timer_Forall. split; simpl; [lia|].
    eapply Forall_impl; [exact Ht|]. simpl. lia.
  - intros j. unfold toast_timers_ok. simpl.
    destruct (decide (j = next_id p)) as [->|Hj].
    + rewrite (find_toast_snoc_fresh _ (mkToast (next_id p) _ _)) by done.
      rewrite timers_of_insert_eq by (done || by eapply timers_of_fresh). by left.
    + rewrite find_toast_snoc_ne, timers_of_insert_ne by (simpl; lia). apply Hk.
Qed.

Lemma fire_ok p pre tm post :
  page_ok p -> timers p = pre ++ tm :: post ->
  page_ok (run_callback (t_cb tm) (mkPage (body p) (pre ++ post) (clock p) (next_id p))).
Proof.
  intros [Hb Ht Hk] Hq. set (i := cb_id (t_cb tm)).
  assert (Hpre : Forall (fun tm => cb_id (t_cb tm) < next_id p) (pre ++ post)).
  { rewrite Hq, !Forall_app, Forall_cons in Ht. rewrite Forall_app. tauto. }
  assert (Hrest : forall j, j <> i -> timers_of j (pre ++ post) = timers_of j (timers p)).
  { intros j Hj. rewrite Hq. by rewrite timers_of_skip. }
  pose proof (Hk i) as Hi. unfold toast_timers_ok in Hi.
  rewrite Hq, timers_of_app, timers_of_cons, decide_True in Hi by done.
  destruct (find_toast i (body p)) as [x|] eqn:Hx;
    [|by destruct (timers_of i pre)].
  assert (Hid : i < next_id p).
  { apply find_toast_Some in Hx as [Hx <-]. by eapply Forall_forall in Hb. }
  destruct Hi as [[Ha Hc]|[Ha Hc]];
    apply map_t_cb_singleton in Hc as (Hpre0 & Hpost0 & Hcb);
    assert (Hnone : timers_of i (pre ++ post) = []) by (by rewrite timers_of_app, Hpre0, Hpost0);
    rewrite Hcb; simpl.
  - split; simpl.
    + apply Forall_set_animation; [|done]. intros y ? <-. done.
    + apply insert_timer_Forall. split; [done|done].
    + intros j. unfold toast_timers_ok. simpl. rewrite find_toast_set_animation.
      destruct (Nat.eqb_spec j i) as [->|Hj].
      * rewrite Hx, timers_of_insert_eq by done. simpl. by right.
      * rewrite timers_of_insert_ne, Hrest by (simpl; congruence). apply Hk.
  - rewrite attached_find_toast, Hx. split; simpl.
    + by apply Forall_remove_toast.
    + done.
    + intros j. unfold toast_timers_ok. simpl. rewrite find_toast_remove.
      destruct (Nat.eqb_spec j i) as [->|Hj]; [done|].
      rewrite Hrest by done. apply Hk.
Qed.

Lemma page_step_ok p p' : page_ok p -> page_step p p' -> page_ok p'.
Proof.
  intros Hp Hs. induction Hs as [m ty p|p c _|p pre tm post Hq _];
    [by apply showNotification_dom_ok | | by eapply fire_ok].
  destruct Hp as [Hb Ht Hk]. by split.
Qed.

Lemma page_reachable_ok c0 p : page_reachable c0 p -> page_ok p.
Proof.
  unfold page_reachable. revert p. apply rtc_ind_r; [by split|].
  intros p1 p2 _ Hs IH. by eapply page_step_ok.
Qed.

Lemma page_ok_no_timers p : page_ok p -> timers p = [] -> body p = [].
Proof.
  intros [_ _ Hk] Hq. destruct (body p) as [|x b] eqn:Hb; [done|].
  destruct (find_toast_elem_of x (body p)) as [y Hy]; [rewrite Hb; apply list_elem_of_here|].
  specialize (Hk (toast_id x)). unfold toast_timers_ok in Hk.
  rewrite Hy, Hq in Hk. by destruct Hk as [[_ Hk]|[_ Hk]].
Qed.

Lemma run_callback_weight cb p :
  timer_weight (run_callback cb p) < cb_weight cb + timer_weight p.
Proof.
  unfold timer_weight. destruct cb; simpl; [rewrite insert_timer_sum; simpl; lia|].
  case_match; simpl; lia.
Qed.

(** The first timer can always run: time passes to its deadline. *)
Lemma fire_first p tm q :
  timers p = tm :: q ->
  rtc page_step p (run_callback (t_cb tm)
                     (mkPage (body p) q (Z.max (clock p) (t_due tm)) (next_id p))).
Proof.
  intros Hq. eapply rtc_l; [apply (ps_tick p (Z.max (clock p) (t_due tm))); lia|].
  apply rtc_once.
  apply (ps_fire (mkPage (body p) (timers p) (Z.max (clock p) (t_due tm)) (next_id p)) [] tm q);
    simpl; [done | lia].
Qed.

(** ** On time *)

(** The on-time scheduler is one of the browser's schedules. *)
Lemma advance_steps fuel T p :
  (clock p <= T)%Z -> rtc page_step p (advance fuel T p).
Proof.
  revert p. induction fuel as [|f IH]; intros p Hc; simpl.
  - apply rtc_once. by constructor.
  - destruct (timers p) as [|tm q] eqn:Hq; [apply rtc_once; by constructor|].
    destruct (Z.leb_spec (t_due tm) T); [|apply rtc_once; by constructor].
    etrans; [by apply fire_first|]. apply IH.
    destruct (t_cb tm); simpl; [|case_match]; simpl; lia.
Qed.

Lemma run_ops_steps ops p : rtc page_step p (run_ops ops p).
Proof.
  revert p. induction ops as [|[m ty|t] ops IH]; intros p; simpl; [done| |].
  - etrans; [apply rtc_once; constructor | apply IH].
  - etrans; [apply (advance_steps (timer_weight p) (Z.max (clock p) t)); lia | apply IH].
Qed.

Lemma clock_run_callback cb p : clock (run_callback cb p) = clock p.
Proof. destruct cb; simpl; [done|]. by case_match. Qed.

Lemma timer_weight_nil p : timer_weight p = 0 -> timers p = [].
Proof. unfold timer_weight. destruct (timers p) as [|[? []] ?]; simpl; by try lia. Qed.

Lemma timers_of_cons_ne j tm q : cb_id (t_cb tm) <> j -> timers_of j (tm :: q) = timers_of j q.
Proof. intros. rewrite timers_of_cons. by case_decide. Qed.

Lemma StronglySorted_snoc {A} (R : A -> A -> Prop) l x :
  StronglySorted R l -> Forall (fun y => R y x) l -> StronglySorted R (l ++ [x]).
Proof.
  induction 1 as [|y l Hl IH Hy]; intros Hx; simpl; [by repeat constructor|].
  apply Forall_cons in Hx as [Hyx Hx]. constructor; [by apply IH|].
  apply Forall_app. by split; [|constructor].
Qed.

Lemma StronglySorted_set_animation i a b :
  StronglySorted id_lt b -> StronglySorted id_lt (set_animation i a b).
Proof.
  unfold id_lt. induction 1 as [|x b Hb IH Hx]; simpl; constructor; [done|].
  apply Forall_set_animation.
  - intros y Hy <-. simpl. by case_match.
  - eapply Forall_impl; [exact Hx|]. intros y. simpl. case_match; simpl; [|done].
    by apply Nat.eqb_eq in H as ->.
Qed.

(** A phase survives a step that leaves the toast, its timers and the
    clock's bound by its next deadline alone. *)
Lemma phase_transfer p p' j t n :
  phase p j t n ->
  find_toast j (body p') = find_toast j (body p) ->
  timers_of j (timers p') = timers_of j (timers p) ->
  (clock p <= clock p')%Z ->
  (forall tm, tm ∈ timers_of j (timers p) -> (clock p' <= t_due tm)%Z) ->
  phase p' j t n.
Proof.
  unfold phase. intros Hph Hf Ht Hc Hd. rewrite Hf, Ht.
  destruct Hph as [(H1 & H2 & H3)|[(H1 & H2 & H3)|(H1 & H2 & H3)]];
    rewrite H2 in Hd; try specialize (Hd _ (list_elem_of_here _ _)); simpl in Hd.
  - left. split_and!; done || lia.
  - right; left. split_and!; done || lia.
  - right; right. split_and!; done || lia.
Qed.

Lemma on_time_show h p m ty :
  on_time h p -> settled p ->
  on_time (h ++ [(clock p, notification_of m ty)]) (showNotification_dom m ty p) /\
  settled (showNotification_dom m ty p).
Proof.
  intros [Hn Hph Hb Ht Hsb Hst] Hs. unfold showNotification_dom, setTimeout, settled in *; simpl.
  split; [split|]; simpl; rewrite ?length_app; simpl.
  - lia.
  - intros i t n [Hi|[Hle Hi]]%lookup_app_Some.
    + pose proof (lookup_lt_Some _ _ _ Hi).
      eapply phase_transfer; [by apply Hph | simpl | simpl | simpl; lia |].
      * apply find_toast_snoc_ne. simpl. lia.
      * apply timers_of_insert_ne. simpl. lia.
      * intros tm [Htm _]%elem_of_timers_of. eapply Forall_forall in Hs; [|exact Htm]. simpl. lia.
    + apply list_lookup_singleton_Some in Hi as [Hi [= <- <-]].
      assert (i = next_id p) as -> by lia.
      left. simpl. split_and!; [| |lia].
      * apply (find_toast_snoc_fresh _ (mkToast (next_id p) _ _)). rewrite Hn. done.
      * apply timers_of_insert_eq; [done|]. eapply timers_of_fresh; [exact Ht|lia].
  - apply Forall_app. split; [|constructor; simpl; [lia|done]].
    eapply Forall_impl; [exact Hb|]. simpl. lia.
  - apply insert_timer_Forall. split; simpl; [lia|].
    eapply Forall_impl; [exact Ht|]. simpl. lia.
  - apply StronglySorted_snoc; [done|]. unfold id_lt. simpl. rewrite Hn. done.
  - by apply insert_timer_sorted.
  - apply insert_timer_Forall. split; simpl; [lia | done].
Qed.

Lemma on_time_set_clock h p T :
  on_time h p -> (clock p <= T)%Z -> Forall (fun tm => (T < t_due tm)%Z) (timers p) ->
  on_time h (set_clock T p) /\ settled (set_clock T p).
Proof.
  intros [Hn Hph Hb Ht Hsb Hst] Hc HT. split; [split|]; try done.
  intros i t n Hi. eapply phase_transfer; [by apply Hph|done|done|done|].
  intros tm [Htm _]%elem_of_timers_of. eapply Forall_forall in HT; [|exact Htm]. simpl. lia.
Qed.

(** The first timer runs at its deadline and moves its toast to the next
    phase; the other toasts wait for deadlines that are not earlier. *)
Lemma on_time_fire h p tm q :
  on_time h p -> timers p = tm :: q ->
  on_time h (run_callback (t_cb tm) (mkPage (body p) q (Z.max (clock p) (t_due tm)) (next_id p))).
Proof.
  intros [Hn Hph Hb Ht Hsb Hst] Hq. rewrite Hq in Ht, Hst.
  apply Forall_cons in Ht as [Hi Ht]. apply StronglySorted_inv in Hst as [Hst Hmin].
  remember (cb_id (t_cb tm)) as i eqn:Hi_def.
  destruct (lookup_lt_is_Some_2 h i Hi) as [[t n] Hh].
  assert (Hother : forall j, j <> i -> forall tm', tm' ∈ timers_of j (timers p) ->
                   (t_due tm <= t_due tm')%Z).
  { intros j Hj tm' [Htm' Hid]%elem_of_timers_of. rewrite Hq in Htm'.
    apply elem_of_cons in Htm' as [->|Htm']; [lia|].
    eapply Forall_forall in Hmin; [exact Hmin|exact Htm']. }
  assert (Hq' : forall j, j <> i -> timers_of j (timers p) = timers_of j q).
  { intros j Hj. rewrite Hq. apply timers_of_cons_ne. congruence. }
  pose proof (Hph i t n Hh) as Hp. unfold phase in Hp. rewrite Hq, timers_of_cons, decide_True in Hp by (symmetry; exact Hi_def).
  destruct Hp as [(Hf & [= -> Hnil] & Hc)|[(Hf & [= -> Hnil] & Hc)|(_ & ? & _)]]; [| |done];
    cbn [t_cb t_due run_callback]; rewrite Z.max_r by lia.
  - split; cbn [body timers next_id setTimeout clock].
    + done.
    + intros j t' n' Hj. destruct (decide (j = i)) as [->|Hji].
      * rewrite Hh in Hj. simplify_eq. right; left. simpl.
        rewrite find_toast_set_animation, Nat.eqb_refl, Hf, timers_of_insert_eq by done.
        split_and!; [done | do 2 f_equal; lia | lia | lia].
      * eapply phase_transfer; [by apply Hph | | | simpl; lia | simpl; by apply Hother].
        -- simpl. rewrite find_toast_set_animation. by rewrite (proj2 (Nat.eqb_neq _ _) Hji).
        -- simpl. rewrite timers_of_insert_ne by (simpl; congruence). by rewrite Hq'.
    + apply Forall_set_animation; [|done]. by intros y ? <-.
    + apply insert_timer_Forall. done.
    + by apply StronglySorted_set_animation.
    + by apply insert_timer_sorted.
  - cbn [body timers clock next_id]. rewrite attached_find_toast, Hf. split; cbn [body timers next_id clock].
    + done.
    + intros j t' n' Hj. destruct (decide (j = i)) as [->|Hji].
      * rewrite Hh in Hj. simplify_eq. right; right. simpl.
        rewrite find_toast_remove, Nat.eqb_refl. split_and!; [done | done | lia].
      * eapply phase_transfer; [by apply Hph | | | simpl; lia | simpl; by apply Hother].
        -- simpl. rewrite find_toast_remove. by rewrite (proj2 (Nat.eqb_neq _ _) Hji).
        -- simpl. by rewrite Hq'.
    + by apply Forall_remove_toast.
    + done.
    + by apply StronglySorted_filter.
    + done.
Qed.

(** [timer_weight] is enough fuel: [advance] runs every timer due by [T]
    and stops with the clock at [T]. *)
Lemma on_time_advance h fuel T p :
  on_time h p -> timer_weight p <= fuel -> (clock p <= T)%Z ->
  on_time h (advance fuel T p) /\ settled (advance fuel T p) /\ clock (advance fuel T p) = T.
Proof.
  revert p. induction fuel as [|f IH]; intros p Hot Hw Hc; simpl.
  - assert (Hq : timers p = []) by (apply timer_weight_nil; lia).
    destruct (on_time_set_clock h p T Hot Hc) as [? ?]; [by rewrite Hq|done].
  - destruct (timers p) as [|tm q] eqn:Hq.
    + destruct (on_time_set_clock h p T Hot Hc) as [? ?]; [by rewrite Hq|done].
    + destruct (Z.leb_spec (t_due tm) T) as [Hd|Hd].
      * pose proof (run_callback_weight (t_cb tm)
          (mkPage (body p) q (Z.max (clock p) (t_due tm)) (next_id p))) as Hw'.
        unfold timer_weight in Hw, Hw'. rewrite Hq in Hw. simpl in Hw, Hw'.
        apply IH; [by eapply on_time_fire | unfold timer_weight; lia |].
        rewrite clock_run_callback. simpl. lia.
      * pose proof (ot_sorted_timers _ _ Hot) as Hs. rewrite Hq in Hs.
        apply StronglySorted_inv in Hs as [_ Hmin].
        destruct (on_time_set_clock h p T Hot Hc) as [? ?]; [|done].
        rewrite Hq. constructor; [lia|].
        eapply Forall_impl; [exact Hmin|]. unfold due_le. lia.
Qed.

Lemma on_time_run_ops ops h p :
  on_time h p -> settled p ->
  on_time (h ++ shown (clock p) ops) (run_ops ops p) /\ settled (run_ops ops p).
Proof.
  revert h p. induction ops as [|[m ty|t] ops IH]; intros h p Hot Hs; simpl.
  - by rewrite app_nil_r.
  - destruct (on_time_show h p m ty Hot Hs) as [Hot' Hs'].
    destruct (IH _ _ Hot' Hs') as [H1 H2]. rewrite <-app_assoc in H1. done.
  - destruct (on_time_advance h (timer_weight p) (Z.max (clock p) t) p Hot) as (Hot' & Hs' & Hc');
      [lia | lia |].
    fold (wait t p) in Hot', Hs', Hc'. rewrite <-Hc'. by apply IH.
Qed.

(** ** What the page shows *)

Lemma find_toast_window i k c h :
  find_toast i (window_from k c h) =
  if decide (k <= i) then
    match h !! (i - k) with
    | Some (t, n) =>
        if Z.ltb c (t + 3300)
        then Some (mkToast i n (if Z.ltb c (t + 3000) then slideIn else slideOut)) else None
    | None => None
    end
  else None.
Proof.
  revert k. induction h as [|[t n] h IH]; intros k; simpl.
  - by repeat case_match.
  - assert (Hrest : find_toast i (window_from (S k) c h) =
      if decide (k < i) then match h !! (i - S k) with
        | Some (t, n) => if Z.ltb c (t + 3300)
            then Some (mkToast i n (if Z.ltb c (t + 3000) then slideIn else slideOut)) else None
        | None => None end else None).
    { rewrite IH. by repeat case_decide; try lia. }
    destruct (decide (k = i)) as [->|Hki].
    + rewrite decide_True, Nat.sub_diag by lia. simpl.
      destruct (Z.ltb _ _).
      * unfold find_toast. simpl. by rewrite Nat.eqb_refl.
      * rewrite Hrest. by case_decide; [lia|].
    + assert (Hfind : find_toast i (window_from k c ((t, n) :: h)) = find_toast i (window_from (S k) c h)).
      { simpl. destruct (Z.ltb _ _); [|done]. unfold find_toast. simpl.
        by rewrite (proj2 (Nat.eqb_neq _ _) Hki). }
      simpl in Hfind. rewrite Hfind, Hrest.
      repeat case_decide; try lia; [|done].
      by replace (i - k) with (S (i - S k)) by lia.
Qed.

Lemma window_sorted k c h :
  StronglySorted id_lt (window_from k c h) /\ Forall (fun x => k <= toast_id x) (window_from k c h).
Proof.
  revert k. induction h as [|[t n] h IH]; intros k; simpl; [split; constructor|].
  destruct (IH (S k)) as [Hs Hf].
  assert (Hf' : Forall (fun x => k <= toast_id x) (window_from (S k) c h))
    by (eapply Forall_impl; [exact Hf|]; simpl; lia).
  destruct (Z.ltb _ _); [|done]. split; [constructor; [done|]|constructor; simpl; [lia|done]].
  eapply Forall_impl; [exact Hf|]. unfold id_lt. simpl. lia.
Qed.

(** Two lists of toasts in increasing order of identity are equal when
    they have the same toast for every identity. *)
Lemma find_toast_ext b1 b2 :
  StronglySorted id_lt b1 -> StronglySorted id_lt b2 ->
  (forall i, find_toast i b1 = find_toast i b2) -> b1 = b2.
Proof.
  unfold id_lt. intros H1. revert b2. induction H1 as [|x b1 Hb1 IH Hx]; intros b2 H2 Heq.
  - destruct b2 as [|y b2]; [done|]. specialize (Heq (toast_id y)).
    unfold find_toast in Heq. simpl in Heq. by rewrite Nat.eqb_refl in Heq.
  - destruct H2 as [|y b2 Hb2 Hy].
    + specialize (Heq (toast_id x)). unfold find_toast in Heq. simpl in Heq.
      by rewrite Nat.eqb_refl in Heq.
    + assert (Hxy : x = y).
      { pose proof (Heq (toast_id x)) as Ex. pose proof (Heq (toast_id y)) as Ey.
        unfold find_toast in Ex, Ey. simpl in Ex, Ey. rewrite Nat.eqb_refl in Ex, Ey.
        destruct (Nat.eqb_spec (toast_id y) (toast_id x)) as [E|E];
          [by rewrite E, Nat.eqb_refl in Ey; simplify_eq|].
        rewrite (proj2 (Nat.eqb_neq _ _) (not_eq_sym E)) in Ey.
        symmetry in Ex.
        apply List.find_some in Ex as [Ex%list_elem_of_In _], Ey as [Ey%list_elem_of_In _].
        eapply Forall_forall in Hx; [|exact Ey]. eapply Forall_forall in Hy; [|exact Ex]. lia. }
      subst y. f_equal. apply IH; [done|]. intros i. specialize (Heq i).
      unfold find_toast in Heq. simpl in Heq.
      destruct (Nat.eqb_spec (toast_id x) i) as [Ei|Ei]; [subst i|exact Heq].
      rewrite !find_toast_None; [done| |];
        (eapply Forall_impl; [eassumption|]); simpl; lia.
Qed.

Lemma settled_timer p i tm : settled p -> timers_of i (timers p) = [tm] -> (clock p < t_due tm)%Z.
Proof.
  intros Hs Ht. assert (Htm : tm ∈ timers_of i (timers p)) by (rewrite Ht; apply list_elem_of_here).
  apply elem_of_timers_of in Htm as [Htm _]. by eapply Forall_forall in Hs.
Qed.

Lemma on_time_on_screen h p : on_time h p -> settled p -> body p = on_screen (clock p) h.
Proof.
  intros Hot Hs. apply find_toast_ext; [apply Hot | apply window_sorted |].
  intros i. unfold on_screen. rewrite find_toast_window, decide_True, Nat.sub_0_r by lia.
  destruct (h !! i) as [[t n]|] eqn:Hh.
  - destruct (ot_phase _ _ Hot i t n Hh) as [(Hf & Ht & _)|[(Hf & Ht & Hc)|(Hf & _ & Hc)]];
      rewrite Hf; try (apply (settled_timer _ _ _ Hs) in Ht; simpl in Ht).
    + by rewrite (proj2 (Z.ltb_lt _ _)), (proj2 (Z.ltb_lt _ (t + 3000))) by lia.
    + by rewrite (proj2 (Z.ltb_lt _ _)), (proj2 (Z.ltb_ge _ (t + 3000))) by lia.
    + by rewrite (proj2 (Z.ltb_ge _ _)) by lia.
  - apply lookup_ge_None in Hh. apply find_toast_None.
    eapply Forall_impl; [apply Hot|]. simpl. lia.
Qed.

Lemma on_time_initial c0 : on_time [] (initial_page c0) /\ settled (initial_page c0).
Proof. split; [split|]; try done; constructor. Qed.

(** ** Theorems *)

(** C13: with timers running on time, the page shows, after any session
    of toasts and waits, exactly the toasts shown less than 3300 ms ago,
    in the order they were shown, the last 300 ms of each with the
    [slideOut] animation. *)
Theorem toasts_on_screen c0 ops :
  body (run_ops ops (initial_page c0)) =
  on_screen (clock (run_ops ops (initial_page c0))) (shown c0 ops).
Proof.
  destruct (on_time_initial c0) as [Hot Hs].
  destruct (on_time_run_ops ops [] _ Hot Hs) as [Hot' Hs'].
  by apply on_time_on_screen.
Qed.

(** C24: whatever the scheduling of the timers (late, in any order),
    every toast on the page has exactly one armed timer, and every armed
    timer's toast is still on the page, so the [parentNode] guard of line
    444 always holds when the removal runs. *)
Theorem toast_timers_correspond c0 p :
  page_reachable c0 p ->
  (forall x, x ∈ body p -> exists cb, map t_cb (timers_of (toast_id x) (timers p)) = [cb]) /\
  (forall tm, tm ∈ timers p -> attached (cb_id (t_cb tm)) (body p) = true).
Proof.
  intros Hr. destruct (page_reachable_ok c0 p Hr) as [_ _ Hk]. split.
  - intros x Hx. destruct (find_toast_elem_of x _ Hx) as [y Hy].
    specialize (Hk (toast_id x)). unfold toast_timers_ok in Hk. rewrite Hy in Hk.
    destruct Hk as [[_ Hk]|[_ Hk]]; eauto.
  - intros tm Htm. specialize (Hk (cb_id (t_cb tm))). unfold toast_timers_ok in Hk.
    rewrite attached_find_toast. case_match; [done|].
    assert (Hin : tm ∈ timers_of (cb_id (t_cb tm)) (timers p))
      by (unfold timers_of; by apply list_elem_of_filter).
    by rewrite Hk in Hin; apply not_elem_of_nil in Hin.
Qed.

(** Every toast leaves the page: from every state the browser can reach,
    running the armed timers (and nothing else) empties the page. *)
Theorem toasts_leave_page c0 p :
  page_reachable c0 p ->
  exists p', rtc page_step p p' /\ body p' = [] /\ timers p' = [].
Proof.
  remember (timer_weight p) as w eqn:Hw. revert p Hw.
  induction w as [w IH] using (well_founded_induction lt_wf). intros p -> Hr.
  destruct (timers p) as [|tm q] eqn:Hq.
  - exists p. split_and!; [done | by apply (page_ok_no_timers p (page_reachable_ok c0 p Hr)) | done].
  - pose proof (fire_first p tm q Hq) as Hs.
    pose proof (run_callback_weight (t_cb tm)
      (mkPage (body p) q (Z.max (clock p) (t_due tm)) (next_id p))) as Hlt.
    edestruct IH as (p' & Hs' & Hb & Ht'); [| reflexivity | unfold page_reachable in *; by etrans |].
    + unfold timer_weight in Hlt |- *. rewrite Hq. simpl in Hlt |- *. lia.
    + exists p'. split_and!; [by etrans | done | done].
Qed.

(** At 3100 ms the first toast slides out and the second is on screen. *)
Lemma toasts_on_screen_witness :
  body toast_page =
  [mkToast 0 (notification_of "Колода удалена" "success") slideOut;
   mkToast 1 (notification_of "Ошибка удаления: HTTP 500" "error") slideIn].
Proof. unfold toast_page. rewrite toasts_on_screen. vm_compute. reflexivity. Defined.

(** The removal timer of the first toast finds it attached. *)
Lemma toast_timers_correspond_witness :
  page_reachable 0 toast_page /\
  attached (cb_id (t_cb (mkTimer 3300 (RemoveToast 0)))) (body toast_page) = true.
Proof.
  split; [apply run_ops_steps|].
  apply (proj2 (toast_timers_correspond 0 toast_page (run_ops_steps _ _))).
  change (timers toast_page) with [mkTimer 3300 (RemoveToast 0); mkTimer 4000 (SlideOut 1)].
  apply list_elem_of_here.
Defined.

Lemma toasts_leave_page_witness :
  exists p', rtc page_step toast_page p' /\ body p' = [] /\ timers p' = [].
Proof. apply (toasts_leave_page 0). apply run_ops_steps. Defined.

End Notify.
