(* ===== verification/Sync.v ===== *)
(** * Sync: a patient user sees what the server holds

    The refinement of the server's state by the client's view.  In a
    calm run ([calm_step]) the user acts only when no request is in
    flight, and every request reaches the server and its answer the
    client: the network loses nothing, and the interleavings of
    [Server.stale_card_list] (a click while a list is in flight) and
    [Server.lost_answer_duplicates_deck] (a lost answer) are excluded.
    Against a server that follows the contract and makes string
    identifiers that fit in one path segment and that the browser reads
    back unchanged from the rows' [onclick] attributes ([server_id]), whenever
    nothing is in flight the client is [synced] with the server: its
    [decks] are the server's decks, in the server's order, and its
    [cards] carry the identifiers of the server's cards of the selected
    deck, in the server's order ([calm_client_synced]).

    The proof is an invariant of the calm system ([calm_ok]): the
    server's identifiers are those of the backend, the page's lists are
    renderings of the arrays and the selected deck exists on the server
    ([side_ok]), and the one request in flight is described by
    [pending_ok]: what it asks and how far the client is from the server
    until its answer arrives.  Each event, each answer of the server and
    each delivery keeps it ([handle_post], [serve_side], the
    [deliver_*] lemmas). *)

From S2P Require Import Prelude Schedule Shuffle Api Rest Render App Server Panels Protocol.
From stdpp Require Import relations.
#[local] Set Warnings "-clear-no-such-hyp".
Local Open Scope string_scope.

Module Sync.
Import Schedule Shuffle Api Rest Render App Server Panels Protocol.

(** ** The abstract view *)

(** An identifier as the backend makes it: a string that fits in one
    path segment and that a row's [onclick] hands back unchanged
    ([App.onclick_plain]). *)
Definition server_id (i : js_id) : Prop :=
  match i with
  | IdStr s => (slash ∉ String.list_ascii_of_string s) /\ onclick_plain s = true
  | IdNum _ => False
  end.

Definition ids_ok (sv : server) : Prop :=
  Forall (fun d => server_id (deck_id d)) (sv_decks sv) /\
  Forall (fun c => server_id (card_id c)) (sv_cards sv).

(** The cards [GET /decks/{id}/cards] lists for the deck [cur] names. *)
Definition deck_cards (sv : server) (cur : option js_id) : list card :=
  match cur with
  | Some i => filter (fun c => names (id_text i) (deckId c) = true) (sv_cards sv)
  | None => []
  end.

(** The client agrees with the server: the same decks, and the cards of
    the selected deck (by identifier; the server's counters move on with
    each grade, the client's copy only on the next reload). *)
Definition synced (s : app) (sv : server) : Prop :=
  decks s = sv_decks sv /\ card_id <$> cards s = card_id <$> deck_cards sv (currentDeckId s).

Definition has_deck (sv : server) (cur : option js_id) : Prop :=
  match cur with
  | Some i => i ∈ deck_id <$> sv_decks sv
  | None => True
  end.

(** What holds with or without a request in flight. *)
Definition side_ok (s : app) (sv : server) : Prop :=
  views_ok s /\ has_deck sv (currentDeckId s) /\
  Forall (fun c => server_id (card_id c)) (reviewCards s).

(** The request in flight and the client awaiting it: how far the
    client is from the server until the answer arrives. *)
Definition pending_ok (p : pending) (s : app) (sv : server) : Prop :=
  match p_cont p with
  | KLoadDecks =>
      p_request p = loadDecks_request /\
      card_id <$> cards s = card_id <$> deck_cards sv (currentDeckId s)
  | KCreateDeck => synced s sv /\ exists n d, p_request p = apiCreateDeck_request n d
  | KDeleteDeck i => synced s sv /\ p_request p = apiDeleteDeck_request i
  | KLoadCards =>
      decks s = sv_decks sv /\
      exists i, currentDeckId s = Some i /\ p_request p = loadCards_request i
  | KCreateCard =>
      synced s sv /\
      exists i q a, currentDeckId s = Some i /\ p_request p = apiCreateCard_request i q a
  | KDeleteCard i => synced s sv /\ server_id i /\ p_request p = apiDeleteCard_request i
  | KRate => synced s sv /\ exists i q, server_id i /\ p_request p = apiUpdateCard_request i q
  end.

(** A handler leaves nothing in flight and the client synced, or one
    request described by [pending_ok]. *)
Definition post_ok (o : outcome) (sv : server) : Prop :=
  match snd o with
  | [] => synced (fst o) sv
  | [p] => pending_ok p (fst o) sv
  | _ => False
  end.

Section Calm.
Context (nf inv : string) (mk : Z -> js_id) (sch : card -> Z -> card).

(** The flight of a calm run: empty, one request not yet processed, or
    one request the server answered from the state [sv'] it had then. *)
Definition flight_ok (s : app) (sv : server) (fl : list (pending * option reply)) : Prop :=
  match fl with
  | [] => synced s sv
  | [(p, None)] => pending_ok p s sv
  | [(p, Some rp)] =>
      exists t sv', ids_ok sv' /\ server_ok mk sv' /\ side_ok s sv' /\ pending_ok p s sv' /\
                    serve nf inv mk sch t sv' (p_request p) = (sv, rp)
  | _ => False
  end.

Definition calm_ok (S : system) : Prop :=
  ids_ok (sys_server S) /\ server_ok mk (sys_server S) /\ side_ok (sys_app S) (sys_server S) /\
  flight_ok (sys_app S) (sys_server S) (sys_flight S).

(** A calm step: a user event when nothing is in flight, or the server
    answering, or an answer reaching the client ([Protocol.sys_auto]). *)
Inductive calm_step : system -> system -> Prop :=
  | calm_event e ev S :
      sys_flight S = [] -> enabled (sys_app S) ev = true ->
      calm_step S (sys_after (handle e ev (sys_app S)) (sys_flight S) (sys_server S))
  | calm_auto e t S S' : sys_auto nf inv mk sch e t S S' -> calm_step S S'.

Definition calm_reachable (sv0 : server) (S : system) : Prop :=
  rtc calm_step (sys_boot true sv0) S.

(** An executable calm scheduler. *)
Definition calm_action (S : system) (a : sys_action) : option system :=
  match a with
  | SEvent _ _ =>
      match sys_flight S with
      | [] => run_sys_action nf inv mk sch S a
      | _ => None
      end
  | SFail _ _ _ => None
  | _ => run_sys_action nf inv mk sch S a
  end.

Fixpoint run_calm (S : system) (acts : list sys_action) : option system :=
  match acts with
  | [] => Some S
  | a :: acts' =>
      match calm_action S a with
      | Some S' => run_calm S' acts'
      | None => None
      end
  end.

End Calm.

(** An empty backend whose counter [k] makes the identifier
    [x...xnx...x], with [k] letters x before the n for [k >= 0] and [-k]
    after it otherwise; the user creates deck "Spanish" (id "xn"), opens
    it, adds a card (id "xxn"), grades it and deletes it, waiting each
    time for the answer. *)
Definition calm_ids (k : Z) : js_id :=
  IdStr (String.string_of_list_ascii
           (replicate (Z.to_nat k) "x"%char ++ "n"%char :: replicate (Z.to_nat (- k)) "x"%char)).
Definition calm_server : server := mkServer [] [] 1.
Definition calm_session : list sys_action :=
  [SServe 0 0; SDeliver sc_env 0;
   SEvent sc_env (Input "deckName" "Spanish"); SEvent sc_env CreateDeckClick;
   SServe 0 0; SDeliver sc_env 0;
   SEvent sc_env (SelectDeckClick "xn"); SServe 0 0; SDeliver sc_env 0;
   SEvent sc_env (Input "cardQuestion" "hola"); SEvent sc_env (Input "cardAnswer" "hello");
   SEvent sc_env CreateCardClick; SServe 0 0; SDeliver sc_env 0;
   SEvent sc_env StartReviewClick; SEvent sc_env ReviewCardClick; SEvent sc_env (RateClick 5);
   SServe 0 0; SDeliver sc_env 0; SServe 0 0; SDeliver sc_env 0;
   SEvent sc_env (DeleteCardClick "xxn" true); SServe 0 0; SDeliver sc_env 0].

(** ** Lemmas on lists *)

(** Two filters agree on a list whose elements they treat alike. *)
Lemma filter_Forall_ext {A} (R P Q : A -> Prop) `{!forall x, Decision (P x)}
    `{!forall x, Decision (Q x)} (l : list A) :
  Forall R l -> (forall x, R x -> P x <-> Q x) -> filter P l = filter Q l.
Proof.
  intros HR HPQ. induction HR as [|x l Hx _ IH]; [done|].
  rewrite !filter_cons, IH. pose proof (HPQ x Hx). repeat case_decide; first [done | tauto].
Qed.

Lemma filter_comm {A} (P Q : A -> Prop) `{!forall x, Decision (P x)}
    `{!forall x, Decision (Q x)} (l : list A) :
  filter P (filter Q l) = filter Q (filter P l).
Proof. rewrite !list_filter_filter. apply list_filter_iff. tauto. Qed.

(** ** Identifiers of the backend *)

Lemma server_id_plain i : server_id i -> plain_id i.
Proof. destruct i; [done|]. by intros [? _]. Qed.

(** A row of an identifier of the backend hands its handler that
    identifier's text. *)
Lemma server_id_onclick i a : server_id i -> onclick_arg (id_text i) a = true -> a = id_text i.
Proof.
  destruct i as [|t]; [done|]. intros [_ Hp]. unfold onclick_arg. simpl. rewrite Hp.
  apply String.eqb_eq.
Qed.

Lemma server_id_str i : server_id i -> i = IdStr (id_text i).
Proof. by destruct i. Qed.

(** Between identifiers of the backend, matching the text of one is
    strict equality. *)
Lemma server_id_names i j :
  server_id i -> server_id j -> names (id_text i) j = bool_decide (j = i).
Proof.
  destruct i as [|a], j as [|b]; try done. intros _ _. unfold names. simpl.
  destruct (String.eqb_spec b a); case_bool_decide; congruence.
Qed.

Lemma deck_cards_ids sv cur :
  ids_ok sv -> Forall (fun c => server_id (card_id c)) (deck_cards sv cur).
Proof. intros [_ Hc]. destruct cur; simpl; [by apply Forall_filter_weaken|constructor]. Qed.

Lemma synced_cards_ids s sv :
  ids_ok sv -> synced s sv -> Forall (fun c => server_id (card_id c)) (cards s).
Proof.
  intros Hids [_ Heq].
  cut (Forall server_id (card_id <$> cards s)); [intros H; rewrite Forall_fmap in H; exact H|].
  rewrite Heq. apply Forall_fmap. by apply deck_cards_ids.
Qed.

(** A deck of the server, found by the identifier text the page shows. *)
Lemma has_deck_find sv i :
  has_deck sv (Some i) -> exists d, find_deck sv (id_text i) = Some d.
Proof.
  unfold has_deck, find_deck. intros (d & -> & Hd)%list_elem_of_fmap.
  destruct (List.find _ _) eqn:Hf; [by eexists|].
  apply List.find_none with (x := d) in Hf; [|by apply list_elem_of_In].
  unfold names in Hf. by rewrite String.eqb_refl in Hf.
Qed.

Lemma has_deck_server_id sv i : ids_ok sv -> has_deck sv (Some i) -> server_id i.
Proof.
  intros [Hd _]. unfold has_deck. intros (d & -> & Hin)%list_elem_of_fmap.
  rewrite Forall_forall in Hd. by apply Hd.
Qed.

(** ** The client's data through the handlers *)

(** The three fields the view is about. *)
Definition same_data (s s' : app) : Prop :=
  decks s' = decks s /\ cards s' = cards s /\ currentDeckId s' = currentDeckId s.

Lemma synced_same s s' sv : synced s sv -> same_data s s' -> synced s' sv.
Proof. intros [Hd Hc] (Hd' & Hc' & Hcur). unfold synced. by rewrite Hd', Hc', Hcur. Qed.

Lemma exitReview_same s : same_data s (fst (exitReview s)).
Proof. unfold exitReview, loadCards. by case_match. Qed.

Lemma showNextReviewCard_same s : same_data s (fst (showNextReviewCard s)).
Proof.
  unfold showNextReviewCard, endReview. case_match; [done|].
  destruct (exitReview_same (showNotification "Повторение завершено! 🎉" "success" s))
    as (? & ? & ?).
  by split_and!.
Qed.

(** Closes [synced] of a state the handler only touched outside the
    three fields. *)
Ltac sync_same H := eapply synced_same; [exact H | by split_and!].

Lemma exitReview_post s sv : synced s sv -> post_ok (exitReview s) sv.
Proof.
  intros Hs. unfold exitReview, loadCards, selected_deck, post_ok, pending_ok. simpl.
  destruct (currentDeckId s) as [i|] eqn:Hc; [destruct (id_truthy i)|]; simpl;
    [|sync_same Hs..].
  split; [apply Hs|]. by exists i.
Qed.

Lemma showNextReviewCard_post s sv : synced s sv -> post_ok (showNextReviewCard s) sv.
Proof.
  intros Hs. unfold showNextReviewCard, endReview. case_match.
  - unfold post_ok. simpl. sync_same Hs.
  - apply exitReview_post. sync_same Hs.
Qed.

Lemma startReview_post e s sv : synced s sv -> post_ok (startReview e s) sv.
Proof.
  intros Hs. unfold startReview.
  destruct (cards s) eqn:Hc; [unfold post_ok; simpl; sync_same Hs|].
  destruct (due_cards _ _); [unfold post_ok; simpl; sync_same Hs|].
  apply showNextReviewCard_post. sync_same Hs.
Qed.

(** The rows of the deck list name decks of the array it rendered. *)
Lemma decks_rows_ids lD ds cs r :
  r ∈ rows_of (fst (updateDecksList lD ds cs)) ->
  exists d, d ∈ ds /\ row_select_arg r = id_text (deck_id d) /\
            row_delete_arg r = id_text (deck_id d).
Proof.
  unfold updateDecksList. destruct ds as [|d0 ds']; [simpl; set_solver|].
  generalize (d0 :: ds'). intros l.
  destruct (render_rows (render_deck lD cs) l) as [rows err] eqn:Hr. simpl.
  revert rows err Hr. induction l as [|x l IH]; intros rows err Hr Hin; simpl in Hr.
  - simplify_eq. set_solver.
  - destruct (render_deck lD cs x) eqn:Hx; [|simplify_eq; set_solver].
    destruct (render_rows (render_deck lD cs) l) as [rs er] eqn:Hl. simplify_eq.
    apply elem_of_cons in Hin as [->|Hin].
    + exists x. unfold render_deck in Hx.
      destruct (escapeHtml_nullable _); simplify_eq. set_solver.
    + destruct (IH rs _ eq_refl Hin) as (d & ? & ?). exists d. set_solver.
Qed.

(** The rows of the card list carry the identifiers of its cards. *)
Lemma cards_rows_ids t cs r :
  r ∈ rows_of (updateCardsList t cs) -> exists c, c ∈ cs /\ row_delete_card_arg r = id_text (card_id c).
Proof.
  unfold updateCardsList. destruct cs as [|c0 cs']; [simpl; set_solver|].
  cbn [rows_of]. intros (c & -> & Hc)%list_elem_of_fmap. by exists c.
Qed.

(** A deck the user can open is a deck of the server, with the text of
    the row as its identifier. *)
Lemma select_found s sv a :
  ids_ok sv -> side_ok s sv -> synced s sv -> enabled s (SelectDeckClick a) = true ->
  exists d, d ∈ sv_decks sv /\ deck_id d = IdStr a.
Proof.
  intros [Hd _] [[[lD [cs Hv]] _] _] [Hdecks _] Hen. simpl in Hen.
  apply existsb_exists in Hen as (r & Hr & Ha). apply list_elem_of_In in Hr. rewrite Hv in Hr.
  destruct (decks_rows_ids _ _ _ _ Hr) as (d & Hin & Harg & _). rewrite Hdecks in Hin.
  rewrite Forall_forall in Hd. specialize (Hd d Hin).
  rewrite Harg in Ha. apply server_id_onclick in Ha as ->; [|done].
  exists d. split; [done|]. by apply server_id_str.
Qed.

Lemma deleteCard_arg s sv a :
  ids_ok sv -> side_ok s sv -> synced s sv ->
  existsb (fun r => onclick_arg (row_delete_card_arg r) a) (rows_of (cardsList s)) = true ->
  server_id (IdStr a).
Proof.
  intros Hids [[_ [t Hv]] _] Hs Ha.
  apply existsb_exists in Ha as (r & Hr & Ha). apply list_elem_of_In in Hr. rewrite Hv in Hr.
  destruct (cards_rows_ids _ _ _ Hr) as (c & Hin & Harg).
  pose proof (synced_cards_ids _ _ Hids Hs) as Hc. rewrite Forall_forall in Hc.
  specialize (Hc c Hin). rewrite Harg in Ha. apply server_id_onclick in Ha as ->; [|done].
  by rewrite <- server_id_str.
Qed.

Lemma selectDeck_post a s sv :
  ids_ok sv -> side_ok s sv -> synced s sv -> enabled s (SelectDeckClick a) = true ->
  post_ok (selectDeck (IdStr a) s) sv /\
  has_deck sv (currentDeckId (fst (selectDeck (IdStr a) s))).
Proof.
  intros Hids Hside Hs Hen. destruct (select_found _ _ _ Hids Hside Hs Hen) as (d & Hd & Hid).
  unfold selectDeck, loadCards, post_ok, pending_ok. simpl.
  destruct (List.find _ (decks s)) eqn:Hf; simpl.
  - split; [split; [apply Hs|by eexists]|]. apply list_elem_of_fmap. by exists d.
  - exfalso. apply List.find_none with (x := d) in Hf.
    + by rewrite bool_decide_eq_true_2 in Hf.
    + apply list_elem_of_In. by destruct Hs as [-> _].
Qed.

(** Every enabled event on a synced client leaves it synced, or starts
    one request [pending_ok] describes. *)
Lemma handle_post e ev s sv :
  ids_ok sv -> side_ok s sv -> synced s sv -> enabled s ev = true ->
  post_ok (handle e ev s) sv.
Proof.
  intros Hids Hside Hs Hen.
  destruct ev as [| | | | |q|a|a ok|a ok|f v]; simpl;
    [unfold createDeck | unfold createCard, selected_deck | by apply startReview_post
    | by apply exitReview_post | | unfold rateCard | by apply (proj1 (selectDeck_post _ _ _ Hids Hside Hs Hen))
    | unfold deleteDeck | unfold deleteCard | ];
    repeat case_match; unfold post_ok, pending_ok; simpl; try sync_same Hs.
  all: split; [done|]; simplify_eq/=.
  all: first [ done | by eexists _, _ | by do 3 eexists; split; [eassumption|]
             | split; [|done]; apply andb_prop in Hen as [_ Hen];
               by eapply deleteCard_arg | idtac ].
  destruct Hside as (_ & _ & Hrc).
  match goal with H : reviewCards s !! _ = Some ?c |- _ =>
    exists (card_id c); eexists; split; [exact (Forall_lookup_1 _ _ _ _ Hrc H)|done] end.
Qed.

Lemma handle_currentDeckId e ev s :
  (forall a, ev <> SelectDeckClick a) -> currentDeckId (fst (handle e ev s)) = currentDeckId s.
Proof.
  intros Hev. destruct ev as [| | | | |q|a|a ok|a ok|f v]; simpl;
    try (by destruct (Hev a)); try by apply exitReview_same.
  all: unfold createDeck, createCard, startReview, rateCard, deleteDeck, deleteCard;
    repeat case_match; try done.
  by rewrite (proj2 (proj2 (showNextReviewCard_same _))).
Qed.

(** The review queue holds cards of the client's array. *)
Lemma handle_reviewCards_ids e ev s :
  Forall (fun c => server_id (card_id c)) (cards s) ->
  Forall (fun c => server_id (card_id c)) (reviewCards s) ->
  Forall (fun c => server_id (card_id c)) (reviewCards (fst (handle e ev s))).
Proof.
  intros Hc Hrc. cases_handle ev; repeat case_match; simpl;
    rewrite ?showNextReviewCard_reviewCards; simpl; try done.
  all: try (unfold shuffleArray; rewrite fy_loop_perm);
    match goal with H : due_cards _ _ = _ |- _ => rewrite <- H end;
    unfold due_cards; by apply Forall_filter_weaken.
Qed.

Lemma handle_side e ev s sv :
  ids_ok sv -> side_ok s sv -> synced s sv -> enabled s ev = true ->
  side_ok (fst (handle e ev s)) sv.
Proof.
  intros Hids Hside Hs Hen. pose proof Hside as (Hv & Hcur & Hrc). split_and!.
  - by apply handle_views.
  - destruct ev; try (rewrite handle_currentDeckId; [done|by intros ? [=]]).
    by apply selectDeck_post.
  - apply handle_reviewCards_ids; [by apply (synced_cards_ids _ sv)|done].
Qed.

(** ** The server's side *)

Lemma json_id_text_of_id i : json_id_text (Some (json_of_id i)) = Some (id_text i).
Proof. by destruct i. Qed.

Lemma pending_ok_sent p s sv : pending_ok p s sv -> sent_by_client p.
Proof.
  destruct p as [rq k]. unfold pending_ok, sent_by_client. simpl.
  destruct k; intros Hp; repeat match goal with
    | H : _ /\ _ |- _ => destruct H
    | H : exists _, _ |- _ => destruct H end; subst rq; constructor.
Qed.

Lemma card_ids_filter (i : js_id) (l : list card) :
  card_id <$> filter (fun c => card_id c <> i) l = filter (fun j => j <> i) (card_id <$> l).
Proof.
  induction l as [|c l IH]; [done|]. rewrite fmap_cons, !filter_cons.
  case_decide; by rewrite ?fmap_cons, IH.
Qed.

(** The cards of a deck after a card deletion, and after a grade. *)
Lemma deck_cards_delete ds cs n cur i :
  Forall (fun c => server_id (card_id c)) cs -> server_id i ->
  deck_cards (mkServer ds (filter (fun c => names (id_text i) (card_id c) = false) cs) n) cur =
  filter (fun c => card_id c <> i) (deck_cards (mkServer ds cs n) cur).
Proof.
  intros Hcs Hi. destruct cur as [j|]; [simpl|done].
  rewrite (filter_comm (fun c => card_id c <> i)). f_equal.
  apply (filter_Forall_ext (fun c => server_id (card_id c))); [done|].
  intros c Hc. rewrite server_id_names by done. case_bool_decide; naive_solver.
Qed.

Lemma deck_cards_review ds cs n cur (g : card -> card) :
  Forall (fun c => card_id (g c) = card_id c /\ deckId (g c) = deckId c) cs ->
  card_id <$> deck_cards (mkServer ds (g <$> cs) n) cur =
  card_id <$> deck_cards (mkServer ds cs n) cur.
Proof.
  intros Hg. destruct cur as [j|]; [simpl|done].
  induction Hg as [|x cs [Hid Hdk] _ IH]; [done|].
  rewrite fmap_cons, !filter_cons, Hdk. case_decide; by rewrite ?fmap_cons, ?Hid, IH.
Qed.

(** Two elements with the same image under a map without repetitions
    are one. *)
Lemma NoDup_fmap_eq {A B} (f : A -> B) l x y :
  NoDup (f <$> l) -> x ∈ l -> y ∈ l -> f x = f y -> x = y.
Proof.
  induction l as [|a l IH]; intros Hnd Hx Hy Hf; [set_solver|].
  rewrite fmap_cons in Hnd. apply NoDup_cons in Hnd as [Hn Hnd].
  apply elem_of_cons in Hx as [->|Hx], Hy as [->|Hy]; auto;
    exfalso; apply Hn, list_elem_of_fmap; eauto.
Qed.

Section Answers.
Context (nf inv : string) (mk : Z -> js_id) (sch : card -> Z -> card).

(** The backend makes identifiers of one path segment, and its schedule
    keeps the identifier and the deck of a card. *)
Hypothesis mk_server_id : forall k, server_id (mk k).
Hypothesis mk_inj : forall k l, id_text (mk k) = id_text (mk l) -> k = l.
Hypothesis sch_ids : forall c q, card_id (sch c q) = card_id c /\ deckId (sch c q) = deckId c.

Lemma serve_ids t sv rq : ids_ok sv -> ids_ok (fst (serve nf inv mk sch t sv rq)).
Proof.
  intros [Hd Hc]. unfold serve.
  destruct (route_of rq) as [[|b|i|i|b|i|i b]|]; simpl; try (by split);
    repeat case_match; simpl; split; try done; try by apply Forall_filter_weaken.
  - apply Forall_app. split; [done|]. repeat constructor. apply mk_server_id.
  - apply Forall_app. split; [done|]. repeat constructor. apply mk_server_id.
  - apply Forall_fmap. eapply Forall_impl; [exact Hc|]. intros x Hx. simpl.
    case_match; [|done]. rewrite (proj1 (sch_ids _ _)).
    match goal with H : find_card _ _ = Some _ |- _ => apply find_card_some in H as [Hin _] end.
    rewrite Forall_forall in Hc. by apply Hc.
Qed.

Lemma serve_has_deck t sv rq cur :
  client_request rq -> has_deck sv cur -> has_deck (fst (serve nf inv mk sch t sv rq)) cur.
Proof.
  intros Hrq. destruct cur; simpl; [|done]. intros (d & -> & Hd)%list_elem_of_fmap.
  apply list_elem_of_fmap. exists d. split; [done|]. by apply (serve_decks_grow nf inv mk sch).
Qed.

Lemma serve_side t sv rq s :
  client_request rq -> side_ok s sv -> side_ok s (fst (serve nf inv mk sch t sv rq)).
Proof. intros Hrq (Hv & Hcur & Hrc). split_and!; [done|by apply serve_has_deck|done]. Qed.

(** ** The answers reaching the client *)

Lemma deliver_loadDecks e t sv' sv rp (r : response (list deck)) s :
  card_id <$> cards s = card_id <$> deck_cards sv' (currentDeckId s) ->
  serve nf inv mk sch t sv' loadDecks_request = (sv, rp) -> client_response KLoadDecks rp = Some r ->
  post_ok (loadDecks_k e r s) sv.
Proof.
  intros Hc. unfold Server.serve. rewrite route_loadDecks. intros [= <- <-] [= <-].
  unfold loadDecks_k, render_decks. simpl.
  destruct (updateDecksList _ _ _) as [v [err|]]; unfold post_ok; simpl; by split.
Qed.

Lemma deliver_createDeck e t sv' sv rp (r : response deck) s n d :
  synced s sv' -> serve nf inv mk sch t sv' (apiCreateDeck_request n d) = (sv, rp) ->
  client_response KCreateDeck rp = Some r -> post_ok (createDeck_k e r s) sv.
Proof.
  intros [Hd Hc]. unfold Server.serve. rewrite route_createDeck. simpl.
  intros [= <- <-] [= <-]. unfold createDeck_k, render_decks. simpl.
  destruct (updateDecksList _ _ _) as [v [err|]]; unfold post_ok, synced; simpl;
    (split; [by rewrite Hd|exact Hc]).
Qed.

Lemma deliver_deleteDeck e t sv' sv rp (r : response unit) s i :
  synced s sv' -> serve nf inv mk sch t sv' (apiDeleteDeck_request i) = (sv, rp) ->
  client_response (KDeleteDeck i) rp = Some r -> post_ok (deleteDeck_k e i r s) sv.
Proof.
  intros Hs. unfold Server.serve. rewrite route_deleteDeck. intros [= <- <-] [= <-].
  unfold post_ok. simpl. sync_same Hs.
Qed.

Lemma deliver_loadCards e t sv' sv rp (r : response (list card)) s i :
  ids_ok sv' -> has_deck sv' (Some i) -> decks s = sv_decks sv' -> currentDeckId s = Some i ->
  serve nf inv mk sch t sv' (loadCards_request i) = (sv, rp) -> client_response KLoadCards rp = Some r ->
  post_ok (loadCards_k e r s) sv.
Proof.
  intros Hids Hh Hd Hcur. destruct (has_deck_find _ _ Hh) as [d Hf].
  unfold Server.serve.
  rewrite route_loadCards by (eapply server_id_plain, has_deck_server_id; eauto).
  rewrite Hf. intros [= <- <-] [= <-].
  unfold loadCards_k, render_cards, post_ok, synced. simpl. by rewrite Hcur.
Qed.

Lemma deliver_createCard e t sv' sv rp (r : response card) s i q a :
  synced s sv' -> currentDeckId s = Some i ->
  serve nf inv mk sch t sv' (apiCreateCard_request i q a) = (sv, rp) ->
  client_response KCreateCard rp = Some r -> post_ok (createCard_k e r s) sv.
Proof.
  intros Hs Hcur. pose proof Hs as [Hd Hc]. rewrite Hcur in Hc.
  unfold Server.serve. rewrite route_createCard.
  replace (json_id_text _) with (Some (id_text i)) by (by destruct i). simpl.
  destruct (find_deck sv' (id_text i)) as [dk|] eqn:Hf; intros [= <- <-] [= <-];
    unfold createCard_k, render_cards, post_ok; simpl; [|sync_same Hs].
  apply find_deck_some in Hf as [_ Hn]. unfold synced. simpl. rewrite Hcur.
  split; [done|]. simpl. rewrite filter_app, !fmap_app, Hc.
  by rewrite filter_cons_True.
Qed.

Lemma deliver_deleteCard e t sv' sv rp (r : response unit) s i :
  ids_ok sv' -> synced s sv' -> server_id i ->
  serve nf inv mk sch t sv' (apiDeleteCard_request i) = (sv, rp) ->
  client_response (KDeleteCard i) rp = Some r -> post_ok (deleteCard_k e i r s) sv.
Proof.
  intros [_ Hcs] Hs Hi. unfold Server.serve. rewrite route_deleteCard by (by apply server_id_plain).
  destruct (find_card sv' (id_text i)); intros [= <- <-] [= <-];
    unfold deleteCard_k, render_cards, post_ok; simpl; [|sync_same Hs].
  destruct Hs as [Hd Hc]. split; [done|]. simpl.
  destruct sv' as [ds cs n]. rewrite deck_cards_delete by done.
  rewrite !card_ids_filter. by rewrite Hc.
Qed.

Lemma deliver_rate t sv' sv rp (r : response card) s i q :
  server_ok mk sv' -> synced s sv' -> server_id i ->
  serve nf inv mk sch t sv' (apiUpdateCard_request i q) = (sv, rp) ->
  client_response KRate rp = Some r -> post_ok (rateCard_k r s) sv.
Proof.
  intros (_ & Hnd & _) Hs Hi. unfold Server.serve.
  rewrite route_updateCard by (by apply server_id_plain).
  simpl. destruct (find_card sv' (id_text i)) as [c|] eqn:Hf; intros [= <- <-] [= <-];
    unfold rateCard_k; simpl; [apply showNextReviewCard_post|unfold post_ok; simpl; sync_same Hs].
  apply find_card_some in Hf as [Hin Hn%names_spec].
  destruct Hs as [Hd Hc]. split; [done|]. simpl. destruct sv' as [ds cs n].
  rewrite deck_cards_review; [exact Hc|]. apply Forall_forall. intros x Hx.
  destruct (names (id_text i) (card_id x)) eqn:Hx'; [|done]. apply names_spec in Hx'.
  assert (x = c) as -> by (apply (NoDup_fmap_eq _ _ _ _ Hnd); [done|done|simpl; congruence]).
  apply sch_ids.
Qed.

Lemma pending_side_ok_lookup (s : app) sv i :
  has_deck sv (currentDeckId s) -> currentDeckId s = Some i -> has_deck sv (Some i).
Proof. intros H Hc. by rewrite Hc in H. Qed.

Lemma deliver_post e t sv' sv p rp r s :
  ids_ok sv' -> server_ok mk sv' -> side_ok s sv' -> pending_ok p s sv' ->
  serve nf inv mk sch t sv' (p_request p) = (sv, rp) ->
  client_response (p_cont p) rp = Some r -> post_ok (resume e (p_cont p) r s) sv.
Proof.
  destruct p as [rq k]. unfold pending_ok. simpl. intros Hids Hok (_ & Hh & _) Hp.
  destruct k; simpl; repeat match goal with
    | H : _ /\ _ |- _ => destruct H
    | H : exists _, _ |- _ => destruct H end; subst rq.
  - by apply deliver_loadDecks.
  - by apply deliver_createDeck.
  - by apply deliver_deleteDeck.
  - by eapply deliver_createCard.
  - eapply deliver_loadCards; eauto using pending_side_ok_lookup.
  - by apply deliver_deleteCard.
  - by eapply deliver_rate.
Qed.

Lemma resume_currentDeckId e k r s :
  currentDeckId (fst (resume e k r s)) = currentDeckId s \/
  currentDeckId (fst (resume e k r s)) = None.
Proof.
  cases_resume k; repeat case_match; simplify_eq/=; auto.
  match goal with |- context [showNextReviewCard ?x] =>
    left; by destruct (showNextReviewCard_same x) as (_ & _ & ->) end.
Qed.

Lemma resume_reviewCards e k r s : reviewCards (fst (resume e k r s)) = reviewCards s.
Proof.
  cases_resume k; repeat case_match; simplify_eq/=; by rewrite ?showNextReviewCard_reviewCards.
Qed.

Lemma deliver_side e t sv' sv rq rp k r s :
  client_request rq -> side_ok s sv' -> serve nf inv mk sch t sv' rq = (sv, rp) ->
  side_ok (fst (resume e k r s)) sv.
Proof.
  intros Hrq Hside Hserve. apply (serve_side t sv' rq) in Hside; [|done].
  rewrite Hserve in Hside. destruct Hside as (Hv & Hcur & Hrc). split_and!.
  - by apply resume_views.
  - by destruct (resume_currentDeckId e k r s) as [-> | ->].
  - by rewrite resume_reviewCards.
Qed.

(** ** The invariant of calm runs *)

Lemma flight_after o sv : post_ok o sv -> flight_ok nf inv mk sch (fst o) sv ([] ++ unanswered (snd o)).
Proof. destruct o as [s' [|p [|]]]; simpl; done. Qed.

Lemma calm_init sv0 : ids_ok sv0 -> server_ok mk sv0 -> calm_ok nf inv mk sch (sys_boot true sv0).
Proof.
  intros Hids Hok. unfold calm_ok. simpl. split_and!; try done.
  split; [split; [exists (fun _ => ""), []|exists 0%Z]; reflexivity|by split].
Qed.

Lemma calm_preserved S S' : calm_ok nf inv mk sch S -> calm_step nf inv mk sch S S' -> calm_ok nf inv mk sch S'.
Proof.
  intros (Hids & Hok & Hside & Hfl) Hstep.
  destruct Hstep as [e ev ? Hnil Hen|e t ? ? Hauto]; [|destruct Hauto as [? n p Hn|? n p rp r Hn Hr]].
  - rewrite Hnil in Hfl |- *. pose proof (handle_post e ev _ _ Hids Hside Hfl Hen) as Hp.
    unfold calm_ok, sys_after. simpl. split_and!; [done|done|by apply handle_side|].
    exact (flight_after _ _ Hp).
  - destruct (sys_flight S) as [|[p0 a0] [|]]; simpl in Hfl, Hn |- *;
      [destruct n; simpl in Hn; congruence| |destruct a0; contradiction].
    destruct n as [|n]; [|destruct n; simpl in Hn; congruence]. simplify_eq/=.
    pose proof (pending_ok_sent _ _ _ Hfl) as Hrq.
    split_and!; [by apply serve_ids|by apply serve_ok|by apply serve_side|].
    exists t, (sys_server S). split_and!; try done. by destruct (Server.serve _ _ _ _ _ _ _).
  - destruct (sys_flight S) as [|[p0 a0] [|]]; simpl in Hfl, Hn |- *;
      [destruct n; simpl in Hn; congruence| |destruct a0; contradiction].
    destruct n as [|n]; [|destruct n; simpl in Hn; congruence]. simplify_eq/=.
    destruct Hfl as (t0 & sv' & Hids' & Hok' & Hside' & Hp & Hserve).
    unfold calm_ok, sys_after. simpl. split_and!; [done|done| |].
    + eapply deliver_side; [by eapply pending_ok_sent|exact Hside'|exact Hserve].
    + apply flight_after. by eapply deliver_post.
Qed.

Lemma calm_reachable_ok sv0 S :
  ids_ok sv0 -> server_ok mk sv0 -> calm_reachable nf inv mk sch sv0 S -> calm_ok nf inv mk sch S.
Proof.
  intros Hids Hok Hr. revert S Hr. apply rtc_ind_r; [by apply calm_init|].
  intros y z _ Hyz IH. by eapply calm_preserved.
Qed.

(** ** Properties *)

(** C39: refinement of the server by the client's view.  Against a
    server that follows the contract, makes unique identifiers of one
    path segment that the rows' [onclick] attributes hand back unchanged
    (printable ASCII without [&], a backslash or a quote), and keeps a
    card's identifier and deck when grading it,
    in every calm run (the user acts only when nothing is in flight, and
    the network loses nothing), whenever nothing is in flight the
    client's [decks] are the server's decks in the server's order, and
    its [cards] carry the identifiers of the server's cards of the
    selected deck, in the server's order; before a deck is selected
    there are none. *)
Theorem calm_client_synced sv0 S :
  ids_ok sv0 -> server_ok mk sv0 -> calm_reachable nf inv mk sch sv0 S -> sys_flight S = [] ->
  synced (sys_app S) (sys_server S).
Proof.
  intros Hids Hok Hr Hnil.
  destruct (calm_reachable_ok sv0 S Hids Hok Hr) as (_ & _ & _ & Hfl). by rewrite Hnil in Hfl.
Qed.

End Answers.

Section Runs.
Context (nf inv : string) (mk : Z -> js_id) (sch : card -> Z -> card).

(** A calm run is a run of the system. *)
Lemma calm_sys_reachable sv0 S :
  calm_reachable nf inv mk sch sv0 S -> sys_reachable nf inv mk sch sv0 S.
Proof.
  revert S. apply rtc_ind_r; [apply sys_reach_boot|]. intros y z _ Hyz IH.
  eapply sys_reach_step; [exact IH|]. destruct Hyz as [e ev ? _ Hen|e t ? ? Hauto].
  - by constructor.
  - by eapply auto_step_sys.
Qed.

Lemma calm_action_step S a S' :
  calm_action nf inv mk sch S a = Some S' -> calm_step nf inv mk sch S S'.
Proof.
  destruct a as [e ev|t n|e n|e n m]; unfold calm_action; simpl.
  - destruct (sys_flight S) eqn:Hf; [|done].
    destruct (enabled (sys_app S) ev) eqn:He; [|done]. intros [= <-].
    pose proof (calm_event nf inv mk sch e ev S Hf He) as H. by rewrite Hf in H.
  - destruct (sys_flight S !! n) as [[p [rp|]]|] eqn:Hn; [done| |done]. intros [= <-].
    apply (calm_auto _ _ _ _ sc_env t). by apply auto_serve.
  - destruct (sys_flight S !! n) as [[p [rp|]]|] eqn:Hn; [|done..].
    destruct (client_response (p_cont p) rp) eqn:Hr; [|done]. intros [= <-].
    apply (calm_auto _ _ _ _ e 0). by eapply auto_deliver.
  - done.
Qed.

Lemma run_calm_reachable sv0 S acts S' :
  calm_reachable nf inv mk sch sv0 S -> run_calm nf inv mk sch S acts = Some S' ->
  calm_reachable nf inv mk sch sv0 S'.
Proof.
  revert S. induction acts as [|a acts IH]; intros S HS; simpl; [by intros [= <-]|].
  destruct (calm_action nf inv mk sch S a) as [S1|] eqn:Ha; [|done].
  apply IH. eapply rtc_r; [exact HS|]. by apply (calm_action_step S a).
Qed.

Lemma run_calm_is_Some S acts :
  option_map (fun _ => tt) (run_calm nf inv mk sch S acts) = Some tt ->
  is_Some (run_calm nf inv mk sch S acts).
Proof. destruct (run_calm nf inv mk sch S acts); [by eexists|done]. Qed.

End Runs.

(** ** The example backend *)

Lemma replicate_sep_inj (a b a' b' : nat) (x y : ascii) :
  x <> y -> (replicate a x ++ y :: replicate b x = replicate a' x ++ y :: replicate b' x)%list ->
  a = a' /\ b = b'.
Proof.
  intros Hxy. revert a'. induction a as [|a IH]; intros [|a'] H; simpl in H.
  - injection H as H. apply (f_equal length) in H. rewrite !length_replicate in H. by split.
  - injection H as H _. congruence.
  - injection H as H _. congruence.
  - injection H as H. destruct (IH a' H). split; [lia|done].
Qed.

Lemma forallb_replicate {A} (f : A -> bool) n x : f x = true -> forallb f (replicate n x) = true.
Proof. intros Hx. induction n as [|n IH]; simpl; [done|]. by rewrite Hx, IH. Qed.

Lemma calm_ids_server_id k : server_id (calm_ids k).
Proof.
  unfold calm_ids, server_id, onclick_plain. rewrite String.list_ascii_of_string_of_list_ascii.
  split.
  - unfold slash. intros [H|[H|H]%elem_of_cons]%elem_of_app;
      try apply elem_of_replicate in H as [H _]; discriminate.
  - rewrite forallb_app. simpl. by rewrite !forallb_replicate.
Qed.

Lemma calm_ids_inj k l : id_text (calm_ids k) = id_text (calm_ids l) -> k = l.
Proof.
  unfold calm_ids. simpl. intros H. apply (f_equal String.list_ascii_of_string) in H.
  rewrite !String.list_ascii_of_string_of_list_ascii in H.
  apply replicate_sep_inj in H as [H1 H2]; [lia|discriminate].
Qed.

Lemma example_schedule_ids c q :
  card_id (example_schedule c q) = card_id c /\ deckId (example_schedule c q) = deckId c.
Proof. done. Qed.

Lemma calm_server_ok : ids_ok calm_server /\ server_ok calm_ids calm_server.
Proof. repeat split; constructor. Qed.

(** ** Witnesses *)

Lemma calm_client_synced_witness :
  exists S, run_calm "nf" "inv" calm_ids example_schedule (sys_boot true calm_server)
              calm_session = Some S /\
    sys_flight S = [] /\ synced (sys_app S) (sys_server S).
Proof.
  destruct (run_calm_is_Some "nf" "inv" calm_ids example_schedule (sys_boot true calm_server)
              calm_session ltac:(vm_compute; reflexivity)) as [S HS].
  assert (Hnil : sys_flight S = []).
  { replace S with (default S (run_calm "nf" "inv" calm_ids example_schedule
                                 (sys_boot true calm_server) calm_session)) by (by rewrite HS).
    vm_compute. reflexivity. }
  exists S. split_and!; [done|done|].
  apply (calm_client_synced "nf" "inv" calm_ids example_schedule calm_ids_server_id calm_ids_inj
           example_schedule_ids calm_server S (proj1 calm_server_ok) (proj2 calm_server_ok));
    [|exact Hnil].
  apply (run_calm_reachable _ _ _ _ _ _ _ _ (rtc_refl _ _) HS).
Defined.

End Sync.
